(** * Doctor Who Episodes Explorer: a shallow embedding of [script.js]

    The development follows the layout of the script: the JavaScript values
    and built-ins the script relies on ([JS]), the host environment
    (clock, time zone, date parser), the utility functions
    ([formatDoctor], [normalizeDate], [escapeCSV], [getSortValue]), the
    validator, the view engine with its global state, keyboard handling and
    the loader, then [getYear], the CSV export and the rows of the table.
    Definitions come first, the theorems follow. *)

From Stdlib Require Import ZArith String Ascii Lia.
From stdpp Require Import base option list sorting gmap strings pretty.

Open Scope string_scope.
Open Scope Z_scope.

Set Warnings "-register-all".

(** ** JavaScript values and built-ins *)

Module JS.

(** Numbers.  A finite number is modelled by an integer: every number the
    script computes with (ranks, series, lengths, years, epoch
    milliseconds) is one.  The three special doubles are kept, since
    [isFinite], [isNaN] and [||] tell them apart. *)
Inductive number := Fin (z : Z) | PosInf | NegInf | NaN.

(** Values as [JSON.parse] builds them, plus [undefined]. An object is the
    list of its own properties, looked up by key. *)
Inductive value :=
| Undefined
| Null
| Bool (b : bool)
| Num (n : number)
| Str (s : string)
| Arr (elems : list value)
| Obj (props : list (string * value)).

Inductive exn :=
| TypeError (msg : string)
| SyntaxError (msg : string)
| Error (msg : string).

Definition message (e : exn) : string :=
  match e with TypeError m | SyntaxError m | Error m => m end.

(** A computation either returns or throws. *)
Inductive result (A : Type) := Ok (a : A) | Throw (e : exn).
Arguments Ok {A} a.
Arguments Throw {A} e.

#[export] Instance result_ret : MRet result := fun _ a => Ok a.
#[export] Instance result_bind : MBind result := fun _ _ f r =>
  match r with Ok a => f a | Throw e => Throw e end.

Definition number_eqb (a b : number) : bool :=
  match a, b with
  | Fin x, Fin y => x =? y
  | PosInf, PosInf | NegInf, NegInf => true
  | _, _ => false
  end.

Definition isFinite (n : number) : bool :=
  match n with Fin _ => true | _ => false end.

Definition isNaN (n : number) : bool :=
  match n with NaN => true | _ => false end.

(** [ToBoolean]. *)
Definition truthy (v : value) : bool :=
  match v with
  | Undefined | Null => false
  | Bool b => b
  | Num (Fin z) => negb (z =? 0)
  | Num NaN => false
  | Num _ => true
  | Str s => negb (s =? "")%string
  | Arr _ | Obj _ => true
  end.

Definition nullish (v : value) : bool :=
  match v with Undefined | Null => true | _ => false end.

(** [a || b] and [a ?? b]. *)
Definition or_else (a b : value) : value := if truthy a then a else b.
Definition coalesce (a b : value) : value := if nullish a then b else a.

Fixpoint assoc (k : string) (ps : list (string * value)) : option value :=
  match ps with
  | [] => None
  | (k', v) :: r => if (k =? k')%string then Some v else assoc k r
  end.

(** Own-property read on a value that is not nullish.  Inherited members
    (methods such as [toString]) are not data and are modelled where they
    are called; array indices are not read by the script. *)
Definition prop (v : value) (k : string) : value :=
  match v with
  | Obj ps => default Undefined (assoc k ps)
  | Arr l => if (k =? "length")%string then Num (Fin (Z.of_nat (length l))) else Undefined
  | Str s => if (k =? "length")%string then Num (Fin (Z.of_nat (String.length s))) else Undefined
  | _ => Undefined
  end.

(** [v.k]: throws on [null] and [undefined]. *)
Definition get (v : value) (k : string) : result value :=
  if nullish v then Throw (TypeError "Cannot read properties of null or undefined")
  else Ok (prop v k).

(** [v?.k]. *)
Definition get_opt (v : value) (k : string) : value :=
  if nullish v then Undefined else prop v k.

(** [Number.prototype.toString]: the decimal digits of the integer.  This
    is what JavaScript prints for the integers a number holds exactly
    (below 2^53 in absolute value); beyond them it prints the shortest
    digits that read back, and from 10^21 on exponent notation. *)
Definition number_to_string (n : number) : string :=
  match n with
  | Fin z => pretty z
  | PosInf => "Infinity"
  | NegInf => "-Infinity"
  | NaN => "NaN"
  end.

(** [ToString]; also the [toString()] method of a value that is not
    nullish.  An object that carries an own [toString] property (which
    [JSON.parse] can only make a non-callable one) cannot be converted. *)
Fixpoint ToString (v : value) : result string :=
  match v with
  | Undefined => Ok "undefined"
  | Null => Ok "null"
  | Bool true => Ok "true"
  | Bool false => Ok "false"
  | Num n => Ok (number_to_string n)
  | Str s => Ok s
  | Arr l =>
      (fix join (l : list value) : result string :=
         match l with
         | [] => Ok ""
         | x :: r =>
             s ← (if nullish x then Ok "" else ToString x);
             match r with
             | [] => Ok s
             | _ => t ← join r; Ok (s +:+ "," +:+ t)
             end
         end) l
  | Obj ps =>
      match assoc "toString" ps with
      | Some _ => Throw (TypeError "Cannot convert object to primitive value")
      | None => Ok "[object Object]"
      end
  end.

(** [v.toString()]. *)
Definition toString_method (v : value) : result string :=
  if nullish v then Throw (TypeError "Cannot read properties of null or undefined")
  else ToString v.

(** *** Strings.  A character stands for one code unit below 256.  On
    such texts [toLowerCase] works character by character, as [lower]
    does; beyond them it looks at the neighbours of a character (the
    final sigma), so that no law of [lower] on joined texts is taken for
    a law of the script. *)

Definition lower_ascii (c : ascii) : ascii :=
  let n := N_of_ascii c in
  if ((65 <=? n) && (n <=? 90) || (192 <=? n) && (n <=? 222) && negb (n =? 215))%N
  then ascii_of_N (n + 32) else c.

Fixpoint lower (s : string) : string :=
  match s with
  | EmptyString => EmptyString
  | String c r => String (lower_ascii c) (lower r)
  end.

(** [String.prototype.includes]. *)
Fixpoint includes (s needle : string) : bool :=
  String.prefix needle s ||
  match s with
  | EmptyString => false
  | String _ r => includes r needle
  end.

(** [v.toLowerCase()]: only strings have the method. *)
Definition toLowerCase (v : value) : result string :=
  match v with
  | Str s => Ok (lower s)
  | Undefined | Null => Throw (TypeError "Cannot read properties of null or undefined")
  | _ => Throw (TypeError "toLowerCase is not a function")
  end.

(** [v?.toLowerCase() ?? ''] as a whole: the call is skipped on a nullish
    receiver and the empty string takes its place. *)
Definition toLowerCase_or_empty (v : value) : result string :=
  if nullish v then Ok "" else toLowerCase v.

(** *** Characters and the regular expressions of the script *)

Definition quote : ascii := ascii_of_N 34.
Definition comma : ascii := ascii_of_N 44.
Definition newline : ascii := ascii_of_N 10.
Definition slash : ascii := ascii_of_N 47.

Definition is_digit (c : ascii) : bool :=
  let n := N_of_ascii c in ((48 <=? n) && (n <=? 57))%N.

Fixpoint all_digits (s : string) : bool :=
  match s with
  | EmptyString => true
  | String c r => is_digit c && all_digits r
  end.

Fixpoint contains_char (p : ascii -> bool) (s : string) : bool :=
  match s with
  | EmptyString => false
  | String c r => p c || contains_char p r
  end.

(** [s.replace(/c/g, by)] for a one-character pattern. *)
Fixpoint replace_char (c : ascii) (by_ : string) (s : string) : string :=
  match s with
  | EmptyString => EmptyString
  | String a r =>
      if Ascii.eqb a c then by_ +:+ replace_char c by_ r
      else String a (replace_char c by_ r)
  end.

(** [s.split(c)] for a one-character separator: never the empty list. *)
Fixpoint split (c : ascii) (s : string) : list string :=
  match s with
  | EmptyString => [EmptyString]
  | String a r =>
      if Ascii.eqb a c then EmptyString :: split c r
      else match split c r with
           | h :: t => String a h :: t
           | [] => [String a EmptyString]
           end
  end.

(** *** Conversion to numbers *)

Definition is_space (c : ascii) : bool :=
  let n := N_of_ascii c in
  ((n =? 32) || ((9 <=? n) && (n <=? 13)) || (n =? 160))%N.

Fixpoint trim_left (s : string) : string :=
  match s with
  | String c r => if is_space c then trim_left r else s
  | EmptyString => EmptyString
  end.

Fixpoint trim_right (s : string) : string :=
  match s with
  | EmptyString => EmptyString
  | String c r =>
      match trim_right r with
      | EmptyString => if is_space c then EmptyString else String c EmptyString
      | r' => String c r'
      end
  end.

Fixpoint digits_value (acc : Z) (s : string) : Z :=
  match s with
  | EmptyString => acc
  | String c r => digits_value (10 * acc + (Z.of_N (N_of_ascii c) - 48)) r
  end.

Definition unsigned_literal (s : string) : number :=
  if (s =? "Infinity")%string then PosInf
  else if negb (s =? "")%string && all_digits s then Fin (digits_value 0 s)
  else NaN.

Definition negate (n : number) : number :=
  match n with
  | Fin z => Fin (- z)
  | PosInf => NegInf
  | NegInf => PosInf
  | NaN => NaN
  end.

(** [StringToNumber] on the literals the integer model can hold: blank
    text is 0, then an optional sign before decimal digits or [Infinity].
    Fractions, exponents and radix prefixes have no integer value here
    and are left outside the model (read as NaN). *)
Definition StringToNumber (s : string) : number :=
  match trim_right (trim_left s) with
  | EmptyString => Fin 0
  | String c r as t =>
      if Ascii.eqb c (ascii_of_N 45) then negate (unsigned_literal r)
      else if Ascii.eqb c (ascii_of_N 43) then unsigned_literal r
      else unsigned_literal t
  end.

(** [ToNumber]; arrays and objects go through [ToString]. *)
Definition ToNumber (v : value) : result number :=
  match v with
  | Undefined => Ok NaN
  | Null => Ok (Fin 0)
  | Bool b => Ok (Fin (if b then 1 else 0))
  | Num n => Ok n
  | Str s => Ok (StringToNumber s)
  | _ => s ← ToString v; Ok (StringToNumber s)
  end.

(** [n - k] for a finite [k]. *)
Definition minus (n : number) (k : Z) : number :=
  match n with Fin z => Fin (z - k) | _ => n end.

(** *** The relational operators [<] and [>] *)

Definition number_ltb (a b : number) : bool :=
  match a, b with
  | NaN, _ | _, NaN => false
  | Fin x, Fin y => x <? y
  | NegInf, NegInf => false
  | NegInf, _ => true
  | _, PosInf => negb (number_eqb a PosInf)
  | _, _ => false
  end.

Definition ToPrimitive (v : value) : result value :=
  match v with
  | Arr _ | Obj _ => s ← ToString v; Ok (Str s)
  | _ => Ok v
  end.

(** [a < b]: code-unit order on two strings, numeric order otherwise. *)
Definition lt (a b : value) : result bool :=
  pa ← ToPrimitive a;
  pb ← ToPrimitive b;
  match pa, pb with
  | Str x, Str y => Ok (String.ltb x y)
  | _, _ => x ← ToNumber pa; y ← ToNumber pb; Ok (number_ltb x y)
  end.

(** [a > b] is [b < a] with the operands still converted left to right;
    the conversions have no effect to reorder. *)
Definition gt (a b : value) : result bool := lt b a.

(** *** Dates *)

(** What the browser contributes: the local time zone ([utc] turns a
    local time value into UTC), the parser behind [new Date(text)], whose
    accepted formats are implementation-defined beyond ISO, and the
    clock read by [new Date()]. *)
Record Host := {
  utc : Z -> Z;
  parse : string -> number;
  clock : Z
}.

(** A [Date] object is its time value: milliseconds since the epoch, or
    NaN for an invalid date. *)
Record date := MkDate { getTime : number }.

Definition msPerDay : Z := 86400000.

(** Day number of the first day of month [m] (0 = January) of year [y],
    counted from 1 January 1970 in the proleptic Gregorian calendar. *)
Definition day_of_month_start (y m : Z) : Z :=
  let M := m + 1 in
  let y' := if M <=? 2 then y - 1 else y in
  let era := y' / 400 in
  let yoe := y' - era * 400 in
  let mp := (M + 9) mod 12 in
  let doy := (153 * mp + 2) / 5 in
  era * 146097 + (yoe * 365 + yoe / 4 - yoe / 100 + doy) - 719468.

(** [MakeDay] as ECMAScript defines it, with no bound on its arguments.
    An engine may give up earlier on a huge month index; the dates of
    the digit groups read here are then out of the range of [TimeClip]
    anyway. *)
Definition MakeDay (year month dt : number) : number :=
  match year, month, dt with
  | Fin y, Fin m, Fin d => Fin (day_of_month_start (y + m / 12) (m mod 12) + d - 1)
  | _, _, _ => NaN
  end.

Definition TimeClip (t : number) : number :=
  match t with
  | Fin z => if Z.abs z <=? 8640000000000000 then t else NaN
  | _ => NaN
  end.

(** [new Date(year, month, day)]: local midnight of that day; a year from
    0 to 99 is taken as 1900 + year. *)
Definition Date_ymd (h : Host) (year month dt : number) : date :=
  let yr := match year with
            | Fin y => if (0 <=? y) && (y <=? 99) then Fin (1900 + y) else year
            | _ => year
            end in
  match MakeDay yr month dt with
  | Fin day => MkDate (TimeClip (Fin (utc h (day * msPerDay))))
  | _ => MkDate NaN
  end.

(** [new Date(v)] for a value that is not a [Date]. *)
Definition Date_of (h : Host) (v : value) : result date :=
  p ← ToPrimitive v;
  match p with
  | Str s => Ok (MkDate (TimeClip (parse h s)))
  | _ => n ← ToNumber p; Ok (MkDate (TimeClip n))
  end.

(** [a > b] on two dates compares the time values. *)
Definition date_gt (a : date) (b : Z) : bool := number_ltb (Fin b) (getTime a).

End JS.

Import JS.

(** ** Formatting accessors (script.js, 396-410) *)

Definition formatDoctor (d : value) (includeInc : bool) : result value :=
  if negb (truthy (get_opt d "actor")) then Ok (Str "N/A")
  else if includeInc then
    a ← ToString (prop d "actor");
    i ← ToString (or_else (prop d "incarnation") (Str "N/A"));
    Ok (Str (a +:+ " (" +:+ i +:+ ")"))
  else Ok (prop d "actor").

Definition formatCompanion (c : value) (includeChar : bool) : result value :=
  if negb (truthy (get_opt c "actor")) then Ok (Str "N/A")
  else if includeChar then
    a ← ToString (prop c "actor");
    i ← ToString (or_else (prop c "character") (Str "N/A"));
    Ok (Str (a +:+ " (" +:+ i +:+ ")"))
  else Ok (prop c "actor").

(** ** Date normalisation (script.js, 378-388) *)

(** [/^\d{4}$/.test(v)]: the argument is converted to a string first. *)
Definition is_year (s : string) : bool :=
  (String.length s =? 4)%nat && all_digits s.

(** [v.includes('/')]: a method of strings and of arrays only. *)
Definition includes_slash (v : value) : result bool :=
  match v with
  | Str s => Ok (includes s (String slash EmptyString))
  | Arr l => Ok (existsb (fun x => match x with
                                   | Str t => (t =? String slash EmptyString)%string
                                   | _ => false
                                   end) l)
  | _ => Throw (TypeError "includes is not a function")
  end.

(** [v.split('/')]: a method of strings only; the parts are strings. *)
Definition split_slash (v : value) : result (list value) :=
  match v with
  | Str s => Ok (Str <$> split slash s)
  | _ => Throw (TypeError "split is not a function")
  end.

Definition normalizeDate (h : Host) (dateStr : value) : result (option date) :=
  if negb (truthy dateStr) then Ok None
  else
    text ← ToString dateStr;
    if is_year text then
      y ← ToNumber dateStr;
      Ok (Some (Date_ymd h y (Fin 0) (Fin 1)))
    else
      has ← includes_slash dateStr;
      if (has : bool) then
        parts ← split_slash dateStr;
        let d := nth 0 parts Undefined in
        let m := nth 1 parts Undefined in
        let y := nth 2 parts Undefined in
        mn ← ToNumber m;
        yn ← ToNumber y;
        dn ← ToNumber d;
        Ok (Some (Date_ymd h yn (minus mn 1) dn))
      else
        dt ← Date_of h dateStr;
        Ok (if isNaN (getTime dt) then None else Some dt).

(** ** CSV escaping (script.js, 365-371) *)

Definition csv_special (c : ascii) : bool :=
  Ascii.eqb c quote || Ascii.eqb c comma || Ascii.eqb c newline.

Definition escapeCSV (v : value) : result string :=
  stringValue ← ToString (coalesce v (Str ""));
  if contains_char csv_special stringValue then
    Ok (String quote (replace_char quote (String quote (String quote EmptyString)) stringValue)
        +:+ String quote EmptyString)
  else Ok stringValue.

(** ** Sort keys (script.js, 348-356) *)

Definition getSortValue (h : Host) (ep : value) (field : string) : result value :=
  if (field =? "doctor")%string then
    d ← get ep "doctor";
    f ← formatDoctor d false;
    s ← toLowerCase f;
    Ok (Str s)
  else if (field =? "companion")%string then
    c ← get ep "companion";
    f ← formatCompanion c false;
    s ← toLowerCase f;
    Ok (Str s)
  else if (field =? "cast_count")%string then
    c ← get ep "cast";
    Ok (or_else (get_opt c "length") (Num (Fin 0)))
  else if (field =? "broadcast_date")%string then
    b ← get ep "broadcast_date";
    d ← normalizeDate h b;
    Ok (or_else (match d with Some dt => Num (getTime dt) | None => Undefined end)
                (Num (Fin 0)))
  else
    v ← get ep field;
    s ← toString_method (or_else v (Str ""));
    Ok (Str (lower s)).

(** ** Loops that may throw *)

(** [l.forEach(f)] where [f] updates the enclosing state [St]: the first
    exception ends the loop. *)
Fixpoint foldM {A St : Type} (f : St -> A -> result St) (s : St) (l : list A) : result St :=
  match l with
  | [] => Ok s
  | x :: r => s' ← f s x; foldM f s' r
  end.

(** The same with the index of the element, counted from [i]. *)
Fixpoint forEach_from {A St : Type} (i : nat) (f : St -> A -> nat -> result St)
    (s : St) (l : list A) : result St :=
  match l with
  | [] => Ok s
  | x :: r => s' ← f s x i; forEach_from (S i) f s' r
  end.

(** [l.filter(p)]. *)
Fixpoint filterM {A : Type} (p : A -> result bool) (l : list A) : result (list A) :=
  match l with
  | [] => Ok []
  | x :: r =>
      b ← p x;
      r' ← filterM p r;
      Ok (if (b : bool) then x :: r' else r')
  end.

(** ** Validation (script.js, 141-178) *)

(** The two locals the callback of [validateData] mutates. *)
Record vstate := { warnings : list string; seenRanks : gset Z }.

Definition push (w : string) (s : vstate) : vstate :=
  {| warnings := (warnings s ++ [w])%list; seenRanks := seenRanks s |}.

Definition add_rank (r : Z) (s : vstate) : vstate :=
  {| warnings := warnings s; seenRanks := {[ r ]} ∪ seenRanks s |}.

Definition requiredFields : list string := ["rank"; "title"; "era"; "broadcast_date"].

Definition dq : string := String quote EmptyString.

(** The label of an episode in the messages.  The closing parenthesis sits
    outside the substitution in the source, so a titled episode gets one
    too. *)
Definition episode_id (episode : value) (index : nat) : result string :=
  title ← get episode "title";
  t ← ToString (or_else title (Str ("(Untitled at index " +:+ pretty (Z.of_nat index))));
  Ok ("Episode " +:+ dq +:+ t +:+ ")" +:+ dq).

Definition missing_msg (id field : string) : string :=
  "Validation Error: " +:+ id +:+ " is missing required field '" +:+ field +:+ "'.".
Definition future_msg (id : string) : string :=
  "Validation Error: " +:+ id +:+ " has a future broadcast date.".
Definition invalid_rank_msg (id : string) : string :=
  "Validation Error: " +:+ id +:+ " has an invalid (non-numeric) rank.".
Definition duplicate_rank_msg (rank : number) (id : string) : string :=
  "Validation Error: Duplicate rank '" +:+ number_to_string rank +:+ "' found on " +:+ id +:+ ".".
Definition negative_series_msg (id : string) : string :=
  "Validation Error: " +:+ id +:+ " has a negative series number.".

(** [episode[field] == null || episode[field] === ''] *)
Definition is_missing (v : value) : bool :=
  nullish v || match v with Str s => (s =? "")%string | _ => false end.

Definition check_required (id : string) (episode : value) (s : vstate) (field : string)
  : result vstate :=
  v ← get episode field;
  Ok (if is_missing v then push (missing_msg id field) s else s).

Definition check_rank (id : string) (rank : value) (s : vstate) : vstate :=
  match rank with
  | Num (Fin r) =>
      if bool_decide (r ∈ seenRanks s) then push (duplicate_rank_msg (Fin r) id) s
      else add_rank r s
  | _ => push (invalid_rank_msg id) s
  end.

Definition check_series (id : string) (series : value) (s : vstate) : vstate :=
  match series with
  | Num n => if number_ltb n (Fin 0) then push (negative_series_msg id) s else s
  | _ => s
  end.

Definition validateEpisode (h : Host) (s : vstate) (episode : value) (index : nat)
  : result vstate :=
  id ← episode_id episode index;
  s1 ← foldM (check_required id episode) s requiredFields;
  b ← get episode "broadcast_date";
  date ← normalizeDate h b;
  let s2 := match date with
            | Some d => if date_gt d (clock h) then push (future_msg id) s1 else s1
            | None => s1
            end in
  rank ← get episode "rank";
  let s3 := check_rank id rank s2 in
  series ← get episode "series";
  Ok (check_series id series s3).

Definition validateData (h : Host) (episodes : list value) : result (list string) :=
  s ← forEach_from 0 (validateEpisode h) {| warnings := []; seenRanks := ∅ |} episodes;
  Ok (warnings s).

(** ** Application state (script.js, 37-48) *)

Record sort_state := { field : string; ascending : bool }.

Record filters_state := { name : string }.

Record state := {
  episodes : list value;
  filtered : list value;
  sort : sort_state;
  filters : filters_state;
  focusedRowIndex : Z
}.

Definition initial_state : state :=
  {| episodes := []; filtered := [];
     sort := {| field := "rank"; ascending := true |};
     filters := {| name := "" |};
     focusedRowIndex := -1 |}.

Definition set_focus (i : Z) (s : state) : state :=
  {| episodes := episodes s; filtered := filtered s; sort := sort s;
     filters := filters s; focusedRowIndex := i |}.

Definition set_filtered (l : list value) (s : state) : state :=
  {| episodes := episodes s; filtered := l; sort := sort s;
     filters := filters s; focusedRowIndex := focusedRowIndex s |}.

Definition set_sort (o : sort_state) (s : state) : state :=
  {| episodes := episodes s; filtered := filtered s; sort := o;
     filters := filters s; focusedRowIndex := focusedRowIndex s |}.

Definition set_filter_name (t : string) (s : state) : state :=
  {| episodes := episodes s; filtered := filtered s; sort := sort s;
     filters := {| name := t |}; focusedRowIndex := focusedRowIndex s |}.

Definition set_episodes (l : list value) (s : state) : state :=
  {| episodes := l; filtered := filtered s; sort := sort s;
     filters := filters s; focusedRowIndex := focusedRowIndex s |}.

(** ** The view engine (script.js, 185-210) *)

(** The callback given to [filter]. *)
Definition matchesFilter (filterText : string) (ep : value) : result bool :=
  t ← get ep "title";
  title ← toLowerCase_or_empty t;
  d ← get ep "doctor";
  fd ← formatDoctor d false;
  doctor ← toLowerCase fd;
  c ← get ep "companion";
  fc ← formatCompanion c false;
  companion ← toLowerCase fc;
  w ← get ep "writer";
  writer ← toLowerCase_or_empty w;
  r ← get ep "director";
  director ← toLowerCase_or_empty r;
  Ok (includes title filterText || includes doctor filterText
      || includes companion filterText || includes writer filterText
      || includes director filterText).

(** The comparator given to [sort]; [direction] is 1 or -1. *)
Definition compareEpisodes (h : Host) (fld : string) (direction : Z) (a b : value)
  : result Z :=
  valA ← getSortValue h a fld;
  valB ← getSortValue h b fld;
  less ← lt valA valB;
  if (less : bool) then Ok (-1 * direction)
  else
    greater ← gt valA valB;
    Ok ((if (greater : bool) then 1 else 0) * direction).

(** [Array.prototype.sort] with a comparator.  ECMAScript (2019 on) requires
    the sort to be stable; the model is the stable insertion of each
    element, read right to left, before the first element it does not
    exceed.  The arrays sorted here hold no [undefined].  Where the
    comparator is consistent (a total preorder, as the comparator of the
    view is on records whose keys are of one kind) every stable sort
    returns this very array ([stable_sorted_unique]).  For a comparator
    that is not, ECMAScript leaves the order to the engine: there the
    model is one admissible order, and only what holds of every order
    (the elements, their number) is read off it. *)
Fixpoint sort_insert (cmp : value -> value -> result Z) (x : value) (l : list value)
  : result (list value) :=
  match l with
  | [] => Ok [x]
  | y :: r =>
      c ← cmp x y;
      if c <=? 0 then Ok (x :: y :: r)
      else r' ← sort_insert cmp x r; Ok (y :: r')
  end.

Fixpoint array_sort (cmp : value -> value -> result Z) (l : list value)
  : result (list value) :=
  match l with
  | [] => Ok []
  | x :: r => r' ← array_sort cmp r; sort_insert cmp x r'
  end.

(** The filter and sort pipeline on its inputs alone. *)
Definition view (h : Host) (eps : list value) (filterText : string) (o : sort_state)
  : result (list value) :=
  processedData ← filterM (matchesFilter filterText) eps;
  let direction := if ascending o then 1 else -1 in
  array_sort (compareEpisodes h (field o) direction) processedData.

Section Presentation.

(** [displayEpisodes] writes the table into the document; of it the model
    keeps whether it completes.  It does not touch the state. *)
Variable displayEpisodes : list value -> result unit.
Variable h : Host.

(** The state after the call, and how the call ended. *)
Definition applyFiltersAndSort (s : state) : state * result unit :=
  let s := set_focus (-1) s in
  let filterText := lower (name (filters s)) in
  match view h (episodes s) filterText (sort s) with
  | Throw e => (s, Throw e)
  | Ok processedData =>
      let s := set_filtered processedData s in
      (s, displayEpisodes (filtered s))
  end.

(** *** Event listeners (script.js, 64-92 and 216-236) *)

(** An exception that leaves a listener is reported by the browser and
    goes no further: the state it left behind stays. *)
Definition on_filter_input (text : string) (s : state) : state :=
  fst (applyFiltersAndSort (set_filter_name text s)).

Definition toggle_sort (fld : string) (o : sort_state) : sort_state :=
  if (field o =? fld)%string
  then {| field := field o; ascending := negb (ascending o) |}
  else {| field := fld; ascending := true |}.

Definition on_header_click (fld : string) (s : state) : state :=
  fst (applyFiltersAndSort (set_sort (toggle_sort fld (sort s)) s)).

(** A key event: the key, and the sort field of the focused element when
    that element is a header cell with a click listener. *)
Record key_event := { key : string; active_header : option string }.

Definition move_focus (direction : Z) (s : state) : state :=
  let numRows := Z.of_nat (length (filtered s)) in
  if numRows =? 0 then s
  else
    let newIndex := focusedRowIndex s + direction in
    set_focus (Z.max 0 (Z.min (numRows - 1) newIndex)) s.

Definition handleKeyboardNavigation (e : key_event) (s : state) : state :=
  let s := if (key e =? "Enter")%string
           then match active_header e with
                | Some fld => on_header_click fld s
                | None => s
                end
           else s in
  if ((key e =? "ArrowDown") || (key e =? "ArrowUp"))%string
  then move_focus (if (key e =? "ArrowDown")%string then 1 else -1) s
  else s.

(** The click listener of the row rendered at [index]. *)
Definition on_row_click (index : nat) (s : state) : state :=
  set_focus (Z.of_nat index) s.

(** What the user can do.  A row listener exists only for a row that
    [displayEpisodes] rendered, one per element of [state.filtered]. *)
Inductive event :=
| FilterInput (text : string)
| HeaderClick (fld : string)
| KeyDown (e : key_event)
| RowClick (index : nat).

Inductive step : state -> event -> state -> Prop :=
| step_filter s text : step s (FilterInput text) (on_filter_input text s)
| step_header s fld : step s (HeaderClick fld) (on_header_click fld s)
| step_key s e : step s (KeyDown e) (handleKeyboardNavigation e s)
| step_row s index :
    (index < length (filtered s))%nat ->
    step s (RowClick index) (on_row_click index s).

(** ** Loading (script.js, 16-29 and 100-134) *)

Definition DATA_URLS : list string :=
  [ "https://raw.githubusercontent.com/sweko/internet-programming-adefinater/refs/heads/preparation/data/doctor-who-episodes-01-10.json";
    "https://raw.githubusercontent.com/sweko/internet-programming-adefinater/refs/heads/preparation/data/doctor-who-episodes-11-20.json";
    "https://raw.githubusercontent.com/sweko/internet-programming-adefinater/refs/heads/preparation/data/doctor-who-episodes-21-30.json";
    "https://raw.githubusercontent.com/sweko/internet-programming-adefinater/refs/heads/preparation/data/doctor-who-episodes-31-40.json";
    "https://raw.githubusercontent.com/sweko/internet-programming-adefinater/refs/heads/preparation/data/doctor-who-episodes-41-50.json";
    "https://raw.githubusercontent.com/sweko/internet-programming-adefinater/refs/heads/preparation/data/doctor-who-episodes-51-65.json" ].

(** A response as the script reads it; [json] is what [res.json()]
    settles to. *)
Record response := {
  ok : bool;
  url : string;
  statusText : string;
  json : result value
}.

(** What a [fetch] promise settles to. *)
Inductive fetched := Rejected (e : exn) | Resolved (r : response).

(** The parts of the document the loader writes, the console, and the
    responses whose body has been handed to the JSON parser. *)
Record page := {
  loading_display : string;
  table_display : string;
  error_display : string;
  error_text : string;
  warnings_display : string;
  warnings_text : string;
  console : list string;
  json_calls : list response
}.

Record world := { app : state; dom : page }.

Definition showLoading (isLoading : bool) (p : page) : page :=
  {| loading_display := if isLoading then "block" else "none";
     table_display := if isLoading then "none" else "table";
     error_display := if isLoading then "none" else error_display p;
     error_text := error_text p;
     warnings_display := warnings_display p;
     warnings_text := warnings_text p;
     console := console p;
     json_calls := json_calls p |}.

Definition userMessage : string :=
  "Error: Could not load episodes. Please check your network connection and try again.".

Definition showError (details : string) (p : page) : page :=
  {| loading_display := "none";
     table_display := "none";
     error_display := "block";
     error_text := userMessage +:+ String newline "Details: " +:+ details;
     warnings_display := warnings_display p;
     warnings_text := warnings_text p;
     console := console p;
     json_calls := json_calls p |}.

Definition show_warnings (ws : list string) (p : page) : page :=
  {| loading_display := loading_display p;
     table_display := table_display p;
     error_display := error_display p;
     error_text := error_text p;
     warnings_display := "block";
     warnings_text := "Found " +:+ pretty (Z.of_nat (length ws))
                      +:+ " data quality warning(s). See console for details.";
     console := (console p ++ ws)%list;
     json_calls := json_calls p |}.

Definition log_json (rs : list response) (p : page) : page :=
  {| loading_display := loading_display p;
     table_display := table_display p;
     error_display := error_display p;
     error_text := error_text p;
     warnings_display := warnings_display p;
     warnings_text := warnings_text p;
     console := console p;
     json_calls := (json_calls p ++ rs)%list |}.

(** [await Promise.all(promises)] on settled fetches: the responses, or
    the reason of a rejected one (the first of the list stands for the
    first in time). *)
Fixpoint all_responses (l : list fetched) : result (list response) :=
  match l with
  | [] => Ok []
  | Rejected e :: _ => Throw e
  | Resolved r :: rest => rs ← all_responses rest; Ok (r :: rs)
  end.

Definition fetch_failure (r : response) : exn :=
  Error ("Network fetch failure from " +:+ url r +:+ " (" +:+ statusText r +:+ ")").

(** The loop over the responses. *)
Fixpoint check_responses (rs : list response) : result unit :=
  match rs with
  | [] => Ok ()
  | r :: rest => if ok r then check_responses rest else Throw (fetch_failure r)
  end.

(** [await Promise.all(responses.map(res => res.json()))] once every
    [json()] call has been made. *)
Fixpoint all_json (rs : list response) : result (list value) :=
  match rs with
  | [] => Ok []
  | r :: rest => v ← json r; vs ← all_json rest; Ok (v :: vs)
  end.

(** [jsonDataArray.flatMap(data => data.episodes)]: an array is spliced
    in, any other value is kept as one element. *)
Fixpoint flat_episodes (l : list value) : result (list value) :=
  match l with
  | [] => Ok []
  | data :: rest =>
      e ← get data "episodes";
      es ← flat_episodes rest;
      Ok ((match e with Arr xs => xs | _ => [e] end) ++ es)%list
  end.

(** The [try] block; [fetch] gives what each request settles to. *)
Definition load_try (fetch : string -> fetched) (w : world) : world * result unit :=
  let w := {| app := app w; dom := showLoading true (dom w) |} in
  match all_responses (fetch <$> DATA_URLS) with
  | Throw e => (w, Throw e)
  | Ok responses =>
  match check_responses responses with
  | Throw e => (w, Throw e)
  | Ok _ =>
  let w := {| app := app w; dom := log_json responses (dom w) |} in
  match all_json responses with
  | Throw e => (w, Throw e)
  | Ok jsonDataArray =>
  match flat_episodes jsonDataArray with
  | Throw e => (w, Throw e)
  | Ok allEpisodes =>
  match validateData h allEpisodes with
  | Throw e => (w, Throw e)
  | Ok ws =>
      let w := if (0 <? length ws)%nat
               then {| app := app w; dom := show_warnings ws (dom w) |}
               else w in
      let (s, r) := applyFiltersAndSort (set_episodes allEpisodes (app w)) in
      ({| app := s; dom := dom w |}, r)
  end end end end end.

Definition loadEpisodes (fetch : string -> fetched) (w : world) : world :=
  let (w, r) := load_try fetch w in
  let w := match r with
           | Throw error => {| app := app w; dom := showError (message error) (dom w) |}
           | Ok _ => w
           end in
  {| app := app w; dom := showLoading false (dom w) |}.

(** The states the application can be in: the listeners run between the
    awaits of the loader as well, but the loader writes the state only
    in its last, synchronous stretch. *)
Inductive reachable : state -> Prop :=
| reach_init : reachable initial_state
| reach_load s fetch p :
    reachable s -> reachable (app (loadEpisodes fetch {| app := s; dom := p |}))
| reach_step s e s' : reachable s -> step s e s' -> reachable s'.

End Presentation.

(** ** Records of the data model *)

Definition text_or_absent (v : value) : bool :=
  match v with Str _ | Undefined | Null => true | _ => false end.

Definition list_or_absent (v : value) : bool :=
  match v with Arr _ | Undefined | Null => true | _ => false end.

(** An episode record as section 3 of the specification types it: an
    object whose text fields are strings, whose [doctor] and [companion]
    carry a string [actor] and whose [cast] is a sequence, each possibly
    absent ([undefined] or [null]).  [rank], [series] and [era] are left
    free: the validator is there to judge them. *)
Definition record_ok (ep : value) : bool :=
  match ep with
  | Obj _ =>
      text_or_absent (prop ep "title")
      && text_or_absent (prop ep "writer")
      && text_or_absent (prop ep "director")
      && text_or_absent (prop ep "broadcast_date")
      && text_or_absent (get_opt (prop ep "doctor") "actor")
      && text_or_absent (get_opt (prop ep "companion") "actor")
      && list_or_absent (prop ep "cast")
  | _ => false
  end.

(** A value that is neither an array nor an object. *)
Definition primitive (v : value) : bool :=
  match v with Arr _ | Obj _ => false | _ => true end.

(** The names every object inherits: reading one of them from a parsed
    record yields a built-in member, which is no datum of the model. *)
Definition inherited_key (k : string) : bool :=
  bool_decide (k ∈ [ "constructor"; "__proto__"; "toString"; "toLocaleString";
                     "valueOf"; "hasOwnProperty"; "isPrototypeOf";
                     "propertyIsEnumerable"; "__defineGetter__";
                     "__defineSetter__"; "__lookupGetter__"; "__lookupSetter__" ]).

(** ** The filter on texts *)

(** The text of a field, empty when the field is absent. *)
Definition text_or_empty (v : value) : string :=
  match v with Str s => s | _ => "" end.

(** The actor-only form of [formatDoctor] and [formatCompanion] on a record
    of the data model. *)
Definition actor_only (d : value) : string :=
  match get_opt d "actor" with
  | Str s => if (s =? "")%string then "N/A" else s
  | _ => "N/A"
  end.

(** The five texts the filter looks into, in the order of the code. *)
Definition filter_texts (ep : value) : list string :=
  [ text_or_empty (prop ep "title"); actor_only (prop ep "doctor");
    actor_only (prop ep "companion"); text_or_empty (prop ep "writer");
    text_or_empty (prop ep "director") ].

(** The filter as the code applies it, on texts. *)
Definition text_match (filterText : string) (ep : value) : bool :=
  includes (lower (text_or_empty (prop ep "title"))) filterText
  || includes (lower (actor_only (prop ep "doctor"))) filterText
  || includes (lower (actor_only (prop ep "companion"))) filterText
  || includes (lower (text_or_empty (prop ep "writer"))) filterText
  || includes (lower (text_or_empty (prop ep "director"))) filterText.

(** The filter in the words of the specification: every one of the five
    texts, the two formatted ones included, is empty when its field is
    absent.  The texts are case-folded like the filter text, which is the
    reading that favours the specification. *)
Definition spec_actor_text (d : value) : string :=
  text_or_empty (get_opt d "actor").

Definition spec_visible (filterText : string) (ep : value) : bool :=
  includes (lower (text_or_empty (prop ep "title"))) filterText
  || includes (lower (spec_actor_text (prop ep "doctor"))) filterText
  || includes (lower (spec_actor_text (prop ep "companion"))) filterText
  || includes (lower (text_or_empty (prop ep "writer"))) filterText
  || includes (lower (text_or_empty (prop ep "director"))) filterText.

(** ** Sort keys and their order *)

(** The fields with a sort key of their own. *)
Definition special_fields : list string :=
  ["doctor"; "companion"; "cast_count"; "broadcast_date"].

(** The length of the cast, 0 when there is none. *)
Definition cast_count (ep : value) : Z :=
  match prop ep "cast" with Arr l => Z.of_nat (length l) | _ => 0 end.

(** The epoch value of a normalised date, 0 when there is none. *)
Definition epoch_or_zero (d : option date) : number :=
  match d with
  | Some dt => match getTime dt with NaN => Fin 0 | t => t end
  | None => Fin 0
  end.

(** The sort key of the remaining fields in the words of the
    specification: the raw value as a case-folded string, empty exactly
    when the field is absent. *)
Definition spec_other_key (ep : value) (fld : string) : result value :=
  let v := prop ep fld in
  if nullish v then Ok (Str "")
  else s ← ToString v; Ok (Str (lower s)).

(** The three-way comparison of two keys: -1, 0 or 1. *)
Definition three_way (a b : value) : result Z :=
  less ← lt a b;
  if (less : bool) then Ok (-1)
  else greater ← gt a b; Ok (if (greater : bool) then 1 else 0).

(** The two kinds of key: texts and finite numbers. *)
Definition text_key (v : value) : bool :=
  match v with Str _ => true | _ => false end.
Definition finite_key (v : value) : bool :=
  match v with Num (Fin _) => true | _ => false end.

(** The kind of key a field has on records of the data model. *)
Definition key_kind (fld : string) : value -> bool :=
  if bool_decide (fld = "cast_count" \/ fld = "broadcast_date")
  then finite_key else text_key.

(** Equality of two keys of one kind. *)
Definition key_eqb (a b : value) : bool :=
  match a, b with
  | Str x, Str y => (x =? y)%string
  | Num x, Num y => number_eqb x y
  | _, _ => false
  end.

(** Non-strict order of two keys of one kind. *)
Definition key_leb (a b : value) : bool :=
  match a, b with
  | Str x, Str y => String.leb x y
  | Num (Fin x), Num (Fin y) => x <=? y
  | _, _ => false
  end.

(** [ep] has the key [k] under the field [fld]. *)
Definition has_key (h : Host) (fld : string) (k : value) (ep : value) : bool :=
  match getSortValue h ep fld with
  | Ok k' => key_eqb k k'
  | Throw _ => false
  end.

(** A record whose key under [fld] is a text or a number, as every key of
    a record of the data model is. *)
Definition sortable (h : Host) (fld : string) (ep : value) : Prop :=
  exists k, getSortValue h ep fld = Ok k /\ (text_key k || finite_key k) = true.

(** [a] comes no later than [b] in ascending order of the key. *)
Definition key_le (h : Host) (fld : string) (a b : value) : Prop :=
  exists ka kb, getSortValue h a fld = Ok ka /\ getSortValue h b fld = Ok kb
                /\ key_leb ka kb = true.

(** [a] occurs before [b] in [l]. *)
Definition precedes (a b : value) (l : list value) : Prop :=
  exists l1 l2 l3, l = (l1 ++ a :: l2 ++ b :: l3)%list.

(** ** Reading a CSV field back (RFC 4180) *)

(** The inside of a quoted field: a quote is either doubled, standing for
    one quote, or the closing one, which ends the field. *)
Fixpoint unquote (s : string) : option string :=
  match s with
  | EmptyString => None
  | String c r =>
      if Ascii.eqb c quote then
        match r with
        | EmptyString => Some EmptyString
        | String c' r' =>
            if Ascii.eqb c' quote then String quote <$> unquote r' else None
        end
      else String c <$> unquote r
  end.

(** A field is either quoted or bare; a bare field holds no quote, comma
    or newline. *)
Definition unescapeCSV (s : string) : option string :=
  match s with
  | String c r =>
      if Ascii.eqb c quote then unquote r
      else if contains_char csv_special s then None else Some s
  | EmptyString => Some EmptyString
  end.

(** A text between quotes, its own quotes doubled. *)
Definition csv_quoted (s : string) : string :=
  String quote (replace_char quote (String quote (String quote EmptyString)) s)
  +:+ String quote EmptyString.

(** ** The validator rule by rule *)

Definition rule_missing (id : string) (ep : value) : list string :=
  flat_map (fun f => if is_missing (prop ep f) then [missing_msg id f] else [])
           requiredFields.

Definition rule_future (h : Host) (id : string) (ep : value) : list string :=
  match normalizeDate h (prop ep "broadcast_date") with
  | Ok (Some d) => if date_gt d (clock h) then [future_msg id] else []
  | _ => []
  end.

(** The finite rank of a record, if it has one. *)
Definition finite_rank (ep : value) : option Z :=
  match prop ep "rank" with Num (Fin r) => Some r | _ => None end.

(** [earlier] are the records before [ep] in the pass. *)
Definition rule_rank (id : string) (earlier : list value) (ep : value) : list string :=
  match finite_rank ep with
  | Some r =>
      if bool_decide (Some r ∈ finite_rank <$> earlier)
      then [duplicate_rank_msg (Fin r) id] else []
  | None => [invalid_rank_msg id]
  end.

Definition rule_series (id : string) (ep : value) : list string :=
  match prop ep "series" with
  | Num n => if number_ltb n (Fin 0) then [negative_series_msg id] else []
  | _ => []
  end.

(** The warnings of the record at [index], in rule order. *)
Definition record_warnings (h : Host) (earlier : list value) (index : nat) (ep : value)
  : list string :=
  match episode_id ep index with
  | Ok id => (rule_missing id ep ++ rule_future h id ep
              ++ rule_rank id earlier ep ++ rule_series id ep)%list
  | Throw _ => []
  end.

(** A duplicate-rank warning, told from the others by how it begins. *)
Definition is_duplicate_warning (w : string) : bool :=
  String.prefix "Validation Error: Duplicate rank '" w.

(** What the loop of [validateData] keeps true: the set holds the finite
    ranks of the records seen so far. *)
Definition seen_ranks_of (s : vstate) (earlier : list value) : Prop :=
  forall r, r ∈ seenRanks s <-> Some r ∈ finite_rank <$> earlier.

(** The records a pass goes through without an exception. *)
Definition passable (h : Host) (i : nat) (ep : value) : Prop :=
  nullish ep = false
  /\ (exists id, episode_id ep i = Ok id)
  /\ exists d, normalizeDate h (prop ep "broadcast_date") = Ok d.

(** ** The focus index *)

(** The focus index points into the visible sequence, or is -1. *)
Definition focus_in_range (s : state) : Prop :=
  -1 <= focusedRowIndex s <= Z.of_nat (length (filtered s)) - 1.

(** An arrow key, pressed while no header has the focus. *)
Definition arrow (k : string) : key_event := {| key := k; active_header := None |}.

(** ** The year of a date (script.js, 417-420) *)

(** The time zone in the other direction: [local_time] turns a UTC time
    value into local time, as [getFullYear] needs it. *)
Record Zone := { local_time : Z -> Z }.

(** [DayFromYear] of ECMAScript: the day number of 1 January of [y]. *)
Definition DayFromYear (y : Z) : Z :=
  365 * (y - 1970) + (y - 1969) / 4 - (y - 1901) / 100 + (y - 1601) / 400.

(** The largest year that starts on or before [day]: the year next to
    the estimate from the mean length of a year. *)
Definition YearFromDay (day : Z) : Z :=
  let g := 1970 + day * 400 / 146097 in
  if DayFromYear (g + 1) <=? day then g + 1
  else if DayFromYear g <=? day then g
  else g - 1.

(** [YearFromTime]. *)
Definition YearFromTime (t : Z) : Z := YearFromDay (t / msPerDay).

(** [d.getFullYear()]: NaN on an invalid date. *)
Definition getFullYear (z : Zone) (d : date) : number :=
  match getTime d with
  | Fin t => Fin (YearFromTime (local_time z t))
  | _ => NaN
  end.

(** A [Date] object is truthy, an invalid one too. *)
Definition getYear (h : Host) (z : Zone) (dateStr : value) : result value :=
  date ← normalizeDate h dateStr;
  Ok (match date with
      | Some d => Num (getFullYear z d)
      | None => Str "N/A"
      end).

(** ** CSV export (script.js, 241-268) *)

(** [l.map(f)]: the first exception ends the loop. *)
Fixpoint mapM {A B : Type} (f : A -> result B) (l : list A) : result (list B) :=
  match l with
  | [] => Ok []
  | x :: r => y ← f x; ys ← mapM f r; Ok (y :: ys)
  end.

(** [l.join(sep)] on an array of strings. *)
Fixpoint join (sep : string) (l : list string) : string :=
  match l with
  | [] => EmptyString
  | x :: r =>
      match r with
      | [] => x
      | _ => x +:+ sep +:+ join sep r
      end
  end.

Definition csv_headers : list string :=
  [ "Rank"; "Title"; "Series"; "Era"; "Year"; "Director"; "Writer"; "Doctor";
    "Companion"; "Cast Count" ].

(** The array built for one episode. *)
Definition export_row (h : Host) (z : Zone) (ep : value) : result (list value) :=
  rank ← get ep "rank";
  title ← get ep "title";
  series ← get ep "series";
  era ← get ep "era";
  b ← get ep "broadcast_date";
  year ← getYear h z b;
  director ← get ep "director";
  writer ← get ep "writer";
  d ← get ep "doctor";
  doctor ← formatDoctor d true;
  c ← get ep "companion";
  companion ← formatCompanion c true;
  cast ← get ep "cast";
  Ok [ rank; title; series; era; year; director; writer; doctor; companion;
       or_else (get_opt cast "length") (Num (Fin 0)) ].

(** [row.map(escapeCSV).join(',')]. *)
Definition csv_line (row : list value) : result string :=
  cells ← mapM escapeCSV row;
  Ok (join (String comma EmptyString) cells).

Definition csvContent (h : Host) (z : Zone) (eps : list value) : result string :=
  dataRows ← mapM (export_row h z) eps;
  head ← csv_line (Str <$> csv_headers);
  lines ← mapM csv_line dataRows;
  Ok (join (String newline EmptyString) (head :: lines)).

(** What the link hands to the browser. *)
Record download := { file_name : string; mime_type : string; content : string }.

Definition exportToCSV (h : Host) (z : Zone) (s : state) : result download :=
  c ← csvContent h z (filtered s);
  Ok {| file_name := "doctor_who_episodes.csv";
        mime_type := "text/csv;charset=utf-8;";
        content := c |}.

(** ** The table (script.js, 276-311) *)

(** The text of a cell: [cell.textContent = text ?? 'N/A']. *)
Definition createCell (text : value) : result string :=
  ToString (coalesce text (Str "N/A")).

(** The cells of the row of one episode, created one after the other. *)
Definition display_row (h : Host) (z : Zone) (episode : value) : result (list string) :=
  rank ← get episode "rank";
  c1 ← createCell rank;
  title ← get episode "title";
  c2 ← createCell title;
  series ← get episode "series";
  c3 ← createCell series;
  era ← get episode "era";
  c4 ← createCell era;
  b ← get episode "broadcast_date";
  year ← getYear h z b;
  c5 ← createCell year;
  director ← get episode "director";
  c6 ← createCell director;
  writer ← get episode "writer";
  c7 ← createCell writer;
  d ← get episode "doctor";
  doctor ← formatDoctor d true;
  c8 ← createCell doctor;
  c ← get episode "companion";
  companion ← formatCompanion c true;
  c9 ← createCell companion;
  cast ← get episode "cast";
  c10 ← createCell (or_else (get_opt cast "length") (Num (Fin 0)));
  Ok [c1; c2; c3; c4; c5; c6; c7; c8; c9; c10].

(** The body of the table once every row has been written. *)
Definition table_rows (h : Host) (z : Zone) (episodes : list value)
  : result (list (list string)) :=
  mapM (display_row h z) episodes.

(** [displayEpisodes] as the view engine sees it: whether it completes. *)
Definition displayEpisodes (h : Host) (z : Zone) (episodes : list value) : result unit :=
  _ ← table_rows h z episodes; Ok ().

(** ** Reading a CSV file back (RFC 4180) *)

(** Where the reader is: at the start of a field, inside a bare field,
    inside a quoted field, or just after a quote met inside a quoted
    field. *)
Inductive csv_mode := FieldStart | Bare | Quoted | QuoteSeen.

(** The reader keeps the field, the row and the rows read so far.  A
    newline separates two rows and a comma two fields; a quote opens a
    field only at its start; inside a quoted field a doubled quote is
    one quote and a single one closes the field. *)
Fixpoint read_csv (m : csv_mode) (cur : string) (row : list string)
    (rows : list (list string)) (s : string) : option (list (list string)) :=
  match s with
  | EmptyString =>
      match m with
      | Quoted => None
      | _ => Some (rows ++ [row ++ [cur]])%list
      end
  | String c r =>
      match m with
      | Quoted =>
          if Ascii.eqb c quote then read_csv QuoteSeen cur row rows r
          else read_csv Quoted (cur +:+ String c EmptyString) row rows r
      | _ =>
          if Ascii.eqb c quote then
            match m with
            | FieldStart => read_csv Quoted EmptyString row rows r
            | QuoteSeen => read_csv Quoted (cur +:+ String quote EmptyString) row rows r
            | _ => None
            end
          else if Ascii.eqb c comma then
            read_csv FieldStart EmptyString (row ++ [cur])%list rows r
          else if Ascii.eqb c newline then
            read_csv FieldStart EmptyString [] (rows ++ [row ++ [cur]])%list r
          else
            match m with
            | QuoteSeen => None
            | _ => read_csv Bare (cur +:+ String c EmptyString) row rows r
            end
      end
  end.

Definition parse_csv (s : string) : option (list (list string)) :=
  read_csv FieldStart EmptyString [] [] s.

(** The text a value is written as in the file. *)
Definition csv_text (v : value) : result string := ToString (coalesce v (Str "")).

(** ** The calendar *)

Definition leap_year (y : Z) : bool :=
  (y mod 4 =? 0) && (negb (y mod 100 =? 0) || (y mod 400 =? 0)).

(** The length of month [m] (0 = January) of year [y]. *)
Definition days_in_month (y m : Z) : Z :=
  if m =? 1 then (if leap_year y then 29 else 28)
  else if (m =? 3) || (m =? 5) || (m =? 8) || (m =? 10) then 30
  else 31.

(** The part of a text at position [k] between its slashes, as
    [normalizeDate] reads it from the array of parts. *)
Definition slash_part (k : nat) (s : string) : value :=
  nth k (Str <$> split slash s) Undefined.

(** A part that is read as no number: a missing part, or a text whose
    first character after the white space can start no numeric literal
    (a digit, a sign, a point or the [I] of [Infinity]). *)
Definition not_numeric (v : value) : bool :=
  match v with
  | Undefined => true
  | Str t =>
      match trim_left t with
      | String c _ =>
          negb (is_digit c || Ascii.eqb c (ascii_of_N 43) || Ascii.eqb c (ascii_of_N 45)
                || Ascii.eqb c (ascii_of_N 46) || Ascii.eqb c (ascii_of_N 73))
      | EmptyString => false
      end
  | _ => false
  end.

(** ** The validator on a whole pass *)

(** The warnings of a pass over [eps], block by block. *)
Definition pass_warnings (h : Host) (eps : list value) : list string :=
  concat (imap (fun i ep => record_warnings h (take i eps) i ep) eps).

(** A record no rule objects to, [earlier] being the records before it. *)
Definition clean_record (h : Host) (earlier : list value) (ep : value) : bool :=
  forallb (fun f => negb (is_missing (prop ep f))) requiredFields
  && match normalizeDate h (prop ep "broadcast_date") with
     | Ok (Some d) => negb (date_gt d (clock h))
     | _ => true
     end
  && match finite_rank ep with
     | Some r => negb (bool_decide (Some r ∈ finite_rank <$> earlier))
     | None => false
     end
  && match prop ep "series" with
     | Num n => negb (number_ltb n (Fin 0))
     | _ => true
     end.

(** The values that have an [includes] method. *)
Definition has_includes (v : value) : bool :=
  match v with Str _ | Arr _ => true | _ => false end.

(** ** The order of the view *)

(** A record whose key under [fld] is of the kind the field has on
    records of the data model. *)
Definition keyed (h : Host) (fld : string) (ep : value) : Prop :=
  exists k, getSortValue h ep fld = Ok k /\ key_kind fld k = true.

(** The order the view is in: the keys ascend, or descend. *)
Definition view_le (h : Host) (o : sort_state) (a b : value) : Prop :=
  if ascending o then key_le h (field o) a b else key_le h (field o) b a.

(** The direction the comparator is given. *)
Definition direction_of (o : sort_state) : Z := if ascending o then 1 else -1.

(** A text as a field of the file: quoted when it holds a quote, a
    comma or a newline. *)
Definition csv_field (s : string) : string :=
  if contains_char csv_special s then csv_quoted s else s.

(** What may follow a field: the end of the file, a comma or a newline. *)
Definition at_separator (s : string) : bool :=
  match s with
  | EmptyString => true
  | String c _ => Ascii.eqb c comma || Ascii.eqb c newline
  end.

(** A record of the data model whose remaining fields are primitive
    values, so that every column can be written as a text. *)
Definition printable (ep : value) : bool :=
  record_ok ep
  && primitive (prop ep "rank") && primitive (prop ep "series")
  && primitive (prop ep "era")
  && primitive (get_opt (prop ep "doctor") "incarnation")
  && primitive (get_opt (prop ep "companion") "character").

(** ** The data of a load *)

(** What the loader obtains before it writes the state: the responses,
    the merged episodes and the warnings, or the first exception. *)
Definition load_data (h : Host) (fetch : string -> fetched)
  : result (list response * list value * list string) :=
  responses ← all_responses (fetch <$> DATA_URLS);
  _ ← check_responses responses;
  jsonDataArray ← all_json responses;
  allEpisodes ← flat_episodes jsonDataArray;
  ws ← validateData h allEpisodes;
  Ok (responses, allEpisodes, ws).

(** The banner text for [n] warnings. *)
Definition warnings_banner (n : nat) : string :=
  "Found " +:+ pretty (Z.of_nat n) +:+ " data quality warning(s). See console for details.".

(** ** Records the filter cannot read *)

(** A value that is there and is no text. *)
Definition not_text (v : value) : bool := negb (text_or_absent v).

(** A record one of whose five searched fields holds something that has
    no [toLowerCase]: a title, writer or director that is no text, or a
    truthy actor that is no text. *)
Definition unsearchable (ep : value) : bool :=
  negb (nullish ep)
  && (not_text (prop ep "title")
      || not_text (prop ep "writer")
      || not_text (prop ep "director")
      || truthy (get_opt (prop ep "doctor") "actor")
         && not_text (get_opt (prop ep "doctor") "actor")
      || truthy (get_opt (prop ep "companion") "actor")
         && not_text (get_opt (prop ep "companion") "actor")).

(** The year a four-digit text stands for. *)
Definition year_of_text (s : string) : Z :=
  let y := digits_value 0 s in if y <? 100 then 1900 + y else y.

(** ** A host and records to run the model on *)

Definition utc_host : Host :=
  {| utc := id; parse := fun _ => NaN; clock := 1700000000000 |}.

Definition display_ok : list value -> result unit := fun _ => Ok ().

Definition rose : value :=
  Obj [ ("rank", Num (Fin 5)); ("title", Str "Rose"); ("series", Num (Fin 1));
        ("era", Str "Modern"); ("broadcast_date", Str "2005");
        ("director", Str "Keith Boak"); ("writer", Str "Russell T Davies");
        ("doctor", Obj [("actor", Str "Christopher Eccleston"); ("incarnation", Str "Ninth Doctor")]);
        ("companion", Obj [("actor", Str "Billie Piper"); ("character", Str "Rose Tyler")]);
        ("cast", Arr [Obj [("actor", Str "Camille Coduri")]]) ].

Definition blink : value :=
  Obj [ ("rank", Num (Fin 5)); ("title", Str "Blink"); ("series", Num (Fin 3));
        ("era", Str "Modern"); ("broadcast_date", Str "09/06/2007");
        ("director", Str "Hettie MacDonald"); ("writer", Str "Steven Moffat");
        ("doctor", Obj [("actor", Str "David Tennant"); ("incarnation", Str "Tenth Doctor")]);
        ("cast", Arr []) ].

(** A record with a title only, and one whose rank is 0. *)
Definition untold : value := Obj [ ("title", Str "Rose") ].
Definition pilot : value := Obj [ ("rank", Num (Fin 0)); ("title", Str "Pilot") ].

(** A page before the load, and three networks: one that serves two
    records from the first source and empty lists from the others, one
    whose second source answers 404, and one that is down. *)
Definition initial_world : world :=
  {| app := initial_state;
     dom := {| loading_display := "none"; table_display := "table";
               error_display := "none"; error_text := "";
               warnings_display := "none"; warnings_text := "";
               console := []; json_calls := [] |} |}.

Definition found (u : string) (body : value) : response :=
  {| ok := true; url := u; statusText := "OK"; json := Ok body |}.

Definition not_found (u : string) : response :=
  {| ok := false; url := u; statusText := "Not Found";
     json := Throw (SyntaxError "Unexpected token") |}.

Definition first_url : string := nth 0 DATA_URLS "".
Definition second_url : string := nth 1 DATA_URLS "".

Definition fetch_all (u : string) : fetched :=
  Resolved (found u (Obj [("episodes",
                           if (u =? first_url)%string then Arr [rose; blink] else Arr [])])).

Definition fetch_second_missing (u : string) : fetched :=
  if (u =? second_url)%string then Resolved (not_found u) else fetch_all u.

Definition fetch_offline (u : string) : fetched :=
  Rejected (TypeError "Failed to fetch").

(** A network whose first source answers 404 while the second cannot be
    reached. *)
Definition fetch_missing_and_offline (u : string) : fetched :=
  if (u =? first_url)%string then Resolved (not_found u)
  else if (u =? second_url)%string then Rejected (TypeError "Failed to fetch")
  else fetch_all u.

(** The zone of [utc_host], and a host and zone one hour east of
    Greenwich. *)
Definition utc_zone : Zone := {| local_time := id |}.

Definition cet_host : Host :=
  {| utc := fun t => t - 3600000; parse := fun _ => NaN; clock := 1700000000000 |}.

Definition cet_zone : Zone := {| local_time := fun t => t + 3600000 |}.

(** A record whose date is a number, as a source that writes 20050430
    for 30 April 2005 would have it. *)
Definition numeric_date : value :=
  Obj [ ("rank", Num (Fin 7)); ("title", Str "Dalek"); ("era", Str "Modern");
        ("broadcast_date", Num (Fin 20050430)) ].

(** Two records that differ in rank only: 2 and 10. *)
Definition second : value := Obj [ ("rank", Num (Fin 2)); ("title", Str "The Daleks") ].
Definition tenth : value := Obj [ ("rank", Num (Fin 10)); ("title", Str "The Daleks") ].

(** A record whose title holds a comma, quotes and a newline, and which
    has nothing else but a rank. *)
Definition awkward : value :=
  Obj [ ("rank", Num (Fin 3));
        ("title", Str ("The Doctor, " +:+ String quote ("Who" +:+ String quote
                         (String newline "returns")))) ].

(** A network whose first source holds a record with a numeric date. *)
Definition fetch_numeric_date (u : string) : fetched :=
  Resolved (found u (Obj [("episodes",
                           if (u =? first_url)%string then Arr [rose; numeric_date]
                           else Arr [])])).

(** A record of 1963, and one whose title is a number. *)
Definition unearthly : value :=
  Obj [ ("rank", Num (Fin 1)); ("title", Str "An Unearthly Child");
        ("era", Str "Classic"); ("broadcast_date", Str "1963") ].

Definition numbered : value :=
  Obj [ ("rank", Num (Fin 11)); ("title", Num (Fin 42)) ].

(** * Theorems *)

(** Reduces the sequencing of computations that have returned. *)
Ltac run := cbn [mbind mret result_bind result_ret] in *.

(** stdpp keeps [+:+] folded; the proofs below compute with it. *)
#[local] Arguments String.append !_ _ / : simpl nomatch.

(** ** Texts *)

Section Texts.

Lemma includes_empty s : includes s "" = true.
Proof. destruct s; reflexivity. Qed.

Lemma prefix_app (p s : string) :
  String.prefix p s = true <-> exists t, s = p +:+ t.
Proof.
  revert s; induction p as [|c p IH]; intros s; cbn.
  - split; [exists s; reflexivity | destruct s; reflexivity].
  - destruct s as [|d s]; cbn.
    + split; [discriminate | intros [t Ht]; discriminate].
    + destruct (ascii_dec c d) as [->|Hne].
      * rewrite IH. split; intros [t Ht]; exists t; congruence.
      * split; [discriminate | intros [t Ht]; congruence].
Qed.

(** [includes] is the substring relation. *)
Lemma includes_substring (s n : string) :
  includes s n = true <-> exists a b, s = a +:+ n +:+ b.
Proof.
  induction s as [|c s IH]; cbn [includes].
  - rewrite orb_false_r, prefix_app. split.
    + intros [t Ht]. exists "", t. exact Ht.
    + intros [a [b Hab]]. destruct a; cbn in Hab.
      * exists b. exact Hab.
      * discriminate.
  - rewrite orb_true_iff, IH, prefix_app. split.
    + intros [[t Ht] | [a [b Hab]]].
      * exists "", t. exact Ht.
      * exists (String c a), b. cbn. congruence.
    + intros [a [b Hab]]. destruct a as [|d a]; cbn in Hab.
      * left. exists b. exact Hab.
      * right. exists a, b. congruence.
Qed.

Lemma contains_char_spec (p : ascii -> bool) (s : string) :
  contains_char p s = true <-> exists c, c ∈ list_ascii_of_string s /\ p c = true.
Proof.
  induction s as [|a s IH]; cbn.
  - split; [discriminate | intros [c [Hc _]]; inversion Hc].
  - rewrite orb_true_iff, IH. split.
    + intros [Ha | [c [Hc Hp]]].
      * exists a. split; [left | exact Ha].
      * exists c. split; [right; exact Hc | exact Hp].
    + intros [c [Hc Hp]]. inversion Hc; subst.
      * left; exact Hp.
      * right. exists c. split; assumption.
Qed.

Lemma csv_special_spec c :
  csv_special c = true <-> c = quote \/ c = comma \/ c = newline.
Proof.
  unfold csv_special. rewrite !orb_true_iff, !Ascii.eqb_eq. tauto.
Qed.

End Texts.

(** ** C10: an empty actor is an absent actor *)

Section Formatting.

Lemma formatDoctor_no_actor d b :
  truthy (get_opt d "actor") = false -> formatDoctor d b = Ok (Str "N/A").
Proof. intros H. unfold formatDoctor. rewrite H. reflexivity. Qed.

Lemma formatCompanion_no_actor c b :
  truthy (get_opt c "actor") = false -> formatCompanion c b = Ok (Str "N/A").
Proof. intros H. unfold formatCompanion. rewrite H. reflexivity. Qed.

Lemma formatDoctor_actor_only d :
  text_or_absent (get_opt d "actor") = true ->
  formatDoctor d false = Ok (Str (actor_only d)).
Proof.
  unfold formatDoctor, actor_only, get_opt.
  destruct (nullish d) eqn:Hn; [reflexivity|].
  destruct (prop d "actor") as [| |?|?|s|?|?]; try discriminate; try reflexivity.
  intros _. cbn. destruct (s =? "")%string; reflexivity.
Qed.

Lemma formatCompanion_actor_only c :
  text_or_absent (get_opt c "actor") = true ->
  formatCompanion c false = Ok (Str (actor_only c)).
Proof.
  unfold formatCompanion, actor_only, get_opt.
  destruct (nullish c) eqn:Hn; [reflexivity|].
  destruct (prop c "actor") as [| |?|?|s|?|?]; try discriminate; try reflexivity.
  intros _. cbn. destruct (s =? "")%string; reflexivity.
Qed.

(** Whenever the actor-only form can be case-folded, it is the text of
    [actor_only]. *)
Lemma formatDoctor_lower d f t :
  formatDoctor d false = Ok f -> toLowerCase f = Ok t -> t = lower (actor_only d).
Proof.
  unfold formatDoctor, actor_only, get_opt.
  destruct (nullish d); [intros [= <-] [= <-]; reflexivity|].
  destruct (prop d "actor") as [| |[|]|[z| | |]|s|?|?]; cbn;
    try (intros [= <-] [= <-]; reflexivity); try (intros [= <-]; discriminate).
  - destruct (z =? 0); cbn; [intros [= <-] [= <-]; reflexivity | intros [= <-]; discriminate].
  - destruct (s =? "")%string; cbn; intros [= <-] [= <-]; reflexivity.
Qed.

Lemma formatCompanion_lower c f t :
  formatCompanion c false = Ok f -> toLowerCase f = Ok t -> t = lower (actor_only c).
Proof.
  unfold formatCompanion, actor_only, get_opt.
  destruct (nullish c); [intros [= <-] [= <-]; reflexivity|].
  destruct (prop c "actor") as [| |[|]|[z| | |]|s|?|?]; cbn;
    try (intros [= <-] [= <-]; reflexivity); try (intros [= <-]; discriminate).
  - destruct (z =? 0); cbn; [intros [= <-] [= <-]; reflexivity | intros [= <-]; discriminate].
  - destruct (s =? "")%string; cbn; intros [= <-] [= <-]; reflexivity.
Qed.

End Formatting.

(** C10.  A doctor or companion object whose [actor] is the empty string
    is formatted as N/A exactly like one that has no [actor], both with
    the secondary part (the form display and export ask for) and without
    it (the form filter and sort ask for); hence the filter cannot tell
    two records apart that differ only in this, and both get the sort key
    of N/A. *)
Theorem empty_actor_is_absent (d d' : value) (b : bool) :
  get_opt d "actor" = Str "" ->
  get_opt d' "actor" = Undefined ->
  formatDoctor d b = Ok (Str "N/A") /\ formatDoctor d' b = Ok (Str "N/A")
  /\ formatCompanion d b = Ok (Str "N/A") /\ formatCompanion d' b = Ok (Str "N/A")
  /\ (forall ft ps,
        matchesFilter ft (Obj (("doctor", d) :: ps))
        = matchesFilter ft (Obj (("doctor", d') :: ps))
        /\ matchesFilter ft (Obj (("companion", d) :: ps))
           = matchesFilter ft (Obj (("companion", d') :: ps)))
  /\ (forall h ps,
        getSortValue h (Obj (("doctor", d) :: ps)) "doctor" = Ok (Str "n/a")
        /\ getSortValue h (Obj (("companion", d) :: ps)) "companion" = Ok (Str "n/a")).
Proof.
  intros He Ha.
  assert (Hd : forall b, formatDoctor d b = Ok (Str "N/A"))
    by (intros; apply formatDoctor_no_actor; rewrite He; reflexivity).
  assert (Hd' : forall b, formatDoctor d' b = Ok (Str "N/A"))
    by (intros; apply formatDoctor_no_actor; rewrite Ha; reflexivity).
  assert (Hc : forall b, formatCompanion d b = Ok (Str "N/A"))
    by (intros; apply formatCompanion_no_actor; rewrite He; reflexivity).
  assert (Hc' : forall b, formatCompanion d' b = Ok (Str "N/A"))
    by (intros; apply formatCompanion_no_actor; rewrite Ha; reflexivity).
  repeat split; auto.
  - unfold matchesFilter. cbn. rewrite Hd, Hd'. reflexivity.
  - unfold matchesFilter. cbn. rewrite Hc, Hc'. reflexivity.
  - unfold getSortValue. cbn. rewrite Hd. reflexivity.
  - unfold getSortValue. cbn. rewrite Hc. reflexivity.
Qed.

Lemma empty_actor_is_absent_witness :
  formatDoctor (Obj [("actor", Str ""); ("incarnation", Str "Ninth Doctor")]) true
  = Ok (Str "N/A")
  /\ formatDoctor (Obj [("incarnation", Str "Ninth Doctor")]) true = Ok (Str "N/A").
Proof.
  pose proof (empty_actor_is_absent
                (Obj [("actor", Str ""); ("incarnation", Str "Ninth Doctor")])
                (Obj [("incarnation", Str "Ninth Doctor")]) true
                eq_refl eq_refl) as H.
  split; [apply H | apply H].
Defined.

(** ** C7: CSV escaping and reading back *)

Section Csv.

Lemma unquote_doubled s :
  unquote (replace_char quote (String quote (String quote EmptyString)) s
           +:+ String quote EmptyString) = Some s.
Proof.
  induction s as [|a s IH]; [reflexivity|].
  cbn [replace_char]. destruct (Ascii.eqb a quote) eqn:Ha.
  - apply Ascii.eqb_eq in Ha. subst a.
    change (unquote (String quote (String quote
              (replace_char quote (String quote (String quote EmptyString)) s
               +:+ String quote EmptyString))) = Some (String quote s)).
    cbn [unquote]. rewrite Ascii.eqb_refl. rewrite IH. reflexivity.
  - change (unquote (String a
              (replace_char quote (String quote (String quote EmptyString)) s
               +:+ String quote EmptyString)) = Some (String a s)).
    cbn [unquote]. rewrite Ha, IH. reflexivity.
Qed.

Lemma unescape_quoted s : unescapeCSV (csv_quoted s) = Some s.
Proof.
  unfold csv_quoted.
  change (unescapeCSV (String quote
            (replace_char quote (String quote (String quote EmptyString)) s
             +:+ String quote EmptyString)) = Some s).
  cbn [unescapeCSV]. rewrite Ascii.eqb_refl. apply unquote_doubled.
Qed.

Lemma unescape_bare s : contains_char csv_special s = false -> unescapeCSV s = Some s.
Proof.
  destruct s as [|c s]; [reflexivity|]. intros H.
  unfold unescapeCSV. rewrite H.
  cbn in H. apply orb_false_elim in H as [H _].
  unfold csv_special in H. apply orb_false_elim in H as [H _].
  apply orb_false_elim in H as [H _]. rewrite H. reflexivity.
Qed.

Lemma escapeCSV_text s :
  escapeCSV (Str s)
  = Ok (if contains_char csv_special s then csv_quoted s else s).
Proof.
  unfold escapeCSV. cbn. destruct (contains_char csv_special s); reflexivity.
Qed.

End Csv.

(** C7.  [escapeCSV] turns [null] and [undefined] into the empty text;
    a text is wrapped in quotes, its own quotes doubled, exactly when it
    holds a comma, a quote or a newline, and is returned unchanged
    otherwise; any other value is escaped as its text.  Reading the
    escaped text back by the rules of RFC 4180 gives the original text,
    for every text and so for one that holds all three characters. *)
Theorem escapeCSV_round_trip :
  escapeCSV Null = Ok "" /\ escapeCSV Undefined = Ok ""
  /\ (forall s,
        escapeCSV (Str s)
        = Ok (if contains_char csv_special s
              then String quote (replace_char quote (String quote (String quote EmptyString)) s)
                   +:+ String quote EmptyString
              else s))
  /\ (forall s,
        contains_char csv_special s = true
        <-> exists c, c ∈ list_ascii_of_string s
                      /\ (c = quote \/ c = comma \/ c = newline))
  /\ (forall v, nullish v = false ->
        escapeCSV v = (s ← ToString v; escapeCSV (Str s)))
  /\ (forall s, exists e, escapeCSV (Str s) = Ok e /\ unescapeCSV e = Some s).
Proof.
  split; [reflexivity|]. split; [reflexivity|].
  split; [exact escapeCSV_text|].
  split.
  { intros s. rewrite contains_char_spec.
    split; intros [c [Hc Hp]]; exists c; (split; [exact Hc|]);
      apply csv_special_spec; exact Hp. }
  split.
  { intros v Hv. unfold escapeCSV, coalesce. rewrite Hv.
    destruct (ToString v) as [s|e]; reflexivity. }
  intros s. rewrite escapeCSV_text. eexists. split; [reflexivity|].
  destruct (contains_char csv_special s) eqn:Hs.
  - apply unescape_quoted.
  - apply unescape_bare. exact Hs.
Qed.

(** A text with a comma, a quote and a newline, escaped and read back. *)
Lemma escapeCSV_round_trip_witness :
  let s := "The Doctor, " +:+ String quote "Who" +:+ String quote (String newline "returns") in
  contains_char csv_special s = true
  /\ exists e, escapeCSV (Str s) = Ok e /\ unescapeCSV e = Some s.
Proof.
  intros s. split; [reflexivity|].
  destruct escapeCSV_round_trip as (_ & _ & _ & _ & _ & H). apply (H s).
Defined.

(** ** C5: date normalisation *)

Section Dates.

Variable h : Host.

Lemma normalizeDate_empty v : truthy v = false -> normalizeDate h v = Ok None.
Proof. intros H. unfold normalizeDate. rewrite H. reflexivity. Qed.

(** The generic path never hands out an invalid date. *)
Lemma normalizeDate_generic s :
  s <> "" -> is_year s = false -> includes s (String slash EmptyString) = false ->
  normalizeDate h (Str s)
  = Ok (if isNaN (TimeClip (parse h s)) then None else Some (MkDate (TimeClip (parse h s)))).
Proof.
  intros Hs Hy Hi. unfold normalizeDate.
  assert (truthy (Str s) = true) as ->.
  { cbn. destruct s; [contradiction | reflexivity]. }
  cbn [ToString mbind result_bind]. rewrite Hy.
  cbn [includes_slash mbind result_bind]. rewrite Hi. reflexivity.
Qed.

Lemma normalizeDate_generic_valid s d :
  s <> "" -> is_year s = false -> includes s (String slash EmptyString) = false ->
  normalizeDate h (Str s) = Ok (Some d) -> isNaN (getTime d) = false.
Proof.
  intros Hs Hy Hi. rewrite normalizeDate_generic by assumption.
  destruct (isNaN (TimeClip (parse h s))) eqn:E; intros [=]; subst. exact E.
Qed.

Lemma digit_plain c :
  is_digit c = true ->
  is_space c = false /\ Ascii.eqb c (ascii_of_N 45) = false
  /\ Ascii.eqb c (ascii_of_N 43) = false /\ Ascii.eqb c (ascii_of_N 73) = false.
Proof.
  destruct c as [[] [] [] [] [] [] [] []]; cbn; try discriminate; auto.
Qed.

Lemma digits_trim_right s : all_digits s = true -> trim_right s = s.
Proof.
  induction s as [|c s IH]; [reflexivity|]. cbn [all_digits trim_right].
  intros [Hc Hs]%andb_prop. rewrite (IH Hs).
  destruct s; [|reflexivity]. destruct (digit_plain c Hc) as [-> _]. reflexivity.
Qed.

(** A text of digits is read as the number it spells. *)
Lemma StringToNumber_digits s :
  s <> "" -> all_digits s = true -> StringToNumber s = Fin (digits_value 0 s).
Proof.
  intros Hne Hd. destruct s as [|c s]; [contradiction|].
  pose proof Hd as Hd'. cbn [all_digits] in Hd'. apply andb_prop in Hd' as [Hc Hs].
  destruct (digit_plain c Hc) as (Hsp & Hminus & Hplus & HI).
  unfold StringToNumber. cbn [trim_left]. rewrite Hsp, (digits_trim_right _ Hd).
  rewrite Hminus, Hplus. unfold unsigned_literal.
  assert ((String c s =? "Infinity")%string = false) as ->.
  { cbn [String.eqb]. change "I"%char with (ascii_of_N 73). rewrite HI. reflexivity. }
  rewrite Hd. reflexivity.
Qed.

(** The year form: local midnight of 1 January of the year the text
    spells, except that a year below 100 lands in the twentieth century. *)
Lemma normalizeDate_year s :
  is_year s = true ->
  let y := digits_value 0 s in
  normalizeDate h (Str s)
  = Ok (Some (MkDate (TimeClip (Fin (utc h (day_of_month_start
                                              (if y <? 100 then 1900 + y else y) 0
                                            * msPerDay)))))).
Proof.
  intros Hy y. pose proof Hy as Hy'. unfold is_year in Hy'.
  apply andb_prop in Hy' as [Hlen Hd].
  assert (s <> "") as Hne by (intros ->; discriminate).
  assert (0 <= y) as Hpos.
  { subst y. clear -Hd. assert (forall acc, 0 <= acc -> 0 <= digits_value acc s) as H.
    { induction s as [|c s IH]; intros acc Hacc; cbn; [exact Hacc|].
      cbn in Hd. apply andb_prop in Hd as [Hc Hs]. apply IH; [exact Hs|].
      unfold is_digit in Hc. apply andb_prop in Hc as [Hc _]. apply N.leb_le in Hc. lia. }
    apply H. lia. }
  unfold normalizeDate.
  assert (truthy (Str s) = true) as -> by (destruct s; [contradiction | reflexivity]).
  cbn [negb ToString mbind result_bind]. rewrite Hy.
  cbn [ToNumber mbind result_bind]. rewrite (StringToNumber_digits _ Hne Hd). fold y.
  unfold Date_ymd. destruct (y <? 100) eqn:E.
  - apply Z.ltb_lt in E.
    assert ((0 <=? y) && (y <=? 99) = true) as ->
      by (apply andb_true_intro; split; apply Z.leb_le; lia).
    cbn [MakeDay]. repeat f_equal. change (0 / 12) with 0. change (0 mod 12) with 0.
    rewrite Z.add_0_r. lia.
  - apply Z.ltb_ge in E.
    assert ((0 <=? y) && (y <=? 99) = false) as ->
      by (apply andb_false_intro2, Z.leb_gt; lia).
    cbn [MakeDay]. repeat f_equal. change (0 / 12) with 0. change (0 mod 12) with 0.
    rewrite Z.add_0_r. lia.
Qed.

(** On a text the function returns: no exception escapes. *)
Lemma normalizeDate_text_returns s : exists d, normalizeDate h (Str s) = Ok d.
Proof.
  unfold normalizeDate. destruct (negb (truthy (Str s))); [eauto|].
  cbn [ToString mbind result_bind]. destruct (is_year s); [cbn; eauto|].
  cbn [includes_slash mbind result_bind].
  destruct (includes s (String slash EmptyString)); [|cbn; eauto].
  cbn [split_slash mbind result_bind].
  destruct (split slash s) as [|d [|m [|y r]]]; cbn; eauto.
Qed.

End Dates.

(** C5 (defect).  A text with a slash whose parts are no numbers is
    unparseable, yet [normalizeDate] returns a [Date] object for it, and
    an invalid one: the slash path lacks the validity test of the generic
    path. *)
Theorem normalizeDate_slash_invalid (h : Host) :
  normalizeDate h (Str "not/a/date") = Ok (Some (MkDate NaN))
  /\ normalizeDate h (Str "/") = Ok (Some (MkDate NaN))
  /\ normalizeDate h (Str "12/1963") = Ok (Some (MkDate NaN)).
Proof. repeat split. Qed.

(** What the function does on well-formed input, on a host in UTC:
    the year form, the slash form, and a year below 100, which the
    [Date] constructor moves into the twentieth century. *)
Example normalizeDate_year_1963 :
  normalizeDate utc_host (Str "1963")
  = Ok (Some (MkDate (Fin (day_of_month_start 1963 0 * msPerDay)))).
Proof. reflexivity. Qed.

Example normalizeDate_slash_form :
  normalizeDate utc_host (Str "23/11/1963")
  = Ok (Some (MkDate (Fin ((day_of_month_start 1963 10 + 22) * msPerDay)))).
Proof. reflexivity. Qed.

Example normalizeDate_year_0050 :
  normalizeDate utc_host (Str "0050")
  = Ok (Some (MkDate (Fin (day_of_month_start 1950 0 * msPerDay)))).
Proof. reflexivity. Qed.

(** ** C6: the validator *)

Section Validator.

Variable h : Host.

Lemma get_present ep k : nullish ep = false -> get ep k = Ok (prop ep k).
Proof. intros H. unfold get. rewrite H. reflexivity. Qed.

Lemma record_ok_present ep : record_ok ep = true -> nullish ep = false.
Proof. destruct ep; cbn; congruence. Qed.

Lemma required_fields_checked id ep s :
  nullish ep = false ->
  foldM (check_required id ep) s requiredFields
  = Ok {| warnings := (warnings s ++ rule_missing id ep)%list; seenRanks := seenRanks s |}.
Proof.
  intros Hep. unfold rule_missing, check_required, requiredFields.
  cbn [foldM flat_map]. rewrite !(get_present _ _ Hep). run.
  destruct s as [ws seen].
  destruct (is_missing (prop ep "rank")), (is_missing (prop ep "title")),
    (is_missing (prop ep "era")), (is_missing (prop ep "broadcast_date"));
    unfold push; cbn [warnings seenRanks app];
    rewrite <- ?app_assoc, ?app_nil_r; reflexivity.
Qed.

Lemma check_rank_spec id earlier ep s :
  seen_ranks_of s earlier ->
  warnings (check_rank id (prop ep "rank") s)
  = (warnings s ++ rule_rank id earlier ep)%list
  /\ seen_ranks_of (check_rank id (prop ep "rank") s) (earlier ++ [ep]).
Proof.
  intros Hinv. unfold seen_ranks_of in *. unfold rule_rank.
  assert (Hstep : forall r', Some r' ∈ finite_rank <$> (earlier ++ [ep])%list
                             <-> r' ∈ seenRanks s \/ finite_rank ep = Some r').
  { intros r'. rewrite fmap_app, elem_of_app, Hinv. cbn.
    rewrite list_elem_of_singleton. split; intros [?|?]; auto. }
  destruct (finite_rank ep) as [r|] eqn:Hfin.
  - assert (prop ep "rank" = Num (Fin r)) as ->.
    { unfold finite_rank in Hfin.
      destruct (prop ep "rank") as [| |?|[?| | |]|?|?|?]; congruence. }
    cbn [check_rank]. destruct (bool_decide (r ∈ seenRanks s)) eqn:Hseen.
    + apply bool_decide_eq_true in Hseen.
      rewrite bool_decide_eq_true_2 by (apply Hinv; exact Hseen).
      split; [reflexivity|]. intros r'. cbn [seenRanks push].
      rewrite Hstep. split; [auto|]. intros [?|[= ->]]; assumption.
    + apply bool_decide_eq_false in Hseen.
      rewrite bool_decide_eq_false_2 by (rewrite <- Hinv; exact Hseen).
      split; [cbn; rewrite app_nil_r; reflexivity|]. intros r'.
      cbn [seenRanks add_rank]. rewrite elem_of_union, elem_of_singleton, Hstep.
      split; intros [?|?]; auto; [subst; auto | left; congruence].
  - assert (check_rank id (prop ep "rank") s = push (invalid_rank_msg id) s) as ->.
    { unfold finite_rank in Hfin. unfold check_rank.
      destruct (prop ep "rank") as [| |?|[?| | |]|?|?|?]; congruence. }
    split; [reflexivity|]. intros r'. cbn [seenRanks push].
    rewrite Hstep. split; [auto | intros [?|?]; [assumption | congruence]].
Qed.

Lemma check_series_spec id ep s :
  check_series id (prop ep "series") s
  = {| warnings := (warnings s ++ rule_series id ep)%list; seenRanks := seenRanks s |}.
Proof.
  unfold check_series, rule_series. destruct s as [ws seen].
  destruct (prop ep "series") as [| |?|n|?|?|?]; cbn; rewrite ?app_nil_r; try reflexivity.
  destruct (number_ltb n (Fin 0)); cbn; rewrite ?app_nil_r; reflexivity.
Qed.

Lemma validateEpisode_spec s earlier ep i id d :
  nullish ep = false ->
  episode_id ep i = Ok id ->
  normalizeDate h (prop ep "broadcast_date") = Ok d ->
  seen_ranks_of s earlier ->
  exists s', validateEpisode h s ep i = Ok s'
             /\ warnings s' = (warnings s ++ record_warnings h earlier i ep)%list
             /\ seen_ranks_of s' (earlier ++ [ep]).
Proof.
  intros Hep Hid Hd Hinv. unfold validateEpisode, record_warnings.
  rewrite Hid. run. rewrite (required_fields_checked _ _ _ Hep). run.
  rewrite !(get_present _ _ Hep). run. rewrite Hd. run.
  set (s2 := match d with Some _ => _ | None => _ end).
  assert (Hs2 : s2 = {| warnings := (warnings s ++ rule_missing id ep ++ rule_future h id ep)%list;
                        seenRanks := seenRanks s |}).
  { subst s2. unfold rule_future. rewrite Hd. destruct d as [dt|].
    - destruct (date_gt dt (clock h)); unfold push; cbn [warnings seenRanks];
        rewrite <- ?app_assoc, ?app_nil_r; reflexivity.
    - rewrite app_nil_r. reflexivity. }
  assert (Hinv2 : seen_ranks_of s2 earlier) by (rewrite Hs2; exact Hinv).
  destruct (check_rank_spec id earlier ep s2 Hinv2) as [Hw Hinv3].
  eexists. split; [reflexivity|]. rewrite check_series_spec. cbn [warnings seenRanks].
  split.
  - rewrite Hw, Hs2. cbn [warnings]. rewrite <- !app_assoc. reflexivity.
  - intros r. cbn [seenRanks]. apply Hinv3.
Qed.

Lemma record_ok_passable i ep : record_ok ep = true -> passable h i ep.
Proof.
  intros Hok. split; [apply record_ok_present, Hok|].
  destruct ep as [| |?|?|?|?|ps]; try discriminate.
  cbn [record_ok] in Hok. repeat (apply andb_prop in Hok as [Hok ?]).
  split.
  - unfold episode_id. rewrite get_present by reflexivity. run.
    destruct (prop (Obj ps) "title") as [| |?|?|t|?|?]; try discriminate;
      unfold or_else; cbn [truthy]; try (cbn; eauto).
    destruct (negb (t =? "")%string); cbn; eauto.
  - destruct (prop (Obj ps) "broadcast_date") as [| |?|?|t|?|?]; try discriminate.
    + exists None. reflexivity.
    + exists None. reflexivity.
    + apply normalizeDate_text_returns.
Qed.

Lemma forEach_validate l : forall s earlier,
  (forall j ep, l !! j = Some ep -> passable h (length earlier + j) ep) ->
  seen_ranks_of s earlier ->
  exists s', forEach_from (length earlier) (validateEpisode h) s l = Ok s'
             /\ warnings s'
                = (warnings s
                   ++ concat (imap (fun j ep =>
                                record_warnings h (earlier ++ take j l) (length earlier + j) ep) l))%list.
Proof.
  induction l as [|ep l IH]; intros s earlier Hpass Hinv.
  - exists s. cbn. rewrite app_nil_r. auto.
  - destruct (Hpass 0%nat ep eq_refl) as (Hep & [id Hid] & [d Hd]).
    rewrite Nat.add_0_r in Hid.
    destruct (validateEpisode_spec s earlier ep _ id d Hep Hid Hd Hinv)
      as (s1 & Hrun & Hw1 & Hinv1).
    cbn [forEach_from]. rewrite Hrun. run.
    destruct (IH s1 (earlier ++ [ep])%list) as (s' & Hrun' & Hw').
    { intros j e Hj. rewrite length_app. cbn [length].
      replace (length earlier + 1 + j)%nat with (length earlier + S j)%nat by lia.
      apply Hpass. exact Hj. }
    { exact Hinv1. }
    rewrite length_app in Hrun'. cbn [length] in Hrun'.
    rewrite Nat.add_1_r in Hrun'.
    exists s'. split; [exact Hrun'|].
    rewrite Hw', Hw1. cbn [imap concat]. rewrite <- !app_assoc.
    rewrite Nat.add_0_r, app_nil_r. do 2 f_equal.
    f_equal. apply imap_ext. intros j e _. cbn.
    rewrite <- app_assoc. cbn. rewrite length_app. cbn [length]. f_equal. lia.
Qed.

(** A pass that returns went through passable records only. *)
Lemma validateEpisode_passable s ep i s' :
  validateEpisode h s ep i = Ok s' -> passable h i ep.
Proof.
  unfold validateEpisode, passable.
  destruct (episode_id ep i) as [id|] eqn:Hid; [|discriminate]. run.
  assert (nullish ep = false) as Hep.
  { unfold episode_id, get in Hid. destruct (nullish ep); [discriminate | reflexivity]. }
  rewrite (required_fields_checked _ _ _ Hep). run.
  rewrite !(get_present _ _ Hep). run.
  destruct (normalizeDate h (prop ep "broadcast_date")) as [d|]; [|discriminate].
  intros _. eauto.
Qed.

Lemma forEach_passable l : forall i s s',
  forEach_from i (validateEpisode h) s l = Ok s' ->
  forall j ep, l !! j = Some ep -> passable h (i + j) ep.
Proof.
  induction l as [|x l IH]; intros i s s' Hrun j ep Hj; [discriminate|].
  cbn [forEach_from] in Hrun.
  destruct (validateEpisode h s x i) as [s1|] eqn:Hx; [|discriminate]. run.
  destruct j as [|j]; cbn in Hj.
  - injection Hj as <-. rewrite Nat.add_0_r. eapply validateEpisode_passable, Hx.
  - replace (i + S j)%nat with (S i + j)%nat by lia. eapply IH; eassumption.
Qed.

(** Whenever the validator returns, its warnings are the blocks of the
    records, in record order. *)
Lemma validateData_blocks eps ws :
  validateData h eps = Ok ws ->
  ws = concat (imap (fun i ep => record_warnings h (take i eps) i ep) eps)
  /\ forall i ep, eps !! i = Some ep -> passable h i ep.
Proof.
  unfold validateData.
  destruct (forEach_from 0 _ _ eps) as [s'|] eqn:Hrun; [|discriminate]. run.
  intros [= <-].
  pose proof (forEach_passable _ _ _ _ Hrun) as Hpass.
  destruct (forEach_validate eps {| warnings := []; seenRanks := ∅ |} [])
    as (s'' & Hrun' & Hw).
  - exact Hpass.
  - intros r. cbn. rewrite elem_of_empty, elem_of_nil. tauto.
  - cbn [length] in Hrun'. rewrite Hrun in Hrun'. injection Hrun' as <-.
    split; [exact Hw | exact Hpass].
Qed.


End Validator.

Section ValidatorWarnings.

Variable h : Host.

Lemma episode_id_shape ep i id :
  episode_id ep i = Ok id -> exists t, id = "Episode " +:+ t.
Proof.
  unfold episode_id. destruct (get ep "title") as [title|]; [|discriminate]. run.
  destruct (ToString _) as [t|]; [|discriminate]. run.
  intros [= <-]. eexists. reflexivity.
Qed.

Lemma filter_none {A} (f : A -> bool) l :
  Forall (fun x => f x = false) l -> List.filter f l = [].
Proof. induction 1 as [|x l Hx _ IH]; cbn; [|rewrite Hx]; auto. Qed.

Lemma no_duplicate_in_missing t ep :
  List.filter is_duplicate_warning (rule_missing ("Episode " +:+ t) ep) = [].
Proof.
  apply filter_none. unfold rule_missing, requiredFields. cbn [flat_map].
  repeat match goal with
         | |- context [if ?b then _ else _] => destruct b
         end; repeat constructor.
Qed.

Lemma no_duplicate_in_future t ep :
  List.filter is_duplicate_warning (rule_future h ("Episode " +:+ t) ep) = [].
Proof.
  unfold rule_future.
  destruct (normalizeDate h _) as [[d|]|]; try reflexivity.
  destruct (date_gt d (clock h)); reflexivity.
Qed.

Lemma no_duplicate_in_series t ep :
  List.filter is_duplicate_warning (rule_series ("Episode " +:+ t) ep) = [].
Proof.
  unfold rule_series. destruct (prop ep "series") as [| |?|n|?|?|?]; try reflexivity.
  destruct (number_ltb n (Fin 0)); reflexivity.
Qed.

Lemma duplicate_msg_is_duplicate r id :
  is_duplicate_warning (duplicate_rank_msg r id) = true.
Proof. apply prefix_app. eexists. reflexivity. Qed.

Lemma duplicates_of_block earlier i ep t :
  episode_id ep i = Ok ("Episode " +:+ t) ->
  List.filter is_duplicate_warning (record_warnings h earlier i ep)
  = match finite_rank ep with
    | Some r => if bool_decide (Some r ∈ finite_rank <$> earlier)
                then [duplicate_rank_msg (Fin r) ("Episode " +:+ t)] else []
    | None => []
    end.
Proof.
  intros Hid. unfold record_warnings. rewrite Hid.
  rewrite !List.filter_app, no_duplicate_in_missing, no_duplicate_in_future,
    no_duplicate_in_series, app_nil_r. cbn [app].
  unfold rule_rank. destruct (finite_rank ep) as [r|]; [|reflexivity].
  destruct (bool_decide _); [|reflexivity].
  cbn [List.filter]. rewrite duplicate_msg_is_duplicate. reflexivity.
Qed.


End ValidatorWarnings.



(** ** The sort of arrays *)

Section ArraySort.

Variable cmp : value -> value -> result Z.

Lemma sort_insert_perm x l l' : sort_insert cmp x l = Ok l' -> l' ≡ₚ x :: l.
Proof.
  revert l'. induction l as [|y l IH]; intros l'; cbn.
  - intros [= <-]. reflexivity.
  - destruct (cmp x y) as [c|]; [|discriminate]. run.
    destruct (c <=? 0); [intros [= <-]; reflexivity|].
    destruct (sort_insert cmp x l) as [r|]; [|discriminate]. run.
    intros [= <-]. rewrite (IH r eq_refl). apply Permutation_swap.
Qed.

Lemma array_sort_perm l l' : array_sort cmp l = Ok l' -> l' ≡ₚ l.
Proof.
  revert l'. induction l as [|x l IH]; intros l'; cbn.
  - intros [= <-]. reflexivity.
  - destruct (array_sort cmp l) as [r|]; [|discriminate]. run.
    intros H%sort_insert_perm. rewrite H, (IH r eq_refl). reflexivity.
Qed.

(** The sort returns when the comparator does. *)
Lemma sort_insert_returns x l :
  (forall y, y ∈ l -> exists c, cmp x y = Ok c) -> exists l', sort_insert cmp x l = Ok l'.
Proof.
  induction l as [|y l IH]; intros Hc; cbn; [eauto|].
  destruct (Hc y) as [c ->]; [left|]. run.
  destruct (c <=? 0); [eauto|].
  destruct IH as [r ->]; [intros; apply Hc; right; assumption|]. run. eauto.
Qed.

Lemma array_sort_returns l :
  (forall x y, x ∈ l -> y ∈ l -> exists c, cmp x y = Ok c) ->
  exists l', array_sort cmp l = Ok l'.
Proof.
  induction l as [|x l IH]; intros Hc; cbn; [eauto|].
  destruct IH as [r Hr]; [intros; apply Hc; right; assumption|].
  rewrite Hr. run. apply sort_insert_returns. intros y Hy. apply Hc; [left|].
  right. rewrite <- (array_sort_perm _ _ Hr). exact Hy.
Qed.

(** Stability, for a class [same] of elements that compare as equal. *)
Variable same : value -> bool.
Hypothesis same_equal :
  forall x y c, same x = true -> same y = true -> cmp x y = Ok c -> c <= 0.

Lemma sort_insert_stable x l l' :
  sort_insert cmp x l = Ok l' -> List.filter same l' = List.filter same (x :: l).
Proof.
  revert l'. induction l as [|y l IH]; intros l'; cbn [sort_insert].
  - intros [= <-]. reflexivity.
  - destruct (cmp x y) as [c|] eqn:Hc; [|discriminate]. run.
    destruct (c <=? 0) eqn:Hle; [intros [= <-]; reflexivity|].
    destruct (sort_insert cmp x l) as [r|]; [|discriminate]. run.
    intros [= <-]. apply Z.leb_gt in Hle.
    cbn [List.filter]. rewrite (IH r eq_refl). cbn [List.filter].
    destruct (same x) eqn:Hx, (same y) eqn:Hy; try reflexivity.
    pose proof (same_equal x y c Hx Hy Hc). lia.
Qed.

Lemma array_sort_stable l l' :
  array_sort cmp l = Ok l' -> List.filter same l' = List.filter same l.
Proof.
  revert l'. induction l as [|x l IH]; intros l'; cbn [array_sort].
  - intros [= <-]. reflexivity.
  - destruct (array_sort cmp l) as [r|]; [|discriminate]. run.
    intros H%sort_insert_stable. rewrite H. cbn [List.filter].
    rewrite (IH r eq_refl). reflexivity.
Qed.

End ArraySort.

(** The order of the result, for a comparator that decides a total
    preorder on the elements. *)
Section ArraySortOrder.

Variable cmp : value -> value -> result Z.
Variable le : value -> value -> Prop.
Variable dom_ : value -> Prop.
Hypothesis le_trans : forall a b c, dom_ a -> dom_ b -> dom_ c -> le a b -> le b c -> le a c.
Hypothesis cmp_le : forall a b c, dom_ a -> dom_ b -> cmp a b = Ok c -> c <= 0 -> le a b.
Hypothesis cmp_gt : forall a b c, dom_ a -> dom_ b -> cmp a b = Ok c -> 0 < c -> le b a.

Lemma sort_insert_sorted x l l' :
  dom_ x -> Forall dom_ l -> StronglySorted le l ->
  sort_insert cmp x l = Ok l' -> StronglySorted le l'.
Proof.
  intros Hx. revert l'. induction l as [|y l IH]; intros l' Hd Hs; cbn [sort_insert].
  - intros [= <-]. repeat constructor.
  - apply Forall_cons in Hd as [Hy Hd]. apply StronglySorted_inv in Hs as [Hs Hyl].
    destruct (cmp x y) as [c|] eqn:Hc; [|discriminate]. run.
    destruct (c <=? 0) eqn:Hle.
    + intros [= <-]. apply Z.leb_le in Hle.
      pose proof (cmp_le x y c Hx Hy Hc Hle) as Hxy.
      constructor; [constructor; assumption|].
      constructor; [exact Hxy|].
      rewrite Forall_forall in Hyl, Hd |- *. intros z Hz.
      apply (le_trans x y z); auto.
    + destruct (sort_insert cmp x l) as [r|] eqn:Hr; [|discriminate]. run.
      intros [= <-]. apply Z.leb_gt in Hle.
      constructor; [apply IH; auto|].
      rewrite (sort_insert_perm _ _ _ _ Hr). constructor; [|exact Hyl].
      apply (cmp_gt x y c); auto.
Qed.

Lemma array_sort_sorted l l' :
  Forall dom_ l -> array_sort cmp l = Ok l' -> StronglySorted le l'.
Proof.
  revert l'. induction l as [|x l IH]; intros l' Hd; cbn [array_sort].
  - intros [= <-]. constructor.
  - apply Forall_cons in Hd as [Hx Hd].
    destruct (array_sort cmp l) as [r|] eqn:Hr; [|discriminate]. run.
    apply sort_insert_sorted; auto.
    rewrite (array_sort_perm _ _ _ Hr). exact Hd.
Qed.

End ArraySortOrder.

(** ** C1: the filter *)

Section Filter.

Lemma toLowerCase_or_empty_text v :
  text_or_absent v = true -> toLowerCase_or_empty v = Ok (lower (text_or_empty v)).
Proof. destruct v; try discriminate; reflexivity. Qed.

Lemma record_ok_fields ep :
  record_ok ep = true ->
  nullish ep = false
  /\ text_or_absent (prop ep "title") = true
  /\ text_or_absent (prop ep "writer") = true
  /\ text_or_absent (prop ep "director") = true
  /\ text_or_absent (prop ep "broadcast_date") = true
  /\ text_or_absent (get_opt (prop ep "doctor") "actor") = true
  /\ text_or_absent (get_opt (prop ep "companion") "actor") = true
  /\ list_or_absent (prop ep "cast") = true.
Proof.
  intros Hok. pose proof (record_ok_present _ Hok) as Hp.
  destruct ep; try discriminate. cbn [record_ok] in Hok.
  repeat (apply andb_prop in Hok as [Hok ?]). repeat split; assumption.
Qed.

(** On a record of the data model the callback returns, and what it
    returns is the match on the five texts. *)
Lemma matchesFilter_text ft ep :
  record_ok ep = true -> matchesFilter ft ep = Ok (text_match ft ep).
Proof.
  intros (Hp & Ht & Hw & Hd & _ & Hdoc & Hcomp & _)%record_ok_fields.
  unfold matchesFilter, text_match. rewrite !(get_present _ _ Hp). run.
  rewrite (toLowerCase_or_empty_text _ Ht), (toLowerCase_or_empty_text _ Hw),
    (toLowerCase_or_empty_text _ Hd). run.
  rewrite (formatDoctor_actor_only _ Hdoc), (formatCompanion_actor_only _ Hcomp).
  reflexivity.
Qed.

Lemma filterM_pure {A} (p : A -> result bool) (q : A -> bool) l :
  Forall (fun x => p x = Ok (q x)) l -> filterM p l = Ok (List.filter q l).
Proof.
  induction 1 as [|x l Hx _ IH]; cbn; [reflexivity|].
  rewrite Hx, IH. run. destruct (q x); reflexivity.
Qed.

Lemma toLowerCase_or_empty_sound v t :
  toLowerCase_or_empty v = Ok t -> t = lower (text_or_empty v).
Proof. destruct v; cbn; intros [= <-]; reflexivity. Qed.

(** Whenever the callback returns, it returns the match on the five
    texts. *)
Lemma matchesFilter_sound ft ep b :
  matchesFilter ft ep = Ok b -> b = text_match ft ep.
Proof.
  unfold matchesFilter, text_match, get.
  destruct (nullish ep); [discriminate|]. run.
  destruct (toLowerCase_or_empty (prop ep "title")) as [title|] eqn:Ht; [|discriminate]. run.
  destruct (formatDoctor (prop ep "doctor") false) as [fd|] eqn:Hfd; [|discriminate]. run.
  destruct (toLowerCase fd) as [doctor|] eqn:Hd; [|discriminate]. run.
  destruct (formatCompanion (prop ep "companion") false) as [fc|] eqn:Hfc; [|discriminate]. run.
  destruct (toLowerCase fc) as [companion|] eqn:Hc; [|discriminate]. run.
  destruct (toLowerCase_or_empty (prop ep "writer")) as [writer|] eqn:Hw; [|discriminate]. run.
  destruct (toLowerCase_or_empty (prop ep "director")) as [director|] eqn:Hr; [|discriminate]. run.
  intros [= <-].
  rewrite (toLowerCase_or_empty_sound _ _ Ht), (toLowerCase_or_empty_sound _ _ Hw),
    (toLowerCase_or_empty_sound _ _ Hr), (formatDoctor_lower _ _ _ Hfd Hd),
    (formatCompanion_lower _ _ _ Hfc Hc). reflexivity.
Qed.

Lemma filterM_sound {A} (p : A -> result bool) (q : A -> bool) l l' :
  (forall x b, p x = Ok b -> b = q x) -> filterM p l = Ok l' -> l' = List.filter q l.
Proof.
  intros Hpq. revert l'. induction l as [|x l IH]; intros l'; cbn.
  - intros [= <-]. reflexivity.
  - destruct (p x) as [b|] eqn:Hx; [|discriminate]. run.
    destruct (filterM p l) as [r|]; [|discriminate]. run.
    intros [= <-]. rewrite <- (Hpq x b Hx), <- (IH r eq_refl). reflexivity.
Qed.

Lemma filter_records_text ft eps :
  Forall (fun ep => record_ok ep = true) eps ->
  filterM (matchesFilter ft) eps = Ok (List.filter (text_match ft) eps).
Proof.
  intros Hok. apply filterM_pure. eapply Forall_impl; [exact Hok|].
  intros ep. apply matchesFilter_text.
Qed.

Lemma text_match_empty ep : text_match "" ep = true.
Proof. unfold text_match. rewrite includes_empty. reflexivity. Qed.

End Filter.

(** ** Keys and their comparison *)

Section Keys.

Variable h : Host.

Lemma string_compare_refl s : (s ?= s)%string = Eq.
Proof.
  induction s as [|c s IH]; cbn; [reflexivity|].
  unfold Ascii.compare. rewrite N.compare_refl. exact IH.
Qed.

Lemma string_compare_lt_trans a : forall b c,
  (a ?= b)%string = Lt -> (b ?= c)%string = Lt -> (a ?= c)%string = Lt.
Proof.
  induction a as [|x a IH]; intros [|y b] [|z c]; cbn; try congruence.
  unfold Ascii.compare.
  destruct (N.compare_spec (N_of_ascii x) (N_of_ascii y)) as [Hxy|Hxy|Hxy];
    destruct (N.compare_spec (N_of_ascii y) (N_of_ascii z)) as [Hyz|Hyz|Hyz];
    try congruence; intros H1 H2.
  - rewrite Hxy, Hyz, N.compare_refl. eapply IH; eassumption.
  - rewrite Hxy. apply N.compare_lt_iff in Hyz. rewrite Hyz. reflexivity.
  - rewrite <- Hyz. apply N.compare_lt_iff in Hxy. rewrite Hxy. reflexivity.
  - assert (N_of_ascii x < N_of_ascii z)%N as Hxz by lia.
    apply N.compare_lt_iff in Hxz. rewrite Hxz. reflexivity.
Qed.

Lemma string_leb_trans a b c :
  String.leb a b = true -> String.leb b c = true -> String.leb a c = true.
Proof.
  unfold String.leb.
  destruct (a ?= b)%string eqn:Hab; try discriminate;
    destruct (b ?= c)%string eqn:Hbc; try discriminate; intros _ _.
  - apply String.compare_eq_iff in Hab, Hbc. subst. rewrite string_compare_refl. reflexivity.
  - apply String.compare_eq_iff in Hab. subst. rewrite Hbc. reflexivity.
  - apply String.compare_eq_iff in Hbc. subst. rewrite Hab. reflexivity.
  - rewrite (string_compare_lt_trans _ _ _ Hab Hbc). reflexivity.
Qed.

Lemma string_gt_iff a b : String.ltb b a = negb (String.leb a b).
Proof.
  unfold String.ltb, String.leb. rewrite (String.compare_antisym a b).
  destruct (b ?= a)%string; reflexivity.
Qed.

(** The comparator is the three-way comparison of the keys, times the
    direction. *)
Lemma compareEpisodes_keys fld direction a b ka kb :
  getSortValue h a fld = Ok ka -> getSortValue h b fld = Ok kb ->
  compareEpisodes h fld direction a b = (c ← three_way ka kb; Ok (c * direction)).
Proof.
  intros Ha Hb. unfold compareEpisodes, three_way. rewrite Ha, Hb. run.
  destruct (lt ka kb) as [[|]|]; run; try reflexivity.
  destruct (gt ka kb) as [[|]|]; reflexivity.
Qed.

(** Keys that are texts or finite numbers always compare. *)
Lemma three_way_returns ka kb :
  (text_key ka || finite_key ka) = true -> (text_key kb || finite_key kb) = true ->
  exists c, three_way ka kb = Ok c /\ (c = -1 \/ c = 0 \/ c = 1).
Proof.
  destruct ka as [| |?|[x| | |]|x|?|?]; try discriminate;
    destruct kb as [| |?|[y| | |]|y|?|?]; try discriminate; intros _ _;
    unfold three_way, gt, lt; cbn -[StringToNumber String.ltb number_ltb].
  - destruct (number_ltb _ _); run; [eauto|]. destruct (number_ltb _ _); eauto.
  - destruct (number_ltb _ _); run; [eauto|]. destruct (number_ltb _ _); eauto.
  - destruct (number_ltb _ _); run; [eauto|]. destruct (number_ltb _ _); eauto.
  - destruct (String.ltb x y); run; [eauto|]. destruct (String.ltb y x); eauto.
Qed.

Lemma three_way_same k k1 k2 :
  key_eqb k k1 = true -> key_eqb k k2 = true -> three_way k1 k2 = Ok 0.
Proof.
  destruct k as [| |?|n|x|?|?]; try discriminate.
  - destruct k1 as [| |?|n1|?|?|?]; try discriminate.
    destruct k2 as [| |?|n2|?|?|?]; try discriminate. cbn [key_eqb].
    intros H1 H2. unfold three_way, gt, lt. cbn -[number_ltb].
    destruct n as [z| | |], n1 as [z1| | |]; try discriminate;
      destruct n2 as [z2| | |]; try discriminate; cbn in *; try reflexivity.
    apply Z.eqb_eq in H1, H2. subst. rewrite Z.ltb_irrefl. reflexivity.
  - destruct k1 as [| |?|?|x1|?|?]; try discriminate.
    destruct k2 as [| |?|?|x2|?|?]; try discriminate. cbn [key_eqb].
    intros H1%String.eqb_eq H2%String.eqb_eq. subst.
    unfold three_way, gt, lt. cbn -[String.ltb].
    unfold String.ltb. rewrite string_compare_refl. reflexivity.
Qed.

(** Two records with the key [k] compare as equal, in either direction. *)
Lemma same_key_equal fld direction k x y c :
  has_key h fld k x = true -> has_key h fld k y = true ->
  compareEpisodes h fld direction x y = Ok c -> c <= 0.
Proof.
  unfold has_key.
  destruct (getSortValue h x fld) as [kx|] eqn:Hx; [|discriminate].
  destruct (getSortValue h y fld) as [ky|] eqn:Hy; [|discriminate].
  intros H1 H2. rewrite (compareEpisodes_keys _ _ _ _ _ _ Hx Hy).
  rewrite (three_way_same _ _ _ H1 H2). run. intros [= <-]. lia.
Qed.

Lemma sortable_compare fld direction a b :
  sortable h fld a -> sortable h fld b ->
  exists c, compareEpisodes h fld direction a b = Ok c.
Proof.
  intros (ka & Ha & Hka) (kb & Hb & Hkb).
  rewrite (compareEpisodes_keys _ _ _ _ _ _ Ha Hb).
  destruct (three_way_returns ka kb Hka Hkb) as (c & -> & _). run. eauto.
Qed.

End Keys.

(** ** C2: sort keys *)

Section SortKeys.

Variable h : Host.

Lemma getSortValue_doctor ep :
  record_ok ep = true ->
  getSortValue h ep "doctor" = Ok (Str (lower (actor_only (prop ep "doctor")))).
Proof.
  intros (Hp & _ & _ & _ & _ & Hdoc & _)%record_ok_fields.
  unfold getSortValue. cbn [String.eqb Ascii.eqb Bool.eqb].
  rewrite (get_present _ _ Hp). run. rewrite (formatDoctor_actor_only _ Hdoc). reflexivity.
Qed.

Lemma getSortValue_companion ep :
  record_ok ep = true ->
  getSortValue h ep "companion" = Ok (Str (lower (actor_only (prop ep "companion")))).
Proof.
  intros (Hp & _ & _ & _ & _ & _ & Hcomp & _)%record_ok_fields.
  unfold getSortValue. cbn [String.eqb Ascii.eqb Bool.eqb].
  rewrite (get_present _ _ Hp). run. rewrite (formatCompanion_actor_only _ Hcomp). reflexivity.
Qed.

Lemma getSortValue_cast_count ep :
  record_ok ep = true ->
  getSortValue h ep "cast_count" = Ok (Num (Fin (cast_count ep))).
Proof.
  intros (Hp & _ & _ & _ & _ & _ & _ & Hcast)%record_ok_fields.
  unfold getSortValue, cast_count. cbn [String.eqb Ascii.eqb Bool.eqb].
  rewrite (get_present _ _ Hp). run.
  destruct (prop ep "cast") as [| |?|?|?|l|?]; try discriminate; try reflexivity.
  unfold get_opt, or_else. cbn. destruct l; reflexivity.
Qed.

Lemma getSortValue_broadcast_date ep :
  record_ok ep = true ->
  exists d, normalizeDate h (prop ep "broadcast_date") = Ok d
            /\ getSortValue h ep "broadcast_date" = Ok (Num (epoch_or_zero d)).
Proof.
  intros Hok. destruct (record_ok_passable h 0 ep Hok) as (Hp & _ & [d Hd]).
  exists d. split; [exact Hd|].
  unfold getSortValue. cbn [String.eqb Ascii.eqb Bool.eqb].
  rewrite (get_present _ _ Hp). run. rewrite Hd. run.
  unfold epoch_or_zero, or_else. destruct d as [[[z| | |]]|]; try reflexivity.
  cbn. destruct (z =? 0) eqn:E; [|reflexivity]. apply Z.eqb_eq in E. subst. reflexivity.
Qed.

Lemma getSortValue_other ep fld :
  nullish ep = false -> fld ∉ special_fields ->
  getSortValue h ep fld
  = if truthy (prop ep fld) then s ← ToString (prop ep fld); Ok (Str (lower s))
    else Ok (Str "").
Proof.
  intros Hp Hf. unfold getSortValue.
  assert (forall f, f ∈ special_fields -> (fld =? f)%string = false) as Hne.
  { intros f Hin. apply String.eqb_neq. intros ->. contradiction. }
  rewrite !Hne by (unfold special_fields; rewrite !elem_of_cons; auto 10).
  rewrite (get_present _ _ Hp). run. unfold or_else, toString_method.
  destruct (truthy (prop ep fld)) eqn:Ht; [|reflexivity].
  assert (nullish (prop ep fld) = false) as ->
    by (destruct (prop ep fld); try discriminate; reflexivity).
  destruct (ToString (prop ep fld)); reflexivity.
Qed.

Lemma TimeClip_range t : isFinite (TimeClip t) = true \/ TimeClip t = NaN.
Proof.
  destruct t as [z| | |]; cbn; auto. destruct (Z.abs z <=? _); cbn; auto.
Qed.

Lemma Date_ymd_range y m d :
  isFinite (getTime (Date_ymd h y m d)) = true \/ getTime (Date_ymd h y m d) = NaN.
Proof.
  unfold Date_ymd. destruct (MakeDay _ m d); cbn [getTime]; auto using TimeClip_range.
Qed.

Lemma Date_of_range v dt :
  Date_of h v = Ok dt -> isFinite (getTime dt) = true \/ getTime dt = NaN.
Proof.
  unfold Date_of. destruct (ToPrimitive v) as [p|]; [|discriminate]. run.
  destruct p as [| |?|?|?|l|ps]; cbn [ToNumber]; run;
    try (intros [= <-]; exact (TimeClip_range _)).
  - intros [= <-]. right. reflexivity.
  - intros [= <-]. left. reflexivity.
  - intros [= <-]. left. destruct b; reflexivity.
  - destruct (ToString (Arr l)); [|discriminate]. run.
    intros [= <-]. apply TimeClip_range.
  - destruct (ToString (Obj ps)); [|discriminate]. run.
    intros [= <-]. apply TimeClip_range.
Qed.

(** A normalised date has a finite time value or is invalid. *)
Lemma normalizeDate_range v d :
  normalizeDate h v = Ok (Some d) -> isFinite (getTime d) = true \/ getTime d = NaN.
Proof.
  unfold normalizeDate. destruct (negb (truthy v)); [discriminate|].
  destruct (ToString v) as [text|]; [|discriminate]. run.
  destruct (is_year text).
  - destruct (ToNumber v); [|discriminate]. run. intros [= <-]. apply Date_ymd_range.
  - destruct (includes_slash v) as [[|]|]; [| |discriminate]; run.
    + destruct (split_slash v) as [parts|]; [|discriminate]. run.
      destruct (ToNumber (nth 1 parts Undefined)); [|discriminate]. run.
      destruct (ToNumber (nth 2 parts Undefined)); [|discriminate]. run.
      destruct (ToNumber (nth 0 parts Undefined)); [|discriminate]. run.
      intros [= <-]. apply Date_ymd_range.
    + destruct (Date_of h v) as [dt|] eqn:Hdt; [|discriminate]. run.
      destruct (isNaN (getTime dt)); [discriminate|]. intros [= <-].
      apply (Date_of_range _ _ Hdt).
Qed.

(** The kind of the key depends on the field alone. *)
Lemma record_ok_key_kind ep fld k :
  record_ok ep = true -> getSortValue h ep fld = Ok k -> key_kind fld k = true.
Proof.
  intros Hok Hk. unfold key_kind.
  destruct (decide (fld = "doctor")) as [->|Hd].
  { rewrite getSortValue_doctor in Hk by assumption. injection Hk as <-. reflexivity. }
  destruct (decide (fld = "companion")) as [->|Hc].
  { rewrite getSortValue_companion in Hk by assumption. injection Hk as <-. reflexivity. }
  destruct (decide (fld = "cast_count")) as [->|Hcc].
  { rewrite getSortValue_cast_count in Hk by assumption. injection Hk as <-. reflexivity. }
  destruct (decide (fld = "broadcast_date")) as [->|Hb].
  { destruct (getSortValue_broadcast_date ep Hok) as (d & Hd' & Hk'). rewrite Hk' in Hk.
    injection Hk as <-. cbn [bool_decide decide_rel finite_key].
    unfold epoch_or_zero. destruct d as [d|]; [|reflexivity].
    destruct (normalizeDate_range _ _ Hd') as [Hf|Hn].
    - destruct (getTime d); try discriminate; reflexivity.
    - rewrite Hn. reflexivity. }
  rewrite bool_decide_eq_false_2 by tauto.
  rewrite getSortValue_other in Hk.
  - destruct (truthy (prop ep fld)); [|injection Hk as <-; reflexivity].
    destruct (ToString (prop ep fld)); [|discriminate]. injection Hk as <-. reflexivity.
  - apply record_ok_present, Hok.
  - unfold special_fields. rewrite !elem_of_cons, elem_of_nil. tauto.
Qed.

Lemma key_kind_sortable fld k : key_kind fld k = true -> (text_key k || finite_key k) = true.
Proof.
  unfold key_kind. destruct (bool_decide _); intros ->; [apply orb_true_r | reflexivity].
Qed.

Lemma ToString_primitive v : primitive v = true -> exists s, ToString v = Ok s.
Proof.
  destruct v as [| |[|]|?|?|?|?]; try discriminate; intros _; cbn; eauto.
Qed.

(** Every field of the table sorts on records of the data model; a field
    without a key of its own does when its value is no array or object. *)
Lemma record_ok_sortable ep fld :
  record_ok ep = true ->
  fld ∈ special_fields \/ primitive (prop ep fld) = true ->
  sortable h fld ep.
Proof.
  intros Hok Hf.
  assert (exists k, getSortValue h ep fld = Ok k) as [k Hk].
  { destruct (decide (fld ∈ special_fields)) as [Hin|Hout].
    - unfold special_fields in Hin. rewrite !elem_of_cons, elem_of_nil in Hin.
      destruct Hin as [->|[->|[->|[->|[]]]]].
      + rewrite getSortValue_doctor by assumption. eauto.
      + rewrite getSortValue_companion by assumption. eauto.
      + rewrite getSortValue_cast_count by assumption. eauto.
      + destruct (getSortValue_broadcast_date ep Hok) as (d & _ & ->). eauto.
    - destruct Hf as [Hin|Hprim]; [contradiction|].
      rewrite getSortValue_other; [|apply record_ok_present, Hok | exact Hout].
      destruct (truthy (prop ep fld)); [|eauto].
      destruct (ToString_primitive _ Hprim) as [t ->]. run. eauto. }
  exists k. split; [exact Hk|].
  apply (key_kind_sortable fld), (record_ok_key_kind ep fld k Hok Hk).
Qed.

End SortKeys.

Lemma falsy_values v :
  truthy v = false
  <-> v = Undefined \/ v = Null \/ v = Bool false \/ v = Num (Fin 0) \/ v = Num NaN
      \/ v = Str "".
Proof.
  split.
  - destruct v as [| |[|]|[z| | |]|s|?|?]; cbn; try discriminate; auto 10.
    + destruct (Z.eqb_spec z 0); [subst; auto 10 | discriminate].
    + destruct s; [auto 10 | discriminate].
  - intros [->|[->|[->|[->|[->| ->]]]]]; reflexivity.
Qed.

(** C2 (amended).  On a record of the data model the sort key is: for
    [doctor] and [companion] the case-folded actor-only text, which is
    that of N/A when the actor is absent or empty; for [cast_count] the
    length of the cast, 0 when there is none; for [broadcast_date] the
    epoch value of the normalised date, 0 when there is none or it is
    invalid; for any other data field the empty text when the raw value is
    falsy (absent, [null], [false], 0, NaN or the empty text) and the raw
    value as a case-folded text otherwise. *)
Theorem getSortValue_keys (h : Host) (ep : value) :
  record_ok ep = true ->
  getSortValue h ep "doctor" = Ok (Str (lower (actor_only (prop ep "doctor"))))
  /\ getSortValue h ep "companion" = Ok (Str (lower (actor_only (prop ep "companion"))))
  /\ getSortValue h ep "cast_count" = Ok (Num (Fin (cast_count ep)))
  /\ (exists d, normalizeDate h (prop ep "broadcast_date") = Ok d
                /\ getSortValue h ep "broadcast_date" = Ok (Num (epoch_or_zero d)))
  /\ (forall fld, fld ∉ special_fields -> inherited_key fld = false ->
        getSortValue h ep fld
        = if truthy (prop ep fld) then s ← ToString (prop ep fld); Ok (Str (lower s))
          else Ok (Str ""))
  /\ (forall v, truthy v = false
                <-> v = Undefined \/ v = Null \/ v = Bool false \/ v = Num (Fin 0)
                    \/ v = Num NaN \/ v = Str "").
Proof.
  intros Hok.
  split; [apply getSortValue_doctor, Hok|].
  split; [apply getSortValue_companion, Hok|].
  split; [apply getSortValue_cast_count, Hok|].
  split; [apply getSortValue_broadcast_date, Hok|].
  split; [|exact falsy_values].
  intros fld Hf _. apply getSortValue_other; [apply record_ok_present, Hok | exact Hf].
Qed.

Lemma getSortValue_keys_witness :
  getSortValue utc_host rose "doctor" = Ok (Str "christopher eccleston")
  /\ getSortValue utc_host rose "cast_count" = Ok (Num (Fin 1))
  /\ getSortValue utc_host rose "title" = Ok (Str "rose").
Proof.
  destruct (getSortValue_keys utc_host rose eq_refl) as (Hd & _ & Hc & _ & Ho & _).
  split; [exact Hd|]. split; [exact Hc|].
  apply (Ho "title"); [|reflexivity].
  unfold special_fields. rewrite !elem_of_cons, elem_of_nil.
  intros [H|[H|[H|[H|[]]]]]; discriminate H.
Defined.

(** The claim as stated fails on a record whose rank is 0: the field is
    present and its text is 0, yet the key is the empty text. *)
Lemma sort_key_of_rank_zero :
  getSortValue utc_host pilot "rank" = Ok (Str "")
  /\ spec_other_key pilot "rank" = Ok (Str "0")
  /\ nullish (prop pilot "rank") = false
  /\ getSortValue utc_host pilot "rank" <> spec_other_key pilot "rank".
Proof. repeat split. discriminate. Qed.

(** ** The view *)

Section View.

Variable h : Host.

Lemma sortable_filtered fld (q : value -> bool) eps :
  Forall (sortable h fld) eps -> Forall (sortable h fld) (List.filter q eps).
Proof.
  rewrite !Forall_forall. intros H x Hx%list_elem_of_In%List.filter_In.
  apply H, list_elem_of_In, Hx.
Qed.

Lemma sort_returns fld direction l :
  Forall (sortable h fld) l ->
  exists l', array_sort (compareEpisodes h fld direction) l = Ok l'.
Proof.
  intros Hs. apply array_sort_returns. intros x y Hx Hy.
  rewrite Forall_forall in Hs. apply sortable_compare; auto.
Qed.

(** On records of the data model the pipeline returns the stable sort of
    the records that match. *)
Lemma view_returns eps ft o :
  Forall (fun ep => record_ok ep = true) eps ->
  Forall (sortable h (field o)) eps ->
  exists visible,
    view h eps ft o = Ok visible
    /\ array_sort (compareEpisodes h (field o) (if ascending o then 1 else -1))
         (List.filter (text_match ft) eps) = Ok visible
    /\ visible ≡ₚ List.filter (text_match ft) eps.
Proof.
  intros Hok Hs. unfold view. rewrite (filter_records_text _ _ Hok). run.
  destruct (sort_returns (field o) (if ascending o then 1 else -1)
              (List.filter (text_match ft) eps)) as [visible Hv].
  { apply sortable_filtered, Hs. }
  exists visible. split; [exact Hv|]. split; [exact Hv|].
  apply (array_sort_perm _ _ _ Hv).
Qed.

(** Whenever the pipeline returns, it returns a sort of the records that
    match. *)
Lemma view_inv eps ft o visible :
  view h eps ft o = Ok visible ->
  filterM (matchesFilter ft) eps = Ok (List.filter (text_match ft) eps)
  /\ array_sort (compareEpisodes h (field o) (if ascending o then 1 else -1))
       (List.filter (text_match ft) eps) = Ok visible.
Proof.
  unfold view. destruct (filterM (matchesFilter ft) eps) as [shown|] eqn:Hf; [|discriminate].
  run. intros Hsort.
  rewrite (filterM_sound _ (text_match ft) _ _ (matchesFilter_sound ft) Hf) in *.
  auto.
Qed.

Lemma text_match_substring ft ep :
  text_match ft ep = true
  <-> exists t, t ∈ filter_texts ep /\ exists a b, lower t = a +:+ ft +:+ b.
Proof.
  unfold text_match, filter_texts. rewrite !orb_true_iff, !includes_substring. split.
  - intros [[[[H|H]|H]|H]|H]; eexists; (split; [|exact H]);
      rewrite !elem_of_cons; auto 10.
  - intros (t & Ht & H). rewrite !elem_of_cons, elem_of_nil in Ht.
    destruct Ht as [->|[->|[->|[->|[->|[]]]]]]; auto 10.
Qed.

End View.

(** C1 (amended).  Whenever the view engine returns, a record is in the
    visible sequence if and only if it is in the dataset and the
    case-folded filter text is a substring of one of five case-folded
    texts: the title, the writer and the director, each empty when absent,
    and the actor-only forms of doctor and companion, which are N/A when
    the actor is absent or empty.  With an empty filter text every record
    is visible.  On records of the data model the view engine does
    return. *)
Theorem filter_visible (displayEpisodes : list value -> result unit) (h : Host) (s : state) :
  let ft := lower (name (filters s)) in
  (forall visible,
     view h (episodes s) ft (sort s) = Ok visible ->
     filtered (fst (applyFiltersAndSort displayEpisodes h s)) = visible
     /\ visible ≡ₚ List.filter (text_match ft) (episodes s)
     /\ (forall ep,
           ep ∈ visible
           <-> ep ∈ episodes s
               /\ exists t, t ∈ filter_texts ep /\ exists a b, lower t = a +:+ ft +:+ b)
     /\ (name (filters s) = "" -> visible ≡ₚ episodes s))
  /\ (Forall (fun ep => record_ok ep = true) (episodes s) ->
      Forall (sortable h (field (sort s))) (episodes s) ->
      exists visible, view h (episodes s) ft (sort s) = Ok visible).
Proof.
  intros ft. split.
  - intros visible Hv. destruct (view_inv h _ _ _ _ Hv) as [_ Hsort].
    pose proof (array_sort_perm _ _ _ Hsort) as Hp.
    split.
    { unfold applyFiltersAndSort. cbn [episodes filters sort set_focus].
      fold ft. rewrite Hv. reflexivity. }
    split; [exact Hp|]. split.
    + intros ep. rewrite Hp, list_elem_of_In, List.filter_In, <- list_elem_of_In.
      rewrite text_match_substring. reflexivity.
    + intros Hname. rewrite Hp. subst ft. rewrite Hname. cbn [lower].
      rewrite List.forallb_filter_id; [reflexivity|].
      apply List.forallb_forall. intros; apply text_match_empty.
  - intros Hok Hs.
    destruct (view_returns h (episodes s) ft (sort s) Hok Hs) as (l & Hv & _). eauto.
Qed.

(** Filtering two records by an actor's name, in upper case. *)
Lemma filter_visible_witness :
  let s := set_filter_name "TENNANT" (set_episodes [rose; blink] initial_state) in
  filtered (fst (applyFiltersAndSort display_ok utc_host s)) = [blink]
  /\ (blink ∈ [blink]
      <-> blink ∈ [rose; blink]
          /\ exists t, t ∈ filter_texts blink /\ exists a b, lower t = a +:+ "tennant" +:+ b).
Proof.
  intros s.
  destruct (filter_visible display_ok utc_host s) as [H _].
  destruct (H [blink] eq_refl) as (Hf & _ & Hiff & _).
  split; [exact Hf | exact (Hiff blink)].
Defined.

(** The claim as stated fails on a record without doctor and companion:
    their texts are not empty but N/A, so the filter text n/a finds the
    record although none of its fields holds it. *)
Lemma filter_finds_placeholder :
  matchesFilter (lower "N/A") untold = Ok true
  /\ spec_visible (lower "N/A") untold = false
  /\ filtered (fst (applyFiltersAndSort display_ok utc_host
                      (set_filter_name "N/A" (set_episodes [untold] initial_state))))
     = [untold].
Proof. repeat split. Qed.

(** ** C3: stability of the sort *)

Section Stability.

Lemma filter_split {A} (f : A -> bool) l : forall p x q,
  List.filter f l = (p ++ x :: q)%list ->
  exists l1 l2, l = (l1 ++ x :: l2)%list /\ List.filter f l1 = p /\ List.filter f l2 = q.
Proof.
  induction l as [|y l IH]; intros p x q; cbn [List.filter].
  - intros H. destruct p; discriminate H.
  - destruct (f y) eqn:Hy.
    + destruct p as [|z p]; cbn; intros [= <- H].
      * exists [], l. auto.
      * destruct (IH _ _ _ H) as (l1 & l2 & -> & <- & <-).
        exists (y :: l1), l2. cbn. rewrite Hy. auto.
    + intros H. destruct (IH _ _ _ H) as (l1 & l2 & -> & <- & <-).
      exists (y :: l1), l2. cbn. rewrite Hy. auto.
Qed.

Lemma precedes_filter (f : value -> bool) a b l :
  precedes a b (List.filter f l) -> precedes a b l.
Proof.
  intros (p & q & r & H).
  destruct (filter_split _ _ _ _ _ H) as (l1 & l2 & -> & _ & H2).
  destruct (filter_split _ _ _ _ _ H2) as (l3 & l4 & -> & _ & _).
  exists l1, l3, l4. reflexivity.
Qed.

Lemma filter_precedes (f : value -> bool) a b l :
  f a = true -> f b = true -> precedes a b l -> precedes a b (List.filter f l).
Proof.
  intros Ha Hb (l1 & l2 & l3 & ->).
  exists (List.filter f l1), (List.filter f l2), (List.filter f l3).
  rewrite List.filter_app. cbn [List.filter]. rewrite Ha, List.filter_app.
  cbn [List.filter]. rewrite Hb. reflexivity.
Qed.

End Stability.


(** ** C4: the header toggle *)

Section Toggle.

Variable displayEpisodes : list value -> result unit.
Variable h : Host.

Lemma recompute_filtered s visible :
  view h (episodes s) (lower (name (filters s))) (sort s) = Ok visible ->
  filtered (fst (applyFiltersAndSort displayEpisodes h s)) = visible.
Proof.
  intros Hv. unfold applyFiltersAndSort. cbn [episodes filters sort set_focus].
  rewrite Hv. reflexivity.
Qed.

Lemma recompute_keeps s :
  episodes (fst (applyFiltersAndSort displayEpisodes h s)) = episodes s
  /\ filters (fst (applyFiltersAndSort displayEpisodes h s)) = filters s
  /\ sort (fst (applyFiltersAndSort displayEpisodes h s)) = sort s.
Proof.
  unfold applyFiltersAndSort. cbn [episodes filters sort set_focus].
  destruct (view h _ _ _); auto.
Qed.

Lemma click_keeps fld s :
  episodes (on_header_click displayEpisodes h fld s) = episodes s
  /\ filters (on_header_click displayEpisodes h fld s) = filters s
  /\ sort (on_header_click displayEpisodes h fld s) = toggle_sort fld (sort s).
Proof. unfold on_header_click. apply (recompute_keeps (set_sort _ s)). Qed.

Lemma toggle_twice o : toggle_sort (field o) (toggle_sort (field o) o) = o.
Proof.
  unfold toggle_sort. rewrite String.eqb_refl. cbn [field ascending].
  rewrite String.eqb_refl, negb_involutive. destruct o; reflexivity.
Qed.

(** Keys of one kind are totally preordered by the comparison. *)
Lemma three_way_order fld ka kb :
  key_kind fld ka = true -> key_kind fld kb = true ->
  exists c, three_way ka kb = Ok c
            /\ (c <= 0 -> key_leb ka kb = true) /\ (0 < c -> key_leb kb ka = true).
Proof.
  unfold key_kind. destruct (bool_decide _).
  - destruct ka as [| |?|[x| | |]|?|?|?]; try discriminate.
    destruct kb as [| |?|[y| | |]|?|?|?]; try discriminate. intros _ _.
    unfold three_way, gt, lt. cbn.
    destruct (Z.ltb_spec x y); run.
    + eexists. split; [reflexivity|]. split; intros; lia.
    + destruct (Z.ltb_spec y x); eexists; (split; [reflexivity|]); split; intros; lia.
  - destruct ka as [| |?|?|x|?|?]; try discriminate.
    destruct kb as [| |?|?|y|?|?]; try discriminate. intros _ _.
    unfold three_way, gt, lt. cbn -[String.ltb String.leb].
    rewrite (string_gt_iff x y). unfold String.ltb, String.leb.
    rewrite (String.compare_antisym y x).
    destruct (x ?= y)%string; cbn; eexists; (split; [reflexivity|]);
      split; intros; try reflexivity; lia.
Qed.

Lemma key_leb_trans fld ka kb kc :
  key_kind fld ka = true -> key_kind fld kb = true -> key_kind fld kc = true ->
  key_leb ka kb = true -> key_leb kb kc = true -> key_leb ka kc = true.
Proof.
  unfold key_kind. destruct (bool_decide _).
  - destruct ka as [| |?|[x| | |]|?|?|?]; try discriminate.
    destruct kb as [| |?|[y| | |]|?|?|?]; try discriminate.
    destruct kc as [| |?|[z| | |]|?|?|?]; try discriminate. intros _ _ _. cbn.
    rewrite !Z.leb_le. lia.
  - destruct ka as [| |?|?|x|?|?]; try discriminate.
    destruct kb as [| |?|?|y|?|?]; try discriminate.
    destruct kc as [| |?|?|z|?|?]; try discriminate. intros _ _ _. cbn.
    apply string_leb_trans.
Qed.

(** The ascending sort puts the keys in non-decreasing order. *)
Lemma ascending_sorted fld l l' :
  Forall (fun ep => exists k, getSortValue h ep fld = Ok k /\ key_kind fld k = true) l ->
  array_sort (compareEpisodes h fld 1) l = Ok l' ->
  StronglySorted (key_le h fld) l'.
Proof.
  apply array_sort_sorted.
  - intros a b c (ka & Ha & Hka) (kb & Hb & Hkb) (kc & Hc & Hkc).
    intros (ka' & kb' & Ha' & Hb' & Hab) (kb'' & kc' & Hb'' & Hc' & Hbc).
    rewrite Ha in Ha'. rewrite Hb in Hb', Hb''. rewrite Hc in Hc'.
    injection Ha' as <-. injection Hb' as <-. injection Hb'' as <-. injection Hc' as <-.
    exists ka, kc. split; [exact Ha|]. split; [exact Hc|].
    apply (key_leb_trans fld ka kb kc); assumption.
  - intros a b c (ka & Ha & Hka) (kb & Hb & Hkb) Hcmp Hle.
    rewrite (compareEpisodes_keys _ _ _ _ _ _ _ Ha Hb) in Hcmp.
    destruct (three_way_order fld ka kb Hka Hkb) as (c' & Hc' & Hle' & _).
    rewrite Hc' in Hcmp. run. injection Hcmp as <-.
    exists ka, kb. split; [exact Ha|]. split; [exact Hb|]. apply Hle'. lia.
  - intros a b c (ka & Ha & Hka) (kb & Hb & Hkb) Hcmp Hgt.
    rewrite (compareEpisodes_keys _ _ _ _ _ _ _ Ha Hb) in Hcmp.
    destruct (three_way_order fld ka kb Hka Hkb) as (c' & Hc' & _ & Hgt').
    rewrite Hc' in Hcmp. run. injection Hcmp as <-.
    exists kb, ka. split; [exact Hb|]. split; [exact Ha|]. apply Hgt'. lia.
Qed.

Lemma record_ok_kinds fld l :
  Forall (fun ep => record_ok ep = true) l -> Forall (sortable h fld) l ->
  Forall (fun ep => exists k, getSortValue h ep fld = Ok k /\ key_kind fld k = true) l.
Proof.
  rewrite !Forall_forall. intros Hok Hs ep Hep.
  destruct (Hs ep Hep) as (k & Hk & _). exists k. split; [exact Hk|].
  apply (record_ok_key_kind h ep fld k (Hok ep Hep) Hk).
Qed.

End Toggle.

(** C4.  Activating the header of a field G flips the direction when G is
    the current sort field and otherwise makes G the sort field,
    ascending; dataset and filter text stay.  From a state whose visible
    sequence is the one computed from it, activating the header of the
    current sort field twice brings back the sort state and the very same
    visible sequence.  Activating the header of another field always sets
    the direction to ascending, and on records of the data model the
    visible sequence then holds the matching records in ascending order of
    their keys for G. *)
Theorem header_toggle (displayEpisodes : list value -> result unit) (h : Host)
    (s : state) (G : string) :
  let click := on_header_click displayEpisodes h G in
  let ft := lower (name (filters s)) in
  sort (click s)
  = (if decide (G = field (sort s))
     then {| field := G; ascending := negb (ascending (sort s)) |}
     else {| field := G; ascending := true |})
  /\ episodes (click s) = episodes s /\ filters (click s) = filters s
  /\ (G = field (sort s) ->
      view h (episodes s) ft (sort s) = Ok (filtered s) ->
      sort (click (click s)) = sort s /\ filtered (click (click s)) = filtered s)
  /\ (G <> field (sort s) ->
      sort (click s) = {| field := G; ascending := true |}
      /\ (Forall (fun ep => record_ok ep = true) (episodes s) ->
          Forall (sortable h G) (episodes s) ->
          view h (episodes s) ft {| field := G; ascending := true |}
          = Ok (filtered (click s))
          /\ filtered (click s) ≡ₚ List.filter (text_match ft) (episodes s)
          /\ StronglySorted (key_le h G) (filtered (click s)))).
Proof.
  intros click ft. subst click.
  destruct (click_keeps displayEpisodes h G s) as (He & Hf & Hso).
  split.
  { rewrite Hso. unfold toggle_sort.
    destruct (decide (G = field (sort s))) as [->|Hne].
    - rewrite String.eqb_refl. reflexivity.
    - destruct (String.eqb_spec (field (sort s)) G); [congruence | reflexivity]. }
  split; [exact He|]. split; [exact Hf|]. split.
  - intros -> Hv.
    set (s1 := on_header_click displayEpisodes h (field (sort s)) s) in *.
    destruct (click_keeps displayEpisodes h (field (sort s)) s1) as (He2 & Hf2 & Hso2).
    assert (Hback : toggle_sort (field (sort s)) (sort s1) = sort s).
    { rewrite Hso. apply toggle_twice. }
    split; [rewrite Hso2; exact Hback|].
    unfold on_header_click at 1. apply recompute_filtered.
    cbn [episodes filters sort set_sort]. rewrite He, Hf, Hback. exact Hv.
  - intros Hne.
    assert (Hto : toggle_sort G (sort s) = {| field := G; ascending := true |}).
    { unfold toggle_sort. destruct (String.eqb_spec (field (sort s)) G); [congruence | reflexivity]. }
    split; [rewrite Hso; exact Hto|].
    intros Hok Hs.
    destruct (view_returns h (episodes s) ft {| field := G; ascending := true |} Hok Hs)
      as (visible & Hv & Hsort & Hp).
    assert (filtered (on_header_click displayEpisodes h G s) = visible) as ->.
    { unfold on_header_click. apply recompute_filtered.
      cbn [episodes filters sort set_sort]. rewrite Hto. exact Hv. }
    split; [exact Hv|]. split; [exact Hp|].
    cbn [field ascending] in Hsort.
    eapply ascending_sorted; [|exact Hsort].
    apply record_ok_kinds.
    + rewrite Forall_forall in Hok |- *.
      intros ep Hep%list_elem_of_In%List.filter_In. apply Hok, list_elem_of_In, Hep.
    + apply sortable_filtered, Hs.
Qed.

(** Title twice from the title order; title from the rank order. *)
Lemma header_toggle_witness :
  let s0 := fst (applyFiltersAndSort display_ok utc_host (set_episodes [rose; blink] initial_state)) in
  let by_title := on_header_click display_ok utc_host "title" s0 in
  filtered s0 = [rose; blink]
  /\ filtered by_title = [blink; rose]
  /\ sort by_title = {| field := "title"; ascending := true |}
  /\ StronglySorted (key_le utc_host "title") (filtered by_title)
  /\ filtered (on_header_click display_ok utc_host "title"
                 (on_header_click display_ok utc_host "title" by_title))
     = filtered by_title.
Proof.
  intros s0 by_title.
  destruct (header_toggle display_ok utc_host s0 "title") as (_ & _ & _ & _ & Hother).
  destruct Hother as (Hasc & Hsorted); [discriminate|].
  destruct Hsorted as (_ & _ & Hsorted).
  { repeat constructor. }
  { repeat constructor; apply record_ok_sortable; auto. }
  destruct (header_toggle display_ok utc_host by_title "title") as (_ & _ & _ & Hsame & _).
  destruct Hsame as (_ & Hback); [reflexivity | reflexivity |].
  split; [reflexivity|]. split; [reflexivity|].
  split; [exact Hasc|]. split; [exact Hsorted | exact Hback].
Defined.

(** Two activations of the header of a field that is not the sort field
    end in descending order of that field. *)
Example header_twice_other_field :
  let s0 := fst (applyFiltersAndSort display_ok utc_host (set_episodes [blink; rose] initial_state)) in
  let twice := on_header_click display_ok utc_host "title"
                 (on_header_click display_ok utc_host "title" s0) in
  filtered s0 = [blink; rose]
  /\ sort twice = {| field := "title"; ascending := false |}
  /\ filtered twice = [rose; blink].
Proof. repeat split. Qed.

(** ** C8: the focus index *)

Section Focus.

Variable displayEpisodes : list value -> result unit.
Variable h : Host.

Lemma recompute_focus s : focusedRowIndex (fst (applyFiltersAndSort displayEpisodes h s)) = -1.
Proof.
  unfold applyFiltersAndSort.
  destruct (view h _ _ _); reflexivity.
Qed.

Lemma recompute_in_range s : focus_in_range (fst (applyFiltersAndSort displayEpisodes h s)).
Proof. unfold focus_in_range. rewrite recompute_focus. lia. Qed.

Lemma move_focus_in_range dir s : focus_in_range s -> focus_in_range (move_focus dir s).
Proof.
  unfold focus_in_range, move_focus. intros H.
  destruct (Z.of_nat (length (filtered s)) =? 0) eqn:E; [exact H|].
  apply Z.eqb_neq in E. cbn. lia.
Qed.

Lemma key_in_range e s : focus_in_range s -> focus_in_range (handleKeyboardNavigation displayEpisodes h e s).
Proof.
  intros H. unfold handleKeyboardNavigation.
  set (s1 := if (key e =? "Enter")%string then _ else s).
  assert (focus_in_range s1) as H1.
  { subst s1. destruct (key e =? "Enter")%string; [|exact H].
    destruct (active_header e); [apply recompute_in_range | exact H]. }
  destruct (_ || _); [apply move_focus_in_range|]; exact H1.
Qed.

Lemma load_state fetch w :
  app (loadEpisodes displayEpisodes h fetch w) = app w
  \/ exists s, app (loadEpisodes displayEpisodes h fetch w) = fst (applyFiltersAndSort displayEpisodes h s).
Proof.
  unfold loadEpisodes, load_try.
  destruct (all_responses _); [|left; reflexivity].
  destruct (check_responses _); [|left; reflexivity].
  destruct (all_json _); [|left; reflexivity].
  destruct (flat_episodes _) as [eps|]; [|left; reflexivity].
  destruct (validateData h eps) as [ws|]; [|left; reflexivity].
  right. exists (set_episodes eps (app w)).
  destruct (0 <? length ws)%nat; cbn [app dom];
    destruct (applyFiltersAndSort displayEpisodes h _) as [s r]; destruct r; reflexivity.
Qed.

Lemma reachable_in_range s : reachable displayEpisodes h s -> focus_in_range s.
Proof.
  induction 1 as [|s fetch p _ IH|s e s' _ IH Hstep].
  - unfold focus_in_range; cbn; lia.
  - destruct (load_state fetch {| app := s; dom := p |}) as [-> | [s0 ->]].
    + exact IH.
    + apply recompute_in_range.
  - destruct Hstep as [s text|s fld|s e|s index Hi].
    + apply recompute_in_range.
    + apply recompute_in_range.
    + apply key_in_range, IH.
    + unfold focus_in_range, on_row_click; cbn. lia.
Qed.

End Focus.

(** C8.  In every state the application can reach the focus index lies
    between -1 and the last position of the visible sequence.  Every
    recomputation (a change of the filter text, a header activation)
    resets it to -1; an arrow key moves it by one and clamps it to
    [0, visibleCount-1], and does nothing when nothing is visible, so that
    up from 0 and down from the last position leave it unchanged. *)
Theorem focus_index_invariant (displayEpisodes : list value -> result unit) (h : Host)
    (s : state) :
  reachable displayEpisodes h s ->
  focus_in_range s
  /\ focusedRowIndex (fst (applyFiltersAndSort displayEpisodes h s)) = -1
  /\ (forall text, focusedRowIndex (on_filter_input displayEpisodes h text s) = -1)
  /\ (forall fld, focusedRowIndex (on_header_click displayEpisodes h fld s) = -1)
  /\ (let n := Z.of_nat (length (filtered s)) in
      let down := handleKeyboardNavigation displayEpisodes h (arrow "ArrowDown") s in
      let up := handleKeyboardNavigation displayEpisodes h (arrow "ArrowUp") s in
      (n = 0 -> down = s /\ up = s)
      /\ (n <> 0 ->
          focusedRowIndex down = Z.max 0 (Z.min (n - 1) (focusedRowIndex s + 1))
          /\ focusedRowIndex up = Z.max 0 (Z.min (n - 1) (focusedRowIndex s - 1))
          /\ filtered down = filtered s /\ filtered up = filtered s)
      /\ (focusedRowIndex s = 0 -> focusedRowIndex up = 0)
      /\ (focusedRowIndex s = n - 1 -> focusedRowIndex down = n - 1)).
Proof.
  intros Hr. pose proof (reachable_in_range _ _ _ Hr) as Hin.
  split; [exact Hin|]. split; [apply recompute_focus|].
  split; [intros; apply recompute_focus|]. split; [intros; apply recompute_focus|].
  unfold focus_in_range in Hin.
  cbv zeta. unfold handleKeyboardNavigation, arrow, move_focus. cbn [key active_header].
  change ("ArrowDown" =? "Enter")%string with false.
  change ("ArrowUp" =? "Enter")%string with false.
  change ("ArrowDown" =? "ArrowDown")%string with true.
  change ("ArrowUp" =? "ArrowDown")%string with false.
  change ("ArrowUp" =? "ArrowUp")%string with true.
  cbn [orb].
  destruct (Z.of_nat (length (filtered s)) =? 0) eqn:E.
  - apply Z.eqb_eq in E. repeat split; try reflexivity; try lia.
  - apply Z.eqb_neq in E. cbn [focusedRowIndex filtered set_focus].
    repeat split; try reflexivity; try lia.
Qed.

(** Two records are loaded and the down key is pressed three times: the
    focus goes from -1 to 0 and 1, and stays at 1. *)
Lemma focus_index_invariant_witness :
  let down := handleKeyboardNavigation display_ok utc_host (arrow "ArrowDown") in
  let loaded := app (loadEpisodes display_ok utc_host fetch_all initial_world) in
  focusedRowIndex loaded = -1
  /\ focusedRowIndex (down loaded) = 0
  /\ focusedRowIndex (down (down loaded)) = 1
  /\ focus_in_range (down (down loaded))
  /\ focusedRowIndex (down (down (down loaded))) = 1.
Proof.
  intros down loaded.
  assert (Hr : reachable display_ok utc_host (down (down loaded))).
  { eapply reach_step; [eapply reach_step; [|apply step_key] | apply step_key].
    apply (reach_load display_ok utc_host initial_state fetch_all (dom initial_world)).
    apply reach_init. }
  destruct (focus_index_invariant display_ok utc_host _ Hr) as (Hin & _ & _ & _ & Hkeys).
  cbv zeta in Hkeys. destruct Hkeys as (_ & _ & _ & Hlast).
  split; [reflexivity|]. split; [reflexivity|]. split; [reflexivity|].
  split; [exact Hin|]. exact (Hlast eq_refl).
Defined.

(** ** C9: the loader *)

Section Loader.

Variable displayEpisodes : list value -> result unit.
Variable h : Host.

Lemma loading_cleared fetch w :
  loading_display (dom (loadEpisodes displayEpisodes h fetch w)) = "none".
Proof.
  unfold loadEpisodes. destruct (load_try displayEpisodes h fetch w) as [w' r].
  reflexivity.
Qed.

Lemma check_responses_first_failure before r after :
  Forall (fun x => ok x = true) before -> ok r = false ->
  check_responses (before ++ r :: after) = Throw (fetch_failure r).
Proof.
  induction 1 as [|x before Hx _ IH]; intros Hr; cbn.
  - rewrite Hr. reflexivity.
  - rewrite Hx. apply IH, Hr.
Qed.

Lemma check_responses_all_ok rs :
  Forall (fun x => ok x = true) rs -> check_responses rs = Ok ().
Proof. induction 1 as [|x rs Hx _ IH]; cbn; [|rewrite Hx]; auto. Qed.

Lemma load_not_ok fetch w responses before r after :
  all_responses (fetch <$> DATA_URLS) = Ok responses ->
  responses = (before ++ r :: after)%list ->
  Forall (fun x => ok x = true) before -> ok r = false ->
  loadEpisodes displayEpisodes h fetch w
  = {| app := app w;
       dom := showLoading false
                (showError (message (fetch_failure r)) (showLoading true (dom w))) |}.
Proof.
  intros Hall -> Hb Hr. unfold loadEpisodes, load_try.
  rewrite Hall, (check_responses_first_failure _ _ _ Hb Hr). reflexivity.
Qed.

End Loader.

Lemma append_assoc_str (a b c : string) : (a +:+ b) +:+ c = a +:+ b +:+ c.
Proof. induction a as [|x a IH]; cbn; [|rewrite IH]; reflexivity. Qed.

(** C9 (amended).  However the load ends, the loading indicator is hidden
    when it ends.  When every fetch brought a response and one of them is
    not ok, the load stops at the first such response: the error banner is
    shown with a text that carries the URL and the status text of that
    response, no response body has been given to the JSON parser, and the
    application state is as it was. *)
Theorem load_clears_loading (displayEpisodes : list value -> result unit) (h : Host)
    (fetch : string -> fetched) (w : world) :
  loading_display (dom (loadEpisodes displayEpisodes h fetch w)) = "none"
  /\ forall responses before r after,
       all_responses (fetch <$> DATA_URLS) = Ok responses ->
       responses = (before ++ r :: after)%list ->
       Forall (fun x => ok x = true) before -> ok r = false ->
       let w' := loadEpisodes displayEpisodes h fetch w in
       error_display (dom w') = "block"
       /\ error_text (dom w')
          = userMessage +:+ String newline "Details: "
            +:+ "Network fetch failure from " +:+ url r +:+ " (" +:+ statusText r +:+ ")"
       /\ includes (error_text (dom w')) (url r) = true
       /\ includes (error_text (dom w')) (statusText r) = true
       /\ json_calls (dom w') = json_calls (dom w)
       /\ app w' = app w.
Proof.
  split; [apply loading_cleared|].
  intros responses before r after Hall Hsplit Hb Hr w'. subst w'.
  rewrite (load_not_ok _ _ _ _ _ _ _ _ Hall Hsplit Hb Hr).
  cbn [dom app showLoading showError error_display error_text json_calls
       message fetch_failure].
  repeat split.
  - apply includes_substring.
    exists (userMessage +:+ String newline "Details: " +:+ "Network fetch failure from "),
           (" (" +:+ statusText r +:+ ")").
    rewrite !append_assoc_str. reflexivity.
  - apply includes_substring.
    exists (userMessage +:+ String newline "Details: " +:+ "Network fetch failure from "
            +:+ url r +:+ " ("), ")".
    rewrite !append_assoc_str. reflexivity.
Qed.

(** The second source answers 404: the banner names it and its status. *)
Lemma load_clears_loading_witness :
  let w' := loadEpisodes display_ok utc_host fetch_second_missing initial_world in
  loading_display (dom w') = "none"
  /\ error_text (dom w')
     = userMessage +:+ String newline "Details: "
       +:+ "Network fetch failure from " +:+ second_url +:+ " (Not Found)"
  /\ json_calls (dom w') = [].
Proof.
  destruct (load_clears_loading display_ok utc_host fetch_second_missing initial_world)
    as [Hl Hf].
  specialize (Hf _
                 [found first_url (Obj [("episodes", Arr [rose; blink])])]
                 (not_found second_url)
                 (map (fun u => found u (Obj [("episodes", Arr [])])) (drop 2 DATA_URLS))
                 eq_refl eq_refl
                 ltac:(repeat constructor) eq_refl).
  cbv zeta in *. destruct Hf as (_ & Ht & _ & _ & Hj & _).
  split; [exact Hl|]. split; [exact Ht | exact Hj].
Defined.

(** The loader on the other two networks. *)
Example load_success :
  let w' := loadEpisodes display_ok utc_host fetch_all initial_world in
  loading_display (dom w') = "none" /\ error_display (dom w') = "none"
  /\ episodes (app w') = [rose; blink]
  /\ filtered (app w') = [rose; blink]
  /\ length (console (dom w')) = 1%nat.
Proof. vm_compute. repeat split. Qed.

Example load_offline :
  let w' := loadEpisodes display_ok utc_host fetch_offline initial_world in
  loading_display (dom w') = "none" /\ error_display (dom w') = "block"
  /\ app w' = initial_state.
Proof. vm_compute. repeat split. Qed.

(** The claim as stated fails when a response that is not ok meets a
    rejected fetch: the rejection ends the joint wait, its reason is what
    the banner shows, and the source that answered 404 is not named. *)
Lemma load_rejection_hides_status :
  let w' := loadEpisodes display_ok utc_host fetch_missing_and_offline initial_world in
  fetch_missing_and_offline first_url = Resolved (not_found first_url)
  /\ ok (not_found first_url) = false
  /\ error_text (dom w') = userMessage +:+ String newline "Details: Failed to fetch"
  /\ includes (error_text (dom w')) first_url = false
  /\ includes (error_text (dom w')) "Not Found" = false
  /\ loading_display (dom w') = "none".
Proof. vm_compute. repeat split. Qed.

(** ** The calendar and the year of a date *)

Section Calendar.

Ltac zdiv := Z.to_euclidean_division_equations; lia.

Lemma DayFromYear_mono y y' : y <= y' -> DayFromYear y <= DayFromYear y'.
Proof. unfold DayFromYear. intros. zdiv. Qed.

(** [YearFromDay] is the year of ECMAScript's [YearFromTime]: the one
    whose days include [day]. *)
Lemma YearFromDay_spec day :
  DayFromYear (YearFromDay day) <= day < DayFromYear (YearFromDay day + 1).
Proof.
  unfold YearFromDay.
  set (g := 1970 + day * 400 / 146097).
  assert (DayFromYear (g - 1) <= day < DayFromYear (g + 2)) as H.
  { subst g. unfold DayFromYear. zdiv. }
  destruct (Z.leb_spec (DayFromYear (g + 1)) day).
  - replace (g + 1 + 1) with (g + 2) by lia. lia.
  - destruct (Z.leb_spec (DayFromYear g) day).
    + lia.
    + replace (g - 1 + 1) with g by lia. lia.
Qed.

Lemma YearFromDay_unique y day :
  DayFromYear y <= day < DayFromYear (y + 1) -> YearFromDay day = y.
Proof.
  intros H. pose proof (YearFromDay_spec day) as S.
  destruct (Z.lt_trichotomy (YearFromDay day) y) as [Hlt|[Heq|Hgt]]; [|exact Heq|].
  - pose proof (DayFromYear_mono (YearFromDay day + 1) y ltac:(lia)). lia.
  - pose proof (DayFromYear_mono (y + 1) (YearFromDay day) ltac:(lia)). lia.
Qed.

Lemma YearFromTime_in_year y t :
  DayFromYear y * msPerDay <= t < DayFromYear (y + 1) * msPerDay ->
  YearFromTime t = y.
Proof.
  intros H. unfold YearFromTime. apply YearFromDay_unique.
  unfold msPerDay in *. zdiv.
Qed.

Lemma day_of_year_start y : day_of_month_start y 0 = DayFromYear y.
Proof.
  unfold day_of_month_start, DayFromYear.
  change (0 + 1 <=? 2) with true. cbv iota.
  change ((153 * ((0 + 1 + 9) mod 12) + 2) / 5) with 306. zdiv.
Qed.

Lemma DayFromYear_step y : DayFromYear y + 365 <= DayFromYear (y + 1).
Proof. unfold DayFromYear. zdiv. Qed.

(** The days of a month lie in its year. *)
Lemma day_in_year y m d :
  0 <= m <= 11 -> 1 <= d <= days_in_month y m ->
  DayFromYear y <= day_of_month_start y m + d - 1 < DayFromYear (y + 1).
Proof.
  intros Hm Hd.
  pose proof (DayFromYear_step y) as Hstep.
  rewrite <- (day_of_year_start y) in *. rewrite <- (day_of_year_start (y + 1)) in *.
  assert (d <= 31) as Hd31.
  { unfold days_in_month in Hd. destruct (m =? 1); [destruct (leap_year y); lia|].
    destruct (_ || _); lia. }
  assert (m = 0 \/ m = 1 \/ 2 <= m) as [-> | [-> | Hm2]] by lia.
  - lia.
  - assert (day_of_month_start y 1 = day_of_month_start y 0 + 31) as ->; [|lia].
    unfold day_of_month_start.
    change (1 + 1 <=? 2) with true. change (0 + 1 <=? 2) with true. cbv iota.
    change ((153 * ((1 + 1 + 9) mod 12) + 2) / 5) with 337.
    change ((153 * ((0 + 1 + 9) mod 12) + 2) / 5) with 306. lia.
  - assert (day_of_month_start y m
            = day_of_month_start (y + 1) 0 - 306 + (153 * (m - 2) + 2) / 5) as ->.
    { unfold day_of_month_start.
      destruct (Z.leb_spec (m + 1) 2); [lia|].
      replace ((m + 1 + 9) mod 12) with (m - 2) by zdiv.
      change (0 + 1 <=? 2) with true. cbv iota.
      change ((153 * ((0 + 1 + 9) mod 12) + 2) / 5) with 306.
      replace (y + 1 - 1) with y by lia. lia. }
    assert (59 <= (153 * (m - 2) + 2) / 5 + 59
            /\ (153 * (m - 2) + 2) / 5 + days_in_month y m <= 306) as [Hlo Hhi].
    { assert (m = 2 \/ m = 3 \/ m = 4 \/ m = 5 \/ m = 6 \/ m = 7
              \/ m = 8 \/ m = 9 \/ m = 10 \/ m = 11) as Hcase by lia.
      repeat (destruct Hcase as [-> | Hcase]); [.. | subst m];
        split; vm_compute; discriminate. }
    lia.
Qed.

End Calendar.

Section SlashDates.

Variable h : Host.

Lemma digit_not_slash c : is_digit c = true -> Ascii.eqb c slash = false.
Proof. destruct c as [[] [] [] [] [] [] [] []]; cbn; try discriminate; auto. Qed.

Lemma split_digits ds r :
  all_digits ds = true -> split slash (ds +:+ String slash r) = ds :: split slash r.
Proof.
  induction ds as [|c ds IH]; intros Hd.
  - cbn [String.append split]. rewrite Ascii.eqb_refl. reflexivity.
  - cbn [all_digits] in Hd. apply andb_prop in Hd as [Hc Hd].
    cbn [String.append split]. rewrite (digit_not_slash c Hc), (IH Hd). reflexivity.
Qed.

Lemma split_digits_last ys : all_digits ys = true -> split slash ys = [ys].
Proof.
  induction ys as [|c ys IH]; intros Hd; [reflexivity|].
  cbn [all_digits] in Hd. apply andb_prop in Hd as [Hc Hd].
  cbn [split]. rewrite (digit_not_slash c Hc), (IH Hd). reflexivity.
Qed.

(** A text with a slash is no four-digit year. *)
Lemma slash_not_year s : includes s (String slash EmptyString) = true -> is_year s = false.
Proof.
  intros Hi. unfold is_year. apply andb_false_intro2.
  induction s as [|c s IH]; [discriminate|].
  cbn [includes] in Hi. cbn [all_digits].
  destruct (is_digit c) eqn:Hc; [|reflexivity]. cbn [andb].
  apply orb_prop in Hi as [Hp | Hi]; [|exact (IH Hi)].
  cbn [String.prefix] in Hp. destruct (ascii_dec slash c) as [<-|]; discriminate.
Qed.

Lemma normalizeDate_slash s :
  includes s (String slash EmptyString) = true ->
  normalizeDate h (Str s)
  = (mn ← ToNumber (slash_part 1 s);
     yn ← ToNumber (slash_part 2 s);
     dn ← ToNumber (slash_part 0 s);
     Ok (Some (Date_ymd h yn (minus mn 1) dn))).
Proof.
  intros Hi. unfold normalizeDate.
  assert (truthy (Str s) = true) as -> by (destruct s; [discriminate | reflexivity]).
  cbn [negb ToString mbind result_bind]. rewrite (slash_not_year s Hi).
  cbn [includes_slash mbind result_bind]. rewrite Hi.
  cbn [split_slash mbind result_bind]. reflexivity.
Qed.

Lemma slash_part_number k s : exists n, ToNumber (slash_part k s) = Ok n.
Proof.
  unfold slash_part.
  destruct (nth_in_or_default k (Str <$> split slash s) Undefined) as [Hin | ->];
    [|cbn; eauto].
  apply list_elem_of_In, list_elem_of_fmap in Hin as (t & -> & _). cbn. eauto.
Qed.

End SlashDates.

Section Years.

Variable h : Host.
Variable z : Zone.

(** The zone turns back what [utc] did, and lies within a day of UTC. *)
Hypothesis local_utc : forall t, local_time z (utc h t) = t.
Hypothesis near_utc : forall t, Z.abs (utc h t - t) <= msPerDay.

Lemma getFullYear_of_day y day :
  DayFromYear y <= day < DayFromYear (y + 1) -> Z.abs day <= 99999999 ->
  getFullYear z (MkDate (TimeClip (Fin (utc h (day * msPerDay))))) = Fin y.
Proof.
  intros Hy Hday. pose proof (near_utc (day * msPerDay)) as Hnear.
  unfold getFullYear, TimeClip. cbn [getTime].
  destruct (Z.leb_spec (Z.abs (utc h (day * msPerDay))) 8640000000000000) as [_|Hbig].
  - rewrite local_utc. f_equal. apply YearFromTime_in_year.
    unfold msPerDay in *. lia.
  - unfold msPerDay in *. lia.
Qed.

Lemma digit_range c : is_digit c = true -> 0 <= Z.of_N (N_of_ascii c) - 48 <= 9.
Proof.
  unfold is_digit. intros [H1%N.leb_le H2%N.leb_le]%andb_prop. lia.
Qed.

Lemma year_range s : is_year s = true -> 0 <= digits_value 0 s <= 9999.
Proof.
  unfold is_year. intros [Hlen Hd]%andb_prop.
  destruct s as [|a [|b [|c [|d [|e s]]]]]; try discriminate.
  cbn [all_digits] in Hd.
  apply andb_prop in Hd as [Ha Hd]. apply andb_prop in Hd as [Hb Hd].
  apply andb_prop in Hd as [Hc Hd]. apply andb_prop in Hd as [Hd _].
  apply digit_range in Ha, Hb, Hc, Hd. cbn [digits_value]. lia.
Qed.

Lemma DayFromYear_range y : 0 <= y <= 10000 -> Z.abs (DayFromYear y) <= 99999999.
Proof. intros Hy. unfold DayFromYear. Z.to_euclidean_division_equations. lia. Qed.

Lemma getYear_year s :
  is_year s = true ->
  getYear h z (Str s)
  = Ok (Num (Fin (let y := digits_value 0 s in if y <? 100 then 1900 + y else y))).
Proof.
  intros Hs. unfold getYear. rewrite (normalizeDate_year h s Hs). run.
  pose proof (year_range s Hs) as Hr. cbv zeta.
  set (y := if digits_value 0 s <? 100 then 1900 + digits_value 0 s else digits_value 0 s).
  assert (0 <= y <= 9999) as Hy by (subst y; destruct (Z.ltb_spec (digits_value 0 s) 100); lia).
  rewrite day_of_year_start. rewrite (getFullYear_of_day y); [reflexivity| |].
  - pose proof (DayFromYear_step y). lia.
  - apply DayFromYear_range. lia.
Qed.

Lemma getFullYear_ymd y m d :
  100 <= y <= 9999 -> 0 <= m <= 11 -> 1 <= d <= days_in_month y m ->
  getFullYear z (Date_ymd h (Fin y) (Fin m) (Fin d)) = Fin y.
Proof.
  intros Hy Hm Hd. unfold Date_ymd.
  assert ((0 <=? y) && (y <=? 99) = false) as ->
    by (apply andb_false_intro2, Z.leb_gt; lia).
  cbn [MakeDay].
  replace (m / 12) with 0 by (Z.to_euclidean_division_equations; lia).
  replace (m mod 12) with m by (Z.to_euclidean_division_equations; lia).
  rewrite Z.add_0_r.
  pose proof (day_in_year y m d Hm Hd) as Hin.
  pose proof (DayFromYear_range y ltac:(lia)).
  pose proof (DayFromYear_range (y + 1) ltac:(lia)).
  apply getFullYear_of_day; lia.
Qed.

End Years.

(** X1.  A text of three groups of digits separated by slashes is read
    as day, month and year, whatever the numbers: no exception, never
    [null], and no range check.  A month beyond 12 or a day beyond the
    end of the month rolls over into the following months, and a year
    below 100 lands in the twentieth century. *)
Theorem normalizeDate_day_month_year (h : Host) (ds ms ys : string) :
  ds <> "" -> ms <> "" -> ys <> "" ->
  all_digits ds = true -> all_digits ms = true -> all_digits ys = true ->
  let d := digits_value 0 ds in
  let m := digits_value 0 ms in
  let y := digits_value 0 ys in
  let year := if (0 <=? y) && (y <=? 99) then 1900 + y else y in
  normalizeDate h (Str (ds +:+ String slash (ms +:+ String slash ys)))
  = Ok (Some (Date_ymd h (Fin y) (Fin (m - 1)) (Fin d)))
  /\ getTime (Date_ymd h (Fin y) (Fin (m - 1)) (Fin d))
     = TimeClip (Fin (utc h ((day_of_month_start (year + (m - 1) / 12) ((m - 1) mod 12)
                              + d - 1) * msPerDay))).
Proof.
  intros Hd0 Hm0 Hy0 Hd Hm Hy d m y year. split.
  - assert (includes (ds +:+ String slash (ms +:+ String slash ys))
                     (String slash EmptyString) = true) as Hi.
    { apply includes_substring. exists ds, (ms +:+ String slash ys). reflexivity. }
    rewrite (normalizeDate_slash h _ Hi). unfold slash_part.
    rewrite (split_digits ds _ Hd), (split_digits ms _ Hm), (split_digits_last ys Hy).
    cbn [fmap list_fmap nth ToNumber mbind result_bind].
    rewrite (StringToNumber_digits ms Hm0 Hm), (StringToNumber_digits ys Hy0 Hy),
      (StringToNumber_digits ds Hd0 Hd).
    reflexivity.
  - unfold Date_ymd. subst year. destruct ((0 <=? y) && (y <=? 99)); reflexivity.
Qed.

(** 31 February 2007 is taken for 3 March 2007, and month 13 of 1999 for
    January 2000. *)
Lemma normalizeDate_day_month_year_witness :
  normalizeDate utc_host (Str "31/02/2007")
  = Ok (Some (MkDate (Fin ((day_of_month_start 2007 2 + 2) * msPerDay))))
  /\ normalizeDate utc_host (Str "01/13/1999")
     = Ok (Some (MkDate (Fin (day_of_month_start 2000 0 * msPerDay)))).
Proof.
  destruct (normalizeDate_day_month_year utc_host "31" "02" "2007") as [H1 _];
    try discriminate; try reflexivity.
  destruct (normalizeDate_day_month_year utc_host "01" "13" "1999") as [H2 _];
    try discriminate; try reflexivity.
  split; [exact H1 | exact H2].
Defined.

(** X2.  In a zone whose local time is the inverse of [utc] and lies
    within a day of UTC, the year of a four-digit text is the number it
    spells, except that a text below 0100 gives that number plus 1900. *)
Theorem getYear_four_digits (h : Host) (z : Zone) (s : string) :
  (forall t, local_time z (utc h t) = t) ->
  (forall t, Z.abs (utc h t - t) <= msPerDay) ->
  is_year s = true ->
  let y := digits_value 0 s in
  getYear h z (Str s) = Ok (Num (Fin (if y <? 100 then 1900 + y else y))).
Proof. intros Hl Hn Hs y. exact (getYear_year h z Hl Hn s Hs). Qed.

Lemma getYear_four_digits_witness :
  getYear cet_host cet_zone (Str "1963") = Ok (Num (Fin 1963))
  /\ getYear cet_host cet_zone (Str "0050") = Ok (Num (Fin 1950)).
Proof.
  assert (forall t, local_time cet_zone (utc cet_host t) = t) as Hl by (intros t; cbn; lia).
  assert (forall t, Z.abs (utc cet_host t - t) <= msPerDay) as Hn
    by (intros t; cbn; unfold msPerDay; lia).
  split.
  - exact (getYear_four_digits cet_host cet_zone "1963" Hl Hn eq_refl).
  - exact (getYear_four_digits cet_host cet_zone "0050" Hl Hn eq_refl).
Defined.

(** X3.  In such a zone the year of a day/month/year text with a month
    from 1 to 12, a day of that month and a year from 100 to 9999 is
    that year: the last day of December does not slip into the next
    year, nor the first of January into the one before. *)
Theorem getYear_day_month_year (h : Host) (z : Zone) (ds ms ys : string) :
  (forall t, local_time z (utc h t) = t) ->
  (forall t, Z.abs (utc h t - t) <= msPerDay) ->
  ds <> "" -> ms <> "" -> ys <> "" ->
  all_digits ds = true -> all_digits ms = true -> all_digits ys = true ->
  let d := digits_value 0 ds in
  let m := digits_value 0 ms in
  let y := digits_value 0 ys in
  100 <= y <= 9999 -> 1 <= m <= 12 -> 1 <= d <= days_in_month y (m - 1) ->
  getYear h z (Str (ds +:+ String slash (ms +:+ String slash ys))) = Ok (Num (Fin y)).
Proof.
  intros Hl Hn Hd0 Hm0 Hy0 Hd Hm Hy d m y Hyr Hmr Hdr.
  unfold getYear.
  assert (includes (ds +:+ String slash (ms +:+ String slash ys))
                   (String slash EmptyString) = true) as Hi.
  { apply includes_substring. exists ds, (ms +:+ String slash ys). reflexivity. }
  rewrite (normalizeDate_slash h _ Hi). unfold slash_part.
  rewrite (split_digits ds _ Hd), (split_digits ms _ Hm), (split_digits_last ys Hy).
  cbn [fmap list_fmap nth ToNumber mbind result_bind].
  rewrite (StringToNumber_digits ms Hm0 Hm), (StringToNumber_digits ys Hy0 Hy),
    (StringToNumber_digits ds Hd0 Hd).
  cbn [minus]. fold d m y.
  rewrite (getFullYear_ymd h z Hl Hn y (m - 1) d); [reflexivity | lia | lia | exact Hdr].
Qed.

Lemma getYear_day_month_year_witness :
  getYear cet_host cet_zone (Str "31/12/1999") = Ok (Num (Fin 1999))
  /\ getYear cet_host cet_zone (Str "01/01/2000") = Ok (Num (Fin 2000))
  /\ getYear cet_host cet_zone (Str "29/02/2024") = Ok (Num (Fin 2024)).
Proof.
  assert (forall t, local_time cet_zone (utc cet_host t) = t) as Hl by (intros t; cbn; lia).
  assert (forall t, Z.abs (utc cet_host t - t) <= msPerDay) as Hn
    by (intros t; cbn; unfold msPerDay; lia).
  split; [|split].
  - apply (getYear_day_month_year cet_host cet_zone "31" "12" "1999" Hl Hn);
      try discriminate; try reflexivity; vm_compute; split; discriminate.
  - apply (getYear_day_month_year cet_host cet_zone "01" "01" "2000" Hl Hn);
      try discriminate; try reflexivity; vm_compute; split; discriminate.
  - apply (getYear_day_month_year cet_host cet_zone "29" "02" "2024" Hl Hn);
      try discriminate; try reflexivity; vm_compute; split; discriminate.
Defined.

Section NotNumeric.

Lemma trim_left_head t c r : trim_left t = String c r -> is_space c = false.
Proof.
  induction t as [|a t IH]; [discriminate|]. cbn [trim_left].
  destruct (is_space a) eqn:Ha; [exact IH|]. intros [= <- _]. exact Ha.
Qed.

Lemma trim_right_head c r :
  is_space c = false -> exists r', trim_right (String c r) = String c r'.
Proof.
  intros Hc. cbn [trim_right]. destruct (trim_right r); [rewrite Hc|]; eauto.
Qed.

(** Such a part converts to NaN. *)
Lemma not_numeric_NaN v : not_numeric v = true -> ToNumber v = Ok NaN.
Proof.
  destruct v as [| |?|?|t|?|?]; try discriminate; [reflexivity|].
  cbn [not_numeric ToNumber]. unfold StringToNumber.
  destruct (trim_left t) as [|c r] eqn:Ht; [discriminate|].
  intros H. apply negb_true_iff in H.
  apply orb_false_elim in H as [H HI]. apply orb_false_elim in H as [H Hpoint].
  apply orb_false_elim in H as [H Hminus]. apply orb_false_elim in H as [Hdigit Hplus].
  destruct (trim_right_head c r (trim_left_head t c r Ht)) as [r' ->].
  rewrite Hminus, Hplus. unfold unsigned_literal.
  assert ((String c r' =? "Infinity")%string = false) as ->.
  { cbn [String.eqb]. change "I"%char with (ascii_of_N 73). rewrite HI. reflexivity. }
  cbn [all_digits]. rewrite Hdigit, andb_false_r. reflexivity.
Qed.

End NotNumeric.

(** X4.  When one of the three parts of a text with a slash is missing
    or begins, after its white space, with a character that can start no
    numeric literal, [normalizeDate] returns an invalid date, [getYear]
    returns NaN for it instead of N/A, and both the table cell and the
    CSV field of the year read NaN. *)
Theorem getYear_invalid_slash_date (h : Host) (z : Zone) (s : string) (k : nat) :
  includes s (String slash EmptyString) = true ->
  (k < 3)%nat ->
  not_numeric (slash_part k s) = true ->
  normalizeDate h (Str s) = Ok (Some (MkDate NaN))
  /\ getYear h z (Str s) = Ok (Num NaN)
  /\ (y ← getYear h z (Str s); createCell y) = Ok "NaN"
  /\ (y ← getYear h z (Str s); escapeCSV y) = Ok "NaN".
Proof.
  intros Hi Hk Hnan%not_numeric_NaN.
  assert (normalizeDate h (Str s) = Ok (Some (MkDate NaN))) as Hn.
  { rewrite (normalizeDate_slash h s Hi).
    destruct (slash_part_number 0 s) as (dn & Hd).
    destruct (slash_part_number 1 s) as (mn & Hm).
    destruct (slash_part_number 2 s) as (yn & Hy).
    rewrite Hd, Hm, Hy. run. do 2 f_equal.
    assert (k = 0 \/ k = 1 \/ k = 2)%nat as [-> | [-> | ->]] by lia.
    - rewrite Hnan in Hd. injection Hd as <-. unfold Date_ymd.
      destruct (match yn with Fin y => _ | _ => yn end) as [?| | |];
        destruct (minus mn 1); reflexivity.
    - rewrite Hnan in Hm. injection Hm as <-. unfold Date_ymd.
      destruct (match yn with Fin y => _ | _ => yn end) as [?| | |]; reflexivity.
    - rewrite Hnan in Hy. injection Hy as <-. reflexivity. }
  split; [exact Hn|]. unfold getYear. rewrite Hn. repeat split.
Qed.

Lemma getYear_invalid_slash_date_witness :
  getYear utc_host utc_zone (Str "12/1963") = Ok (Num NaN)
  /\ getYear utc_host utc_zone (Str "n/a") = Ok (Num NaN).
Proof.
  split.
  - apply (getYear_invalid_slash_date utc_host utc_zone "12/1963" 2); [reflexivity | lia |].
    reflexivity.
  - apply (getYear_invalid_slash_date utc_host utc_zone "n/a" 0); [reflexivity | lia |].
    reflexivity.
Defined.

(** ** The validator on a whole pass *)

Section Pass.

Variable h : Host.

Lemma pass_warnings_snoc l x :
  pass_warnings h (l ++ [x]) = (pass_warnings h l ++ record_warnings h l (length l) x)%list.
Proof.
  unfold pass_warnings. rewrite imap_app, concat_app. cbn [imap concat].
  rewrite app_nil_r, Nat.add_0_r, take_app_length. f_equal. f_equal.
  apply imap_ext. intros i ep Hi. cbn.
  rewrite take_app_le; [reflexivity|]. apply lookup_lt_Some in Hi. lia.
Qed.

Lemma pass_warnings_app l1 l2 :
  pass_warnings h (l1 ++ l2)
  = (pass_warnings h l1
     ++ concat (imap (fun j ep => record_warnings h (l1 ++ take j l2) (length l1 + j) ep) l2))%list.
Proof.
  unfold pass_warnings. rewrite imap_app, concat_app. f_equal.
  - f_equal. apply imap_ext. intros i ep Hi. cbn.
    rewrite take_app_le; [reflexivity|]. apply lookup_lt_Some in Hi. lia.
  - f_equal. apply imap_ext. intros j ep _. cbn. rewrite take_app_add. reflexivity.
Qed.

(** The validator returns exactly on the passable records, with the
    warnings of the pass. *)
Lemma validateData_passable eps :
  (forall i ep, eps !! i = Some ep -> passable h i ep) ->
  validateData h eps = Ok (pass_warnings h eps).
Proof.
  intros Hpass. unfold validateData.
  destruct (forEach_validate h eps {| warnings := []; seenRanks := ∅ |} [])
    as (s' & Hrun & Hw).
  - exact Hpass.
  - intros r. cbn. rewrite elem_of_empty, elem_of_nil. tauto.
  - cbn [length] in Hrun. rewrite Hrun. run. rewrite Hw. reflexivity.
Qed.

Lemma filter_concat {A} (f : A -> bool) (ls : list (list A)) :
  List.filter f (concat ls) = concat (List.filter f <$> ls).
Proof.
  induction ls as [|l ls IH]; [reflexivity|].
  cbn [concat fmap list_fmap]. rewrite List.filter_app, IH. reflexivity.
Qed.

Lemma rank_seen (l : list value) (r : Z) :
  Some r ∈ finite_rank <$> l <-> r ∈ (list_to_set (omap finite_rank l) : gset Z).
Proof.
  rewrite elem_of_list_to_set, list_elem_of_omap, list_elem_of_fmap.
  split; intros (ep & H1 & H2); exists ep; auto.
Qed.

(** One duplicate warning for every finite rank beyond the first record
    that has it. *)
Lemma duplicate_count eps :
  (forall i ep, eps !! i = Some ep -> passable h i ep) ->
  (length (List.filter is_duplicate_warning (pass_warnings h eps))
   + size (list_to_set (omap finite_rank eps) : gset Z))%nat
  = length (omap finite_rank eps).
Proof.
  induction eps as [|x l IH] using rev_ind; intros Hpass; [reflexivity|].
  rewrite pass_warnings_snoc, List.filter_app, length_app, omap_app, length_app.
  rewrite list_to_set_app_L.
  assert (forall i ep, l !! i = Some ep -> passable h i ep) as Hl.
  { intros i ep Hi. apply Hpass. rewrite lookup_app_l; [exact Hi|].
    apply lookup_lt_Some in Hi. exact Hi. }
  specialize (IH Hl).
  destruct (Hpass (length l) x) as (_ & [id Hid] & _).
  { rewrite lookup_app_r, Nat.sub_diag by lia. reflexivity. }
  destruct (episode_id_shape _ _ _ Hid) as [t ->].
  rewrite (duplicates_of_block h l (length l) x t Hid).
  cbn [omap list_omap]. destruct (finite_rank x) as [r|].
  - cbn [list_to_set foldr length]. destruct (bool_decide _) eqn:Hseen.
    + apply bool_decide_eq_true, rank_seen in Hseen.
      rewrite union_empty_r_L, (union_comm_L _ {[r]}).
      rewrite subseteq_union_1_L by (apply singleton_subseteq_l, Hseen).
      cbn [length]. lia.
    + apply bool_decide_eq_false in Hseen. rewrite rank_seen in Hseen.
      rewrite union_empty_r_L, size_union by (apply disjoint_singleton_r, Hseen).
      rewrite size_singleton. cbn [length]. lia.
  - cbn [list_to_set length]. rewrite union_empty_r_L. lia.
Qed.

Lemma concat_nil_iff {A} (ls : list (list A)) :
  concat ls = [] <-> Forall (fun l => l = []) ls.
Proof.
  induction ls as [|l ls IH]; cbn [concat].
  - split; [constructor | reflexivity].
  - split.
    + intros [-> Hr]%app_eq_nil. constructor; [reflexivity | apply IH, Hr].
    + intros H. inversion H; subst. cbn. apply IH. assumption.
Qed.

Lemma clean_block earlier i ep id :
  episode_id ep i = Ok id ->
  record_warnings h earlier i ep = [] <-> clean_record h earlier ep = true.
Proof.
  intros Hid. unfold record_warnings, clean_record. rewrite Hid.
  unfold rule_missing, rule_future, rule_rank, rule_series, requiredFields.
  cbn [flat_map forallb].
  destruct (is_missing (prop ep "rank")), (is_missing (prop ep "title")),
    (is_missing (prop ep "era")), (is_missing (prop ep "broadcast_date"));
    cbn [negb andb app]; try (split; discriminate).
  destruct (normalizeDate h (prop ep "broadcast_date")) as [[d|]|];
    [destruct (date_gt d (clock h))| |]; cbn [negb andb app]; try (split; discriminate).
  all: destruct (finite_rank ep) as [r|];
    [destruct (bool_decide _)|]; cbn [negb andb app]; try (split; discriminate).
  all: destruct (prop ep "series") as [| |?|n|?|?|?];
    try destruct (number_ltb n (Fin 0)); cbn [negb andb app];
    split; try discriminate; reflexivity.
Qed.

Lemma pass_clean eps :
  (forall i ep, eps !! i = Some ep -> passable h i ep) ->
  pass_warnings h eps = []
  <-> forall i ep, eps !! i = Some ep -> clean_record h (take i eps) ep = true.
Proof.
  intros Hpass. unfold pass_warnings. rewrite concat_nil_iff, Forall_lookup.
  split.
  - intros H i ep Hi. destruct (Hpass i ep Hi) as (_ & [id Hid] & _).
    apply (clean_block _ i ep id Hid). apply (H i).
    rewrite list_lookup_imap, Hi. reflexivity.
  - intros H i b. rewrite list_lookup_imap.
    destruct (eps !! i) as [ep|] eqn:Hi; [|discriminate]. cbn. intros [= <-].
    destruct (Hpass i ep Hi) as (_ & [id Hid] & _).
    apply (clean_block _ i ep id Hid). apply H, Hi.
Qed.

Lemma normalizeDate_no_includes v :
  truthy v = true -> has_includes v = false ->
  (forall t, ToString v = Ok t -> is_year t = false) ->
  exists e, normalizeDate h v = Throw e.
Proof.
  intros Ht Hi Hy. unfold normalizeDate. rewrite Ht. cbn [negb].
  destruct (ToString v) as [t|e] eqn:Hs; [|cbn; eauto]. run.
  rewrite (Hy t eq_refl).
  destruct v; try discriminate; cbn; eauto.
Qed.

End Pass.

(** X5.  The validator works through the records from left to right
    and only ever appends: the warnings for a dataset begin with the
    warnings for any of its prefixes, and the rest are the blocks of the
    remaining records, judged against all the records before them. *)
Theorem validateData_prefix (h : Host) (l1 l2 : list value) (ws : list string) :
  validateData h (l1 ++ l2) = Ok ws ->
  exists ws1,
    validateData h l1 = Ok ws1
    /\ ws = (ws1 ++ concat (imap (fun j ep =>
                                    record_warnings h (l1 ++ take j l2) (length l1 + j) ep)
                                 l2))%list.
Proof.
  intros Hrun. destruct (validateData_blocks h _ _ Hrun) as [-> Hpass].
  exists (pass_warnings h l1). split.
  - apply validateData_passable. intros i ep Hi. apply Hpass.
    rewrite lookup_app_l; [exact Hi|]. apply lookup_lt_Some in Hi. exact Hi.
  - apply pass_warnings_app.
Qed.

Lemma validateData_prefix_witness :
  validateData utc_host ([rose] ++ [blink])
  = Ok [duplicate_rank_msg (Fin 5) ("Episode " +:+ dq +:+ "Blink)" +:+ dq)]
  /\ exists ws1,
       validateData utc_host [rose] = Ok ws1
       /\ [duplicate_rank_msg (Fin 5) ("Episode " +:+ dq +:+ "Blink)" +:+ dq)]
          = (ws1 ++ concat (imap (fun j ep =>
                                    record_warnings utc_host ([rose] ++ take j [blink])
                                                    (length [rose] + j) ep)
                                 [blink]))%list.
Proof.
  split; [reflexivity|].
  exact (validateData_prefix utc_host [rose] [blink] _ eq_refl).
Defined.

(** X6.  The number of duplicate-rank warnings is the number of records
    with a finite rank minus the number of distinct finite ranks: each
    rank is reported once for every record that repeats it. *)
Theorem validateData_duplicate_count (h : Host) (eps : list value) (ws : list string) :
  validateData h eps = Ok ws ->
  (length (List.filter is_duplicate_warning ws)
   + size (list_to_set (omap finite_rank eps) : gset Z))%nat
  = length (omap finite_rank eps).
Proof.
  intros Hrun. destruct (validateData_blocks h _ _ Hrun) as [-> Hpass].
  apply (duplicate_count h eps Hpass).
Qed.

Lemma validateData_duplicate_count_witness :
  let eps := [rose; blink; untold; rose] in
  exists ws,
    validateData utc_host eps = Ok ws
    /\ length (List.filter is_duplicate_warning ws) = 2%nat
    /\ length (omap finite_rank eps) = 3%nat
    /\ (length (List.filter is_duplicate_warning ws)
        + size (list_to_set (omap finite_rank eps) : gset Z))%nat
       = length (omap finite_rank eps).
Proof.
  intros eps.
  destruct (validateData utc_host eps) as [ws|e] eqn:Hrun;
    [|vm_compute in Hrun; discriminate].
  exists ws. split; [reflexivity|].
  pose proof (validateData_duplicate_count utc_host eps ws Hrun) as Hcount.
  vm_compute in Hrun. injection Hrun as <-.
  split; [reflexivity|]. split; [reflexivity | exact Hcount].
Defined.

(** X7.  Whenever the validator returns, it returns no warning exactly
    when every record has its four required fields, no date after the
    clock, a finite rank that no earlier record has, and no negative
    series number. *)
Theorem validateData_clean (h : Host) (eps : list value) (ws : list string) :
  validateData h eps = Ok ws ->
  ws = [] <-> forall i ep, eps !! i = Some ep -> clean_record h (take i eps) ep = true.
Proof.
  intros Hrun. destruct (validateData_blocks h _ _ Hrun) as [-> Hpass].
  apply (pass_clean h eps Hpass).
Qed.

Lemma validateData_clean_witness :
  validateData utc_host [rose] = Ok []
  /\ forall i ep, [rose] !! i = Some ep -> clean_record utc_host (take i [rose]) ep = true.
Proof.
  split; [reflexivity|].
  apply (validateData_clean utc_host [rose] [] eq_refl). reflexivity.
Defined.

(** X8.  A broadcast date that is truthy, is neither a text nor an
    array and does not read as four digits (a number such as 20050430,
    [true], an object) makes [normalizeDate] throw: such values have no
    [includes] method.  The exception is not caught on the way: one such
    record makes the validator throw for the whole dataset, and its
    year and its date sort key cannot be computed either. *)
Theorem validateData_date_not_text (h : Host) (v : value) :
  truthy v = true -> has_includes v = false ->
  (forall t, ToString v = Ok t -> is_year t = false) ->
  (exists e, normalizeDate h v = Throw e)
  /\ (forall z, exists e, getYear h z v = Throw e)
  /\ (forall ep, nullish ep = false -> prop ep "broadcast_date" = v ->
        exists e, getSortValue h ep "broadcast_date" = Throw e)
  /\ (forall eps ep, ep ∈ eps -> prop ep "broadcast_date" = v ->
        exists e, validateData h eps = Throw e).
Proof.
  intros Ht Hi Hy.
  destruct (normalizeDate_no_includes h v Ht Hi Hy) as [e He].
  split; [eauto|]. split; [|split].
  - intros z. unfold getYear. rewrite He. cbn. eauto.
  - intros ep Hep Hv. unfold getSortValue. cbn [String.eqb Ascii.eqb Bool.eqb].
    rewrite (get_present _ _ Hep), Hv. run. rewrite He. cbn. eauto.
  - intros eps ep [i Hi']%list_elem_of_lookup_1 Hv.
    destruct (validateData h eps) as [ws|e'] eqn:Hrun; [|eauto].
    destruct (validateData_blocks h _ _ Hrun) as [_ Hpass].
    destruct (Hpass i ep Hi') as (_ & _ & [d Hd]). rewrite Hv, He in Hd. discriminate.
Qed.

Lemma validateData_date_not_text_witness :
  (exists e, normalizeDate utc_host (Num (Fin 20050430)) = Throw e)
  /\ exists e, validateData utc_host [rose; numeric_date] = Throw e.
Proof.
  destruct (validateData_date_not_text utc_host (Num (Fin 20050430))) as (H1 & _ & _ & H2);
    [reflexivity | reflexivity | intros t [= <-]; reflexivity |].
  split; [exact H1|].
  apply (H2 [rose; numeric_date] numeric_date); [|reflexivity].
  apply list_elem_of_In. right. left. reflexivity.
Defined.

(** ** Narrowing the filter; the order of the view *)

Section FilterTexts.

Lemma lower_ascii_idem c : lower_ascii (lower_ascii c) = lower_ascii c.
Proof. destruct c as [[] [] [] [] [] [] [] []]; reflexivity. Qed.

Lemma lower_idem s : lower (lower s) = lower s.
Proof.
  induction s as [|c s IH]; cbn; [reflexivity|]. rewrite lower_ascii_idem, IH. reflexivity.
Qed.

(** A text that holds a needle holds every part of the needle. *)
Lemma includes_part s x n y :
  includes s (x +:+ n +:+ y) = true -> includes s n = true.
Proof.
  intros (a & b & ->)%includes_substring. apply includes_substring.
  exists (a +:+ x), (y +:+ b). rewrite !append_assoc_str. reflexivity.
Qed.

Lemma text_match_part x n y ep :
  text_match (x +:+ n +:+ y) ep = true -> text_match n ep = true.
Proof.
  unfold text_match. rewrite !orb_true_iff.
  intros [[[[H|H]|H]|H]|H]; apply includes_part in H; auto.
Qed.

Lemma filter_narrow {A} (p q : A -> bool) l :
  (forall a, p a = true -> q a = true) ->
  List.filter p l = List.filter p (List.filter q l).
Proof.
  intros Himp. induction l as [|a l IH]; [reflexivity|]. cbn [List.filter].
  destruct (p a) eqn:Hp.
  - rewrite (Himp a Hp). cbn [List.filter]. rewrite Hp, IH. reflexivity.
  - destruct (q a); cbn [List.filter]; rewrite ?Hp; exact IH.
Qed.

Lemma filter_length_le {A} (p : A -> bool) l : (length (List.filter p l) <= length l)%nat.
Proof.
  induction l as [|a l IH]; [reflexivity|]. cbn [List.filter].
  destruct (p a); cbn [length]; lia.
Qed.

End FilterTexts.

(** Sorting and filtering commute when the comparator follows a total
    preorder: the stable sort of the selected elements is the selection
    from the stable sort. *)
Section SortThenFilter.

Variable cmp : value -> value -> result Z.
Variable le : value -> value -> Prop.
Variable dom_ : value -> Prop.
Hypothesis le_trans : forall a b c, dom_ a -> dom_ b -> dom_ c -> le a b -> le b c -> le a c.
Hypothesis cmp_returns : forall a b, dom_ a -> dom_ b -> exists c, cmp a b = Ok c.
Hypothesis cmp_le : forall a b c, dom_ a -> dom_ b -> cmp a b = Ok c -> (c <= 0 <-> le a b).
Hypothesis cmp_gt : forall a b c, dom_ a -> dom_ b -> cmp a b = Ok c -> 0 < c -> le b a.
Variable q : value -> bool.

Lemma sort_insert_first x l :
  dom_ x -> Forall dom_ l -> Forall (le x) l -> sort_insert cmp x l = Ok (x :: l).
Proof.
  intros Hx Hl Hle. destruct l as [|y r]; [reflexivity|].
  inversion Hl; subst. inversion Hle; subst.
  destruct (cmp_returns x y) as [c Hc]; [assumption..|].
  cbn [sort_insert]. rewrite Hc. run.
  assert (c <= 0) as Hc0 by (apply (cmp_le x y c); assumption).
  destruct (Z.leb_spec c 0); [reflexivity | lia].
Qed.

Lemma sort_insert_filter x l l' :
  dom_ x -> Forall dom_ l -> StronglySorted le l ->
  sort_insert cmp x l = Ok l' ->
  if q x then sort_insert cmp x (List.filter q l) = Ok (List.filter q l')
  else List.filter q l' = List.filter q l.
Proof.
  intros Hx. revert l'. induction l as [|y r IH]; intros l' Hl Hs Hins.
  - cbn in Hins. injection Hins as <-. cbn [List.filter]. destruct (q x); reflexivity.
  - inversion Hl as [|? ? Hy Hr]; subst. inversion Hs as [|? ? Hsr Hyr]; subst.
    cbn [sort_insert] in Hins.
    destruct (cmp x y) as [c|] eqn:Hc; [|discriminate]. run.
    destruct (Z.leb_spec c 0) as [Hc0|Hc0].
    + injection Hins as <-. cbn [List.filter]. destruct (q x) eqn:Hqx; [|reflexivity].
      apply sort_insert_first; [exact Hx| |].
      * rewrite Forall_forall in *. intros e He%list_elem_of_In.
        change (In e (List.filter q (y :: r))) in He.
        apply List.filter_In in He as [He _]. apply list_elem_of_In in He.
        inversion He; subst; auto.
      * assert (le x y) as Hxy by (apply (cmp_le x y c); assumption).
        rewrite Forall_forall in *. intros e He%list_elem_of_In.
        change (In e (List.filter q (y :: r))) in He.
        apply List.filter_In in He as [He _]. apply list_elem_of_In in He.
        inversion He; subst; [exact Hxy|].
        apply (le_trans x y e); auto.
    + destruct (sort_insert cmp x r) as [r'|] eqn:Hr'; [|discriminate]. run.
      injection Hins as <-. specialize (IH r' Hr Hsr eq_refl).
      cbn [List.filter]. destruct (q x) eqn:Hqx.
      * destruct (q y); [|exact IH].
        cbn [sort_insert]. rewrite Hc. run.
        destruct (Z.leb_spec c 0); [lia|]. rewrite IH. reflexivity.
      * rewrite IH. reflexivity.
Qed.

Lemma array_sort_filter l l' :
  Forall dom_ l -> array_sort cmp l = Ok l' ->
  array_sort cmp (List.filter q l) = Ok (List.filter q l').
Proof.
  revert l'. induction l as [|x r IH]; intros l' Hl Hsort.
  - cbn in Hsort. injection Hsort as <-. reflexivity.
  - inversion Hl as [|? ? Hx Hr]; subst. cbn [array_sort] in Hsort.
    destruct (array_sort cmp r) as [r'|] eqn:Hr'; [|discriminate]. run.
    specialize (IH r' Hr eq_refl).
    assert (Forall dom_ r') as Hdr'.
    { rewrite Forall_forall in *. intros e He. apply Hr.
      rewrite <- (array_sort_perm cmp r r' Hr'). exact He. }
    assert (StronglySorted le r') as Hsr'.
    { apply (array_sort_sorted cmp le dom_ le_trans) with (l := r); try assumption.
      intros a b c Ha Hb Hc Hc0. apply (cmp_le a b c); assumption. }
    pose proof (sort_insert_filter x r' l' Hx Hdr' Hsr' Hsort) as Hins.
    cbn [List.filter]. destruct (q x).
    + cbn [array_sort]. rewrite IH. run. exact Hins.
    + rewrite IH, Hins. reflexivity.
Qed.

End SortThenFilter.

Section ViewOrder.

Variable h : Host.

(** The three-way comparison decides the order of two keys of one kind,
    in both directions. *)
Lemma three_way_leb fld ka kb :
  key_kind fld ka = true -> key_kind fld kb = true ->
  exists c, three_way ka kb = Ok c
            /\ (c <= 0 <-> key_leb ka kb = true) /\ (0 <= c <-> key_leb kb ka = true).
Proof.
  unfold key_kind. destruct (bool_decide _).
  - destruct ka as [| |?|[x| | |]|?|?|?]; try discriminate.
    destruct kb as [| |?|[y| | |]|?|?|?]; try discriminate. intros _ _.
    unfold three_way, gt, lt. cbn.
    destruct (Z.ltb_spec x y); run.
    + eexists. split; [reflexivity|]. rewrite !Z.leb_le. lia.
    + destruct (Z.ltb_spec y x); eexists; (split; [reflexivity|]); rewrite !Z.leb_le; lia.
  - destruct ka as [| |?|?|x|?|?]; try discriminate.
    destruct kb as [| |?|?|y|?|?]; try discriminate. intros _ _.
    unfold three_way, gt, lt. cbn -[String.ltb String.leb].
    rewrite (string_gt_iff x y). unfold String.ltb, String.leb.
    rewrite (String.compare_antisym y x).
    destruct (x ?= y)%string; cbn; eexists; (split; [reflexivity|]);
      split; split; intros; try reflexivity; try discriminate; lia.
Qed.

Lemma view_le_trans o a b c :
  keyed h (field o) a -> keyed h (field o) b -> keyed h (field o) c ->
  view_le h o a b -> view_le h o b c -> view_le h o a c.
Proof.
  intros (ka & Ha & Hka) (kb & Hb & Hkb) (kc & Hc & Hkc). unfold view_le, key_le.
  destruct (ascending o).
  - intros (ka' & kb' & Ha' & Hb' & Hab) (kb'' & kc' & Hb'' & Hc' & Hbc).
    rewrite Ha in Ha'. rewrite Hb in Hb', Hb''. rewrite Hc in Hc'.
    injection Ha' as <-. injection Hb' as <-. injection Hb'' as <-. injection Hc' as <-.
    exists ka, kc. split; [exact Ha|]. split; [exact Hc|].
    apply (key_leb_trans (field o) ka kb kc); assumption.
  - intros (kb' & ka' & Hb' & Ha' & Hba) (kc' & kb'' & Hc' & Hb'' & Hcb).
    rewrite Ha in Ha'. rewrite Hb in Hb', Hb''. rewrite Hc in Hc'.
    injection Ha' as <-. injection Hb' as <-. injection Hb'' as <-. injection Hc' as <-.
    exists kc, ka. split; [exact Hc|]. split; [exact Ha|].
    apply (key_leb_trans (field o) kc kb ka); assumption.
Qed.

(** The comparator of the view against the order of the view. *)
Lemma compare_view_le o a b :
  keyed h (field o) a -> keyed h (field o) b ->
  exists c, compareEpisodes h (field o) (direction_of o) a b = Ok c
            /\ (c <= 0 <-> view_le h o a b) /\ (0 < c -> view_le h o b a).
Proof.
  intros (ka & Ha & Hka) (kb & Hb & Hkb).
  rewrite (compareEpisodes_keys h _ _ _ _ _ _ Ha Hb).
  destruct (three_way_leb (field o) ka kb Hka Hkb) as (c & -> & Hle & Hge). run.
  exists (c * direction_of o). split; [reflexivity|].
  assert (forall x y kx ky, getSortValue h x (field o) = Ok kx ->
            getSortValue h y (field o) = Ok ky ->
            (key_le h (field o) x y <-> key_leb kx ky = true)) as Hkey.
  { intros x y kx ky Hx Hy. unfold key_le. split.
    - intros (kx' & ky' & Hx' & Hy' & H). congruence.
    - intros H. exists kx, ky. auto. }
  unfold view_le, direction_of. destruct (ascending o).
  - rewrite (Hkey a b ka kb Ha Hb), (Hkey b a kb ka Hb Ha), <- Hle, <- Hge.
    split; [|intros]; lia.
  - rewrite (Hkey a b ka kb Ha Hb), (Hkey b a kb ka Hb Ha), <- Hle, <- Hge.
    split; [|intros]; lia.
Qed.

Lemma view_sorted o l l' :
  Forall (keyed h (field o)) l ->
  array_sort (compareEpisodes h (field o) (direction_of o)) l = Ok l' ->
  StronglySorted (view_le h o) l'.
Proof.
  apply array_sort_sorted.
  - apply view_le_trans.
  - intros a b c Ha Hb Hc Hc0.
    destruct (compare_view_le o a b Ha Hb) as (c' & Hc' & Hle & _).
    rewrite Hc in Hc'. injection Hc' as <-. apply Hle, Hc0.
  - intros a b c Ha Hb Hc Hc0.
    destruct (compare_view_le o a b Ha Hb) as (c' & Hc' & _ & Hgt).
    rewrite Hc in Hc'. injection Hc' as <-. apply Hgt, Hc0.
Qed.

Lemma view_sort_filter o (q : value -> bool) l l' :
  Forall (keyed h (field o)) l ->
  array_sort (compareEpisodes h (field o) (direction_of o)) l = Ok l' ->
  array_sort (compareEpisodes h (field o) (direction_of o)) (List.filter q l)
  = Ok (List.filter q l').
Proof.
  apply (array_sort_filter _ (view_le h o) (keyed h (field o))).
  - apply view_le_trans.
  - intros a b Ha Hb. destruct (compare_view_le o a b Ha Hb) as (c & Hc & _). eauto.
  - intros a b c Ha Hb Hc.
    destruct (compare_view_le o a b Ha Hb) as (c' & Hc' & Hle & _).
    rewrite Hc in Hc'. injection Hc' as <-. exact Hle.
  - intros a b c Ha Hb Hc Hc0.
    destruct (compare_view_le o a b Ha Hb) as (c' & Hc' & _ & Hgt).
    rewrite Hc in Hc'. injection Hc' as <-. apply Hgt, Hc0.
Qed.

(** The records of the data model shown under a filter text are keyed. *)
Lemma shown_keyed fld ft eps :
  Forall (fun ep => record_ok ep = true) eps -> Forall (sortable h fld) eps ->
  Forall (keyed h fld) (List.filter (text_match ft) eps).
Proof.
  intros Hok Hs. apply (record_ok_kinds h).
  - rewrite Forall_forall in Hok |- *.
    intros ep Hep%list_elem_of_In%List.filter_In. apply Hok, list_elem_of_In, Hep.
  - apply sortable_filtered, Hs.
Qed.

Lemma StronglySorted_rev (R : value -> value -> Prop) l :
  StronglySorted R l -> StronglySorted (fun a b => R b a) (rev l).
Proof.
  induction 1 as [|x l Hl IH Hx]; [constructor|]. cbn [rev].
  apply StronglySorted_app_2; [|exact IH | repeat constructor].
  intros a b Ha%list_elem_of_In%List.in_rev%list_elem_of_In Hb.
  apply list_elem_of_singleton in Hb. subst b.
  rewrite Forall_forall in Hx. apply Hx, Ha.
Qed.

End ViewOrder.

(** ** C3: the stable order is the only one *)

Section StableOrder.

Variable h : Host.

Lemma string_leb_antisym a b :
  String.leb a b = true -> String.leb b a = true -> a = b.
Proof.
  unfold String.leb. intros H1 H2. rewrite (String.compare_antisym b a) in H2.
  destruct (a ?= b)%string eqn:E; try discriminate.
  apply String.compare_eq_iff, E.
Qed.

Lemma key_leb_antisym fld ka kb :
  key_kind fld ka = true -> key_kind fld kb = true ->
  key_leb ka kb = true -> key_leb kb ka = true -> key_eqb ka kb = true.
Proof.
  unfold key_kind. destruct (bool_decide _).
  - destruct ka as [| |?|[x| | |]|?|?|?]; try discriminate.
    destruct kb as [| |?|[y| | |]|?|?|?]; try discriminate. intros _ _. cbn.
    rewrite !Z.leb_le, Z.eqb_eq. lia.
  - destruct ka as [| |?|?|x|?|?]; try discriminate.
    destruct kb as [| |?|?|y|?|?]; try discriminate. intros _ _. cbn.
    intros H1 H2. apply String.eqb_eq, string_leb_antisym; assumption.
Qed.

Lemma key_eqb_refl fld k : key_kind fld k = true -> key_eqb k k = true.
Proof.
  unfold key_kind. destruct (bool_decide _).
  - destruct k as [| |?|[x| | |]|?|?|?]; try discriminate. intros _. apply Z.eqb_refl.
  - destruct k as [| |?|?|x|?|?]; try discriminate. intros _. apply String.eqb_refl.
Qed.

(** Two records that come no later than each other have one key. *)
Lemma view_le_same_key o a b :
  keyed h (field o) a -> keyed h (field o) b ->
  view_le h o a b -> view_le h o b a ->
  exists k, has_key h (field o) k a = true /\ has_key h (field o) k b = true.
Proof.
  intros (ka & Ha & Hka) (kb & Hb & Hkb) Hab Hba.
  assert (key_leb ka kb = true /\ key_leb kb ka = true) as [H1 H2].
  { unfold view_le, key_le in Hab, Hba.
    destruct (ascending o);
      destruct Hab as (k1 & k2 & E1 & E2 & L1), Hba as (k3 & k4 & E3 & E4 & L2);
      split; congruence. }
  exists ka. unfold has_key. rewrite Ha, Hb.
  split; [apply (key_eqb_refl (field o)), Hka|].
  apply (key_leb_antisym (field o)); assumption.
Qed.

(** Records of the data model have one stable sorted arrangement:
    whatever stable sort the engine runs, its result is this one. *)
Lemma stable_sorted_unique o l1 : forall l2,
  Forall (keyed h (field o)) l1 -> l1 ≡ₚ l2 ->
  StronglySorted (view_le h o) l1 -> StronglySorted (view_le h o) l2 ->
  (forall k, List.filter (has_key h (field o) k) l1
             = List.filter (has_key h (field o) k) l2) ->
  l1 = l2.
Proof.
  induction l1 as [|x1 l1 IH]; intros l2 Hk Hp Hs1 Hs2 Hst.
  - symmetry. apply Permutation_nil. exact Hp.
  - destruct l2 as [|x2 l2]; [symmetry in Hp; apply Permutation_nil in Hp; discriminate|].
    inversion Hk as [|? ? Hx1 Hk1]; subst.
    inversion Hs1 as [|? ? Hs1' Hle1]; subst. inversion Hs2 as [|? ? Hs2' Hle2]; subst.
    assert (x1 = x2) as <-.
    { assert (x2 ∈ x1 :: l1) as H2 by (rewrite Hp; left).
      assert (x1 ∈ x2 :: l2) as H1 by (rewrite <- Hp; left).
      apply elem_of_cons in H2 as [H2|H2]; [congruence|].
      apply elem_of_cons in H1 as [H1|H1]; [congruence|].
      rewrite Forall_forall in Hle1, Hle2, Hk1.
      destruct (view_le_same_key o x1 x2 Hx1 (Hk1 x2 H2) (Hle1 x2 H2) (Hle2 x1 H1))
        as (k & Hk1' & Hk2').
      specialize (Hst k). cbn [List.filter] in Hst. rewrite Hk1', Hk2' in Hst.
      congruence. }
    f_equal. apply IH; try assumption.
    + apply Permutation_cons_inv in Hp. exact Hp.
    + intros k. specialize (Hst k). cbn [List.filter] in Hst.
      destruct (has_key h (field o) k x1); congruence.
Qed.

End StableOrder.

(** C3.  On records of the data model the view engine returns, and the
    visible sequence is the records that pass the filter, rearranged so
    that the keys of the sort field are in the order of the direction
    and the records with one and the same key keep the order they had
    after filtering: of two such records the one that came first still
    comes first.  There is one such arrangement only, so the result does
    not depend on which stable sort the engine runs.  The comparator is
    the three-way comparison of the two keys, negated exactly when the
    direction is descending. *)
Theorem sort_is_stable (h : Host) (eps : list value) (ft : string) (o : sort_state) :
  (Forall (fun ep => record_ok ep = true) eps ->
   Forall (sortable h (field o)) eps ->
   exists visible shown,
     view h eps ft o = Ok visible
     /\ filterM (matchesFilter ft) eps = Ok shown
     /\ visible ≡ₚ shown
     /\ StronglySorted (view_le h o) visible
     /\ (forall k, List.filter (has_key h (field o) k) visible
                   = List.filter (has_key h (field o) k) shown)
     /\ (forall k a b,
           has_key h (field o) k a = true -> has_key h (field o) k b = true ->
           precedes a b shown -> precedes a b visible)
     /\ (forall l,
           l ≡ₚ shown -> StronglySorted (view_le h o) l ->
           (forall k, List.filter (has_key h (field o) k) l
                      = List.filter (has_key h (field o) k) shown) ->
           l = visible))
  /\ (forall a b ka kb,
        getSortValue h a (field o) = Ok ka -> getSortValue h b (field o) = Ok kb ->
        compareEpisodes h (field o) (if ascending o then 1 else -1) a b
        = (c ← three_way ka kb; Ok (if ascending o then c else - c))).
Proof.
  split.
  - intros Hok Hs.
    destruct (view_returns h eps ft o Hok Hs) as (visible & Hv & Hsort & Hperm).
    destruct (view_inv h _ _ _ _ Hv) as [Hf _].
    pose proof (shown_keyed h (field o) ft eps Hok Hs) as Hkeyed.
    exists visible, (List.filter (text_match ft) eps).
    split; [exact Hv|]. split; [exact Hf|]. split; [exact Hperm|].
    assert (Hsorted : StronglySorted (view_le h o) visible)
      by (apply (view_sorted h o _ _ Hkeyed Hsort)).
    split; [exact Hsorted|].
    assert (Hst : forall k, List.filter (has_key h (field o) k) visible
                            = List.filter (has_key h (field o) k)
                                (List.filter (text_match ft) eps)).
    { intros k. eapply array_sort_stable; [|exact Hsort].
      intros x y c. apply same_key_equal. }
    split; [exact Hst|]. split.
    + intros k a b Ha Hb Hpre. apply (precedes_filter (has_key h (field o) k)).
      rewrite Hst. apply filter_precedes; assumption.
    + intros l Hl Hls Hlst. apply (stable_sorted_unique h o); try assumption.
      * rewrite Forall_forall in Hkeyed |- *. intros ep Hep. apply Hkeyed.
        rewrite <- Hl. exact Hep.
      * rewrite Hl, Hperm. reflexivity.
      * intros k. rewrite Hlst, Hst. reflexivity.
  - intros a b ka kb Ha Hb. rewrite (compareEpisodes_keys _ _ _ _ _ _ _ Ha Hb).
    destruct (three_way ka kb) as [c|]; [|reflexivity]. run.
    destruct (ascending o); f_equal; lia.
Qed.

(** Two records of rank 5 keep their order, ascending and descending. *)
Lemma sort_is_stable_witness :
  view utc_host [rose; blink] "" {| field := "rank"; ascending := true |}
  = Ok [rose; blink]
  /\ view utc_host [rose; blink] "" {| field := "rank"; ascending := false |}
     = Ok [rose; blink]
  /\ precedes rose blink [rose; blink].
Proof.
  split; [reflexivity|]. split; [reflexivity|].
  destruct (sort_is_stable utc_host [rose; blink] "" {| field := "rank"; ascending := false |})
    as [H _].
  destruct H as (visible & shown & Hv & Hf & _ & _ & _ & Hpre & _).
  { repeat constructor. }
  { repeat constructor; apply record_ok_sortable; auto. }
  injection Hv as <-. injection Hf as <-.
  apply (Hpre (Str "5") rose blink eq_refl eq_refl).
  exists [], [], []. reflexivity.
Defined.

(** X9.  Narrowing the filter only removes rows.  When the lower-case
    form of the new filter text contains the lower-case form of the
    former one, the new text matches no record the former did not match;
    whenever both views return, the new one is no longer than the old
    one and shows only records of it; and on records of the data model
    the new view is the old view without the records that no longer
    match, in the same order. *)
Theorem filter_narrowing (display : list value -> result unit) (h : Host)
    (s : state) (t t' : string) :
  includes (lower t') (lower t) = true ->
  let wide := filtered (on_filter_input display h t s) in
  let narrow := filtered (on_filter_input display h t' s) in
  let ft := lower t in
  let ft' := lower t' in
  (forall ep, text_match ft' ep = true -> text_match ft ep = true)
  /\ (forall v v',
        view h (episodes s) ft (sort s) = Ok v ->
        view h (episodes s) ft' (sort s) = Ok v' ->
        wide = v /\ narrow = v'
        /\ (length v' <= length v)%nat /\ forall ep, ep ∈ v' -> ep ∈ v)
  /\ (Forall (fun ep => record_ok ep = true) (episodes s) ->
      Forall (sortable h (field (sort s))) (episodes s) ->
      narrow = List.filter (text_match ft') wide
      /\ (length narrow <= length wide)%nat).
Proof.
  intros Hpart wide narrow ft ft'.
  assert (Himp : forall ep, text_match ft' ep = true -> text_match ft ep = true).
  { intros ep. subst ft ft'. apply includes_substring in Hpart as (a & b & ->).
    apply text_match_part. }
  assert (Hwide : forall v, view h (episodes s) ft (sort s) = Ok v -> wide = v).
  { intros v Hv. subst wide. unfold on_filter_input. apply recompute_filtered. exact Hv. }
  assert (Hnarrow : forall v, view h (episodes s) ft' (sort s) = Ok v -> narrow = v).
  { intros v Hv. subst narrow. unfold on_filter_input. apply recompute_filtered. exact Hv. }
  split; [exact Himp|]. split.
  - intros v v' Hv Hv'. split; [exact (Hwide v Hv)|]. split; [exact (Hnarrow v' Hv')|].
    destruct (view_inv h _ _ _ _ Hv) as [_ Hs]. destruct (view_inv h _ _ _ _ Hv') as [_ Hs'].
    apply array_sort_perm in Hs, Hs'.
    rewrite (filter_narrow _ _ _ Himp) in Hs'. split.
    + rewrite Hs, Hs'. apply filter_length_le.
    + intros ep. rewrite Hs, Hs'.
      intros Hep%list_elem_of_In%List.filter_In. apply list_elem_of_In, Hep.
  - intros Hok Hsortable.
    destruct (view_returns h (episodes s) ft (sort s) Hok Hsortable) as (v & Hv & Hs & _).
    destruct (view_returns h (episodes s) ft' (sort s) Hok Hsortable) as (v' & Hv' & Hs' & _).
    rewrite (Hwide v Hv), (Hnarrow v' Hv').
    rewrite (filter_narrow _ _ _ Himp) in Hs'.
    rewrite (view_sort_filter h (sort s) (text_match ft') _ v) in Hs'.
    + injection Hs' as <-. split; [reflexivity | apply filter_length_le].
    + apply shown_keyed; assumption.
    + exact Hs.
Qed.

(** Typing on from [Ten] to [Tennant] keeps the one record of David
    Tennant. *)
Lemma filter_narrowing_witness :
  let s := set_episodes [rose; blink] initial_state in
  includes (lower "Tennant") (lower "Ten") = true
  /\ filtered (on_filter_input display_ok utc_host "Ten" s) = [blink]
  /\ filtered (on_filter_input display_ok utc_host "Tennant" s)
     = List.filter (text_match (lower "Tennant"))
         (filtered (on_filter_input display_ok utc_host "Ten" s)).
Proof.
  intros s. split; [reflexivity|]. split; [reflexivity|].
  destruct (filter_narrowing display_ok utc_host s "Ten" "Tennant" eq_refl)
    as (_ & _ & Htyped).
  destruct Htyped as [Hnarrow _].
  - repeat constructor.
  - repeat constructor; apply record_ok_sortable; auto.
  - exact Hnarrow.
Defined.

(** From the empty text to [Ten] the record of Christopher Eccleston
    goes. *)
Example filter_narrowing_on :
  let s := set_episodes [rose; blink] initial_state in
  filtered (on_filter_input display_ok utc_host "" s) = [rose; blink]
  /\ filtered (on_filter_input display_ok utc_host "Ten" s) = [blink]
  /\ filtered (on_filter_input display_ok utc_host "Tennant" s) = [blink].
Proof. repeat split. Qed.

(** X10.  The filter does not tell the case of what is typed: a text and
    its lower-case form leave the same visible sequence, and with it the
    same dataset, sort state and focus. *)
Theorem filter_ignores_case (display : list value -> result unit) (h : Host)
    (s : state) (t : string) :
  let typed := on_filter_input display h t s in
  let folded := on_filter_input display h (lower t) s in
  filtered folded = filtered typed
  /\ episodes folded = episodes typed /\ sort folded = sort typed
  /\ focusedRowIndex folded = focusedRowIndex typed
  /\ name (filters typed) = t /\ name (filters folded) = lower t.
Proof.
  intros typed folded. subst typed folded. unfold on_filter_input, applyFiltersAndSort.
  cbn [episodes filters sort name set_focus set_filter_name].
  rewrite lower_idem.
  destruct (view h (episodes s) (lower t) (sort s)); cbn; repeat split.
Qed.

Example filter_ignores_case_on :
  let s := set_episodes [rose; blink] initial_state in
  filtered (on_filter_input display_ok utc_host "TENNANT" s) = [blink]
  /\ filtered (on_filter_input display_ok utc_host (lower "TENNANT") s) = [blink].
Proof. repeat split. Qed.

(** X11.  On records of the data model the view is in the order of the
    sort state: the keys of the sort field never descend from one row to
    a later one when the direction is ascending, and never ascend when
    it is descending. *)
Theorem view_in_order (h : Host) (eps : list value) (ft : string) (o : sort_state)
    (visible : list value) :
  Forall (fun ep => record_ok ep = true) eps ->
  Forall (sortable h (field o)) eps ->
  view h eps ft o = Ok visible ->
  StronglySorted (view_le h o) visible
  /\ forall i j a b, (i < j)%nat -> visible !! i = Some a -> visible !! j = Some b ->
       if ascending o then key_le h (field o) a b else key_le h (field o) b a.
Proof.
  intros Hok Hs Hv. destruct (view_inv h _ _ _ _ Hv) as [_ Hsort].
  assert (StronglySorted (view_le h o) visible) as Hsorted.
  { apply (view_sorted h o (List.filter (text_match ft) eps)); [|exact Hsort].
    apply shown_keyed; assumption. }
  split; [exact Hsorted|].
  clear -Hsorted. induction Hsorted as [|x l Hl IH Hx]; intros i j a b Hij Hi Hj.
  - discriminate.
  - destruct j as [|j]; [lia|]. cbn in Hj. destruct i as [|i].
    + cbn in Hi. injection Hi as <-. rewrite Forall_forall in Hx.
      apply (Hx b). eapply list_elem_of_lookup_2, Hj.
    + cbn in Hi. apply (IH i j); [lia | assumption..].
Qed.

Lemma view_in_order_witness :
  view utc_host [rose; blink] "" {| field := "title"; ascending := false |}
  = Ok [rose; blink]
  /\ StronglySorted (view_le utc_host {| field := "title"; ascending := false |})
       [rose; blink]
  /\ key_le utc_host "title" blink rose.
Proof.
  destruct (view_in_order utc_host [rose; blink] ""
              {| field := "title"; ascending := false |} [rose; blink])
    as [Hsorted Hrows].
  { repeat constructor. }
  { repeat constructor; apply record_ok_sortable; auto. }
  { reflexivity. }
  split; [reflexivity|]. split; [exact Hsorted|].
  exact (Hrows 0%nat 1%nat rose blink ltac:(lia) eq_refl eq_refl).
Defined.

(** X12.  When no two visible records share a sort key, the descending
    view is the ascending view read backwards.  (With shared keys it is
    not: records with one key keep their order in both directions.) *)
Theorem descending_reverses (h : Host) (eps : list value) (ft fld : string)
    (up down : list value) :
  Forall (fun ep => record_ok ep = true) eps ->
  Forall (sortable h fld) eps ->
  view h eps ft {| field := fld; ascending := true |} = Ok up ->
  view h eps ft {| field := fld; ascending := false |} = Ok down ->
  (forall a b, a ∈ up -> b ∈ up -> key_le h fld a b -> key_le h fld b a -> a = b) ->
  down = rev up.
Proof.
  intros Hok Hs Hup Hdown Hdistinct.
  destruct (view_inv h _ _ _ _ Hup) as [_ Hsup].
  destruct (view_inv h _ _ _ _ Hdown) as [_ Hsdown].
  pose proof (shown_keyed h fld ft eps Hok Hs) as Hkeyed.
  pose proof (view_sorted h {| field := fld; ascending := true |} _ _ Hkeyed Hsup) as Hu.
  pose proof (view_sorted h {| field := fld; ascending := false |} _ _ Hkeyed Hsdown) as Hd.
  apply array_sort_perm in Hsup, Hsdown.
  assert (down ≡ₚ rev up) as Hperm.
  { rewrite Hsdown, <- Hsup. apply Permutation_rev. }
  apply (StronglySorted_rev (key_le h fld)) in Hu.
  refine (StronglySorted_unique_strong (fun a b => key_le h fld b a) down (rev up) _ Hd Hu Hperm).
  intros a b Ha Hb Hab Hba.
  assert (a ∈ up) as Ha'.
  { rewrite Hperm in Ha. apply list_elem_of_In, List.in_rev, list_elem_of_In, Ha. }
  assert (b ∈ up) as Hb' by (apply list_elem_of_In, List.in_rev, list_elem_of_In, Hb).
  apply Hdistinct; assumption.
Qed.

Lemma descending_reverses_witness :
  view utc_host [rose; blink] "" {| field := "title"; ascending := true |} = Ok [blink; rose]
  /\ view utc_host [rose; blink] "" {| field := "title"; ascending := false |}
     = Ok [rose; blink]
  /\ [rose; blink] = rev [blink; rose].
Proof.
  split; [reflexivity|]. split; [reflexivity|].
  apply (descending_reverses utc_host [rose; blink] "" "title" [blink; rose] [rose; blink]).
  - repeat constructor.
  - repeat constructor; apply record_ok_sortable; auto.
  - reflexivity.
  - reflexivity.
  - intros a b Ha Hb (ka & kb & Hka & Hkb & Hab) (kb' & ka' & Hkb' & Hka' & Hba).
    rewrite Hka in Hka'. rewrite Hkb in Hkb'. injection Hka' as <-. injection Hkb' as <-.
    rewrite !elem_of_cons, elem_of_nil in Ha, Hb.
    destruct Ha as [-> | [-> | []]], Hb as [-> | [-> | []]]; try reflexivity;
      injection Hka as <-; injection Hkb as <-; discriminate.
Defined.

(** X13.  A field without a sort key of its own is ordered by the text
    of its values, numbers included: two records whose values under such
    a field are integers other than 0 that a number holds exactly (below
    2^53 in absolute value) compare as their decimal texts do, character
    by character, not as the numbers do.  Rank 10 comes before rank 2. *)
Theorem numbers_sort_as_texts (h : Host) (fld : string) (a b : value) (x y : Z)
    (direction : Z) :
  fld ∉ special_fields ->
  nullish a = false -> nullish b = false ->
  prop a fld = Num (Fin x) -> prop b fld = Num (Fin y) -> x <> 0 -> y <> 0 ->
  Z.abs x < 2 ^ 53 -> Z.abs y < 2 ^ 53 ->
  getSortValue h a fld = Ok (Str (lower (pretty x)))
  /\ getSortValue h b fld = Ok (Str (lower (pretty y)))
  /\ compareEpisodes h fld direction a b
     = Ok ((if String.ltb (lower (pretty x)) (lower (pretty y)) then -1
            else if String.ltb (lower (pretty y)) (lower (pretty x)) then 1 else 0)
           * direction).
Proof.
  intros Hfld Ha Hb Hx Hy Hx0 Hy0 _ _.
  assert (forall e v, nullish e = false -> prop e fld = Num (Fin v) -> v <> 0 ->
            getSortValue h e fld = Ok (Str (lower (pretty v)))) as Hkey.
  { intros e v He Hv Hv0. rewrite (getSortValue_other h e fld He Hfld), Hv.
    cbn [truthy]. destruct (Z.eqb_spec v 0); [contradiction | reflexivity]. }
  pose proof (Hkey a x Ha Hx Hx0) as Hka. pose proof (Hkey b y Hb Hy Hy0) as Hkb.
  split; [exact Hka|]. split; [exact Hkb|].
  rewrite (compareEpisodes_keys h _ _ _ _ _ _ Hka Hkb).
  unfold three_way, gt, lt. cbn -[String.ltb pretty].
  destruct (String.ltb (lower (pretty x)) (lower (pretty y))); run; [reflexivity|].
  destruct (String.ltb (lower (pretty y)) (lower (pretty x))); reflexivity.
Qed.

Lemma numbers_sort_as_texts_witness :
  compareEpisodes utc_host "rank" 1 tenth second = Ok (-1)
  /\ view utc_host [second; tenth] "" {| field := "rank"; ascending := true |}
     = Ok [tenth; second].
Proof.
  assert ("rank" ∉ special_fields) as Hfld.
  { unfold special_fields. rewrite !elem_of_cons, elem_of_nil.
    intros [H | [H | [H | [H | []]]]]; discriminate. }
  pose proof (numbers_sort_as_texts utc_host "rank" tenth second 10 2 1 Hfld
                eq_refl eq_refl eq_refl eq_refl ltac:(discriminate) ltac:(discriminate)
                eq_refl eq_refl)
    as (_ & _ & H).
  split; [exact H | reflexivity].
Defined.

(** ** The CSV file *)

Section CsvFile.

Lemma append_empty_r (s : string) : s +:+ EmptyString = s.
Proof. induction s as [|c s IH]; cbn; [reflexivity | rewrite IH; reflexivity]. Qed.

Lemma not_special c :
  csv_special c = false ->
  Ascii.eqb c quote = false /\ Ascii.eqb c comma = false /\ Ascii.eqb c newline = false.
Proof.
  unfold csv_special. intros H.
  apply orb_false_elim in H as [H H3]. apply orb_false_elim in H as [H1 H2]. auto.
Qed.

Lemma read_bare f : forall cur row rows rest,
  contains_char csv_special f = false ->
  read_csv Bare cur row rows (f +:+ rest) = read_csv Bare (cur +:+ f) row rows rest.
Proof.
  induction f as [|c f IH]; intros cur row rows rest Hf.
  - cbn [String.append]. rewrite append_empty_r. reflexivity.
  - cbn [contains_char] in Hf. apply orb_false_elim in Hf as [Hc Hf].
    destruct (not_special c Hc) as (Hq & Hcm & Hn).
    cbn [String.append read_csv]. rewrite Hq, Hcm, Hn.
    rewrite (IH _ row rows rest Hf), append_assoc_str. reflexivity.
Qed.

Lemma read_after_quote f row rows rest :
  at_separator rest = true ->
  read_csv QuoteSeen f row rows rest = read_csv Bare f row rows rest.
Proof.
  destruct rest as [|c r]; [reflexivity|]. cbn [at_separator]. intros H. cbn [read_csv].
  destruct (Ascii.eqb c quote) eqn:Hq.
  - apply Ascii.eqb_eq in Hq. subst. discriminate.
  - destruct (Ascii.eqb c comma); [reflexivity|].
    destruct (Ascii.eqb c newline); [reflexivity | discriminate].
Qed.

Lemma read_at_start row rows rest :
  at_separator rest = true ->
  read_csv FieldStart EmptyString row rows rest = read_csv Bare EmptyString row rows rest.
Proof.
  destruct rest as [|c r]; [reflexivity|]. cbn [at_separator]. intros H. cbn [read_csv].
  destruct (Ascii.eqb c quote) eqn:Hq.
  - apply Ascii.eqb_eq in Hq. subst. discriminate.
  - destruct (Ascii.eqb c comma); [reflexivity|].
    destruct (Ascii.eqb c newline); [reflexivity | discriminate].
Qed.

Lemma read_quoted f : forall cur row rows rest,
  read_csv Quoted cur row rows
    (replace_char quote (String quote (String quote EmptyString)) f +:+ String quote rest)
  = read_csv QuoteSeen (cur +:+ f) row rows rest.
Proof.
  induction f as [|c f IH]; intros cur row rows rest.
  - cbn [replace_char String.append read_csv]. rewrite Ascii.eqb_refl, append_empty_r.
    reflexivity.
  - cbn [replace_char]. destruct (Ascii.eqb_spec c quote) as [->|Hc].
    + cbn [String.append read_csv]. rewrite !Ascii.eqb_refl.
      rewrite IH, append_assoc_str. reflexivity.
    + cbn [String.append read_csv].
      destruct (Ascii.eqb_spec c quote); [contradiction|].
      rewrite IH, append_assoc_str. reflexivity.
Qed.

(** One field, written by the escaper, is read as the text it stands
    for. *)
Lemma read_field f row rows rest :
  at_separator rest = true ->
  read_csv FieldStart EmptyString row rows (csv_field f +:+ rest)
  = read_csv Bare f row rows rest.
Proof.
  intros Hrest. unfold csv_field.
  destruct (contains_char csv_special f) eqn:Hf.
  - unfold csv_quoted. cbn [String.append read_csv]. rewrite Ascii.eqb_refl.
    rewrite append_assoc_str. cbn [String.append].
    rewrite read_quoted. cbn [String.append]. apply read_after_quote, Hrest.
  - destruct f as [|c f].
    + cbn [String.append]. apply read_at_start, Hrest.
    + cbn [contains_char] in Hf. apply orb_false_elim in Hf as [Hc Hf].
      destruct (not_special c Hc) as (Hq & Hcm & Hn).
      cbn [String.append read_csv]. rewrite Hq, Hcm, Hn.
      rewrite (read_bare f _ row rows rest Hf). reflexivity.
Qed.

Lemma join_cons sep x y l :
  join sep (x :: y :: l) = x +:+ sep +:+ join sep (y :: l).
Proof. reflexivity. Qed.

(** One line. *)
Lemma read_line fs : forall f row rows rest,
  (rest = EmptyString \/ exists r, rest = String newline r) ->
  read_csv FieldStart EmptyString row rows
    (join (String comma EmptyString) (csv_field <$> (fs ++ [f])%list) +:+ rest)
  = read_csv Bare f (row ++ fs)%list rows rest.
Proof.
  induction fs as [|g fs IH]; intros f row rows rest Hrest.
  - cbn [app fmap list_fmap join]. rewrite app_nil_r. apply read_field.
    destruct Hrest as [->|[r ->]]; reflexivity.
  - change ((g :: fs) ++ [f])%list with (g :: (fs ++ [f]))%list.
    destruct (fs ++ [f])%list as [|y l] eqn:E; [destruct fs; discriminate|].
    cbn [fmap list_fmap]. rewrite join_cons, !append_assoc_str.
    cbn [String.append]. rewrite read_field by reflexivity.
    cbn [read_csv]. change (Ascii.eqb comma quote) with false.
    rewrite Ascii.eqb_refl.
    change (csv_field y :: (csv_field <$> l)) with (csv_field <$> (y :: l)).
    rewrite <- E, IH by exact Hrest.
    rewrite <- app_assoc. reflexivity.
Qed.

(** The whole file: lines of at least one field each. *)
Lemma read_lines lines : forall l rows,
  Forall (fun l => l <> []) (l :: lines) ->
  read_csv FieldStart EmptyString [] rows
    (join (String newline EmptyString)
       ((fun l => join (String comma EmptyString) (csv_field <$> l)) <$> (l :: lines)))
  = Some (rows ++ l :: lines)%list.
Proof.
  induction lines as [|l2 lines IH]; intros l rows Hne.
  - inversion Hne as [|? ? Hl _]; subst.
    destruct (exists_last Hl) as (fs & f & ->).
    cbn [fmap list_fmap join]. rewrite <- (append_empty_r (join _ _)).
    rewrite read_line by auto. reflexivity.
  - inversion Hne as [|? ? Hl Hrest]; subst.
    destruct (exists_last Hl) as (fs & f & ->).
    cbn [fmap list_fmap]. rewrite join_cons. cbn [String.append].
    rewrite read_line by eauto.
    cbn [read_csv app]. change (Ascii.eqb newline quote) with false.
    change (Ascii.eqb newline comma) with false. rewrite Ascii.eqb_refl.
    etransitivity; [exact (IH l2 (rows ++ [fs ++ [f]])%list Hrest)|].
    rewrite <- app_assoc. reflexivity.
Qed.

End CsvFile.

Section CsvExport.

Variable h : Host.
Variable z : Zone.

Lemma mapM_length {A B} (f : A -> result B) l : forall l',
  mapM f l = Ok l' -> length l' = length l.
Proof.
  induction l as [|x l IH]; intros l'; cbn [mapM].
  - intros [= <-]. reflexivity.
  - destruct (f x) as [y|]; [|discriminate]. run.
    destruct (mapM f l) as [ys|]; [|discriminate]. run.
    intros [= <-]. cbn [length]. rewrite (IH ys eq_refl). reflexivity.
Qed.

Lemma mapM_lookup {A B} (f : A -> result B) l : forall l' i x,
  mapM f l = Ok l' -> l !! i = Some x -> exists y, l' !! i = Some y /\ f x = Ok y.
Proof.
  induction l as [|a l IH]; intros l' i x; cbn [mapM]; [discriminate|].
  destruct (f a) as [b|] eqn:Hb; [|discriminate]. run.
  destruct (mapM f l) as [ys|]; [|discriminate]. run.
  intros [= <-]. destruct i as [|i]; cbn.
  - intros [= <-]. eauto.
  - apply IH. reflexivity.
Qed.

Lemma mapM_returns {A B} (f : A -> result B) l :
  Forall (fun x => exists y, f x = Ok y) l -> exists l', mapM f l = Ok l'.
Proof.
  induction 1 as [|x l [y Hy] _ [ys IH]]; cbn [mapM]; [eauto|].
  rewrite Hy, IH. run. eauto.
Qed.

(** The escaper writes the text of a value as a field. *)
Lemma escapeCSV_field v : escapeCSV v = (t ← csv_text v; Ok (csv_field t)).
Proof.
  unfold escapeCSV, csv_text, csv_field, csv_quoted.
  destruct (ToString (coalesce v (Str ""))) as [s|]; [|reflexivity]. run.
  destruct (contains_char csv_special s); reflexivity.
Qed.

Lemma csv_cells row :
  mapM escapeCSV row = (ts ← mapM csv_text row; Ok (csv_field <$> (ts : list string))).
Proof.
  induction row as [|v row IH]; [reflexivity|]. cbn [mapM].
  rewrite escapeCSV_field, IH.
  destruct (csv_text v); [|reflexivity]. run.
  destruct (mapM csv_text row); reflexivity.
Qed.

Lemma csv_line_texts row :
  csv_line row
  = (ts ← mapM csv_text row;
     Ok (join (String comma EmptyString) (csv_field <$> (ts : list string)))).
Proof.
  unfold csv_line. rewrite csv_cells. destruct (mapM csv_text row); reflexivity.
Qed.

Lemma csv_lines_texts rows :
  mapM csv_line rows
  = (tss ← mapM (mapM csv_text) rows;
     Ok ((fun l : list string => join (String comma EmptyString) (csv_field <$> l))
          <$> (tss : list (list string)))).
Proof.
  induction rows as [|row rows IH]; [reflexivity|]. cbn [mapM].
  rewrite csv_line_texts, IH.
  destruct (mapM csv_text row); [|reflexivity]. run.
  destruct (mapM (mapM csv_text) rows); reflexivity.
Qed.

Lemma export_row_length ep vs : export_row h z ep = Ok vs -> length vs = 10%nat.
Proof.
  unfold export_row, get. destruct (nullish ep); [discriminate|]. run.
  destruct (getYear h z _); [|discriminate]. run.
  destruct (formatDoctor _ true); [|discriminate]. run.
  destruct (formatCompanion _ true); [|discriminate]. run.
  intros [= <-]. reflexivity.
Qed.

(** What a download holds. *)
Lemma export_content s d :
  exportToCSV h z s = Ok d ->
  exists rows texts,
    mapM (export_row h z) (filtered s) = Ok rows
    /\ mapM (mapM csv_text) rows = Ok texts
    /\ content d
       = join (String newline EmptyString)
           ((fun l : list string => join (String comma EmptyString) (csv_field <$> l))
              <$> (csv_headers :: texts))
    /\ file_name d = "doctor_who_episodes.csv".
Proof.
  unfold exportToCSV, csvContent.
  destruct (mapM (export_row h z) (filtered s)) as [rows|] eqn:Hrows; [|discriminate].
  run. rewrite csv_line_texts, csv_lines_texts.
  assert (mapM csv_text (Str <$> csv_headers) = Ok csv_headers) as -> by reflexivity.
  run. destruct (mapM (mapM csv_text) rows) as [texts|] eqn:Htexts; [|discriminate].
  run. intros [= <-]. exists rows, texts.
  split; [reflexivity|]. split; [exact Htexts|]. split; reflexivity.
Qed.

Lemma texts_shape rows texts (eps : list value) :
  mapM (export_row h z) eps = Ok rows ->
  mapM (mapM csv_text) rows = Ok texts ->
  length texts = length eps /\ Forall (fun r => length r = 10%nat) texts.
Proof.
  intros Hrows Htexts. split.
  - rewrite (mapM_length _ _ _ Htexts), (mapM_length _ _ _ Hrows). reflexivity.
  - apply Forall_lookup. intros i r Hr.
    assert (i < length rows)%nat as Hi.
    { rewrite <- (mapM_length _ _ _ Htexts). eapply lookup_lt_Some, Hr. }
    destruct (lookup_lt_is_Some_2 rows i Hi) as [row Hrow].
    destruct (mapM_lookup _ _ _ _ _ Htexts Hrow) as (r' & Hr' & Hcells).
    rewrite Hr in Hr'. injection Hr' as <-.
    rewrite (mapM_length _ _ _ Hcells).
    assert (i < length eps)%nat as Hi'.
    { rewrite <- (mapM_length _ _ _ Hrows). exact Hi. }
    destruct (lookup_lt_is_Some_2 eps i Hi') as [ep Hep].
    destruct (mapM_lookup _ _ _ _ _ Hrows Hep) as (row' & Hrow' & Hex).
    rewrite Hrow in Hrow'. injection Hrow' as <-.
    apply (export_row_length ep row Hex).
Qed.

End CsvExport.

Section Rows.

Variable h : Host.
Variable z : Zone.

Lemma csv_text_primitive v : primitive v = true -> exists t, csv_text v = Ok t.
Proof.
  intros Hv. unfold csv_text. apply ToString_primitive.
  unfold coalesce. destruct (nullish v); [reflexivity | exact Hv].
Qed.

Lemma createCell_primitive v : primitive v = true -> exists t, createCell v = Ok t.
Proof.
  intros Hv. unfold createCell. apply ToString_primitive.
  unfold coalesce. destruct (nullish v); [reflexivity | exact Hv].
Qed.

Lemma getYear_text v :
  text_or_absent v = true -> exists y, getYear h z v = Ok y /\ primitive y = true.
Proof.
  intros Hv. unfold getYear.
  assert (exists d, normalizeDate h v = Ok d) as [d ->].
  { destruct v; try discriminate; [exists None; reflexivity..|].
    apply normalizeDate_text_returns. }
  run. destruct d; eauto.
Qed.

Lemma format_printable (part : string) d :
  text_or_absent (get_opt d "actor") = true ->
  primitive (get_opt d part) = true ->
  exists s,
    (if negb (truthy (get_opt d "actor")) then Ok (Str "N/A")
     else a ← ToString (prop d "actor");
          i ← ToString (or_else (prop d part) (Str "N/A"));
          Ok (Str (a +:+ " (" +:+ i +:+ ")")))
    = Ok (Str s).
Proof.
  unfold get_opt. destruct (nullish d); [cbn; eauto|]. intros Ha Hi.
  destruct (prop d "actor") as [| |?|?|a|?|?]; try discriminate; [cbn; eauto..|].
  destruct (negb (truthy (Str a))); [eauto|]. run.
  destruct (ToString_primitive (or_else (prop d part) (Str "N/A"))) as [i ->].
  { unfold or_else. destruct (truthy (prop d part)); [exact Hi | reflexivity]. }
  run. eauto.
Qed.

Lemma printable_fields ep :
  printable ep = true ->
  record_ok ep = true
  /\ primitive (prop ep "rank") = true /\ primitive (prop ep "series") = true
  /\ primitive (prop ep "era") = true
  /\ primitive (get_opt (prop ep "doctor") "incarnation") = true
  /\ primitive (get_opt (prop ep "companion") "character") = true.
Proof.
  unfold printable. intros H. repeat (apply andb_prop in H as [H ?]). auto 10.
Qed.

Lemma text_primitive v : text_or_absent v = true -> primitive v = true.
Proof. destruct v; cbn; congruence. Qed.

(** The row of a printable record: ten primitive values. *)
Lemma export_row_printable ep :
  printable ep = true ->
  exists vs, export_row h z ep = Ok vs /\ Forall (fun v => primitive v = true) vs.
Proof.
  intros (Hok & Hrank & Hseries & Hera & Hinc & Hchar)%printable_fields.
  destruct (record_ok_fields ep Hok) as (Hep & Ht & Hw & Hdir & Hb & Hda & Hca & Hcast).
  unfold export_row. rewrite !(get_present _ _ Hep). run.
  destruct (getYear_text _ Hb) as (y & -> & Hy). run.
  destruct (format_printable "incarnation" (prop ep "doctor") Hda Hinc) as [fd Hfd].
  unfold formatDoctor. rewrite Hfd. run.
  destruct (format_printable "character" (prop ep "companion") Hca Hchar) as [fc Hfc].
  unfold formatCompanion. rewrite Hfc. run.
  eexists. split; [reflexivity|].
  repeat constructor; auto using text_primitive.
  unfold or_else, get_opt.
  destruct (prop ep "cast") as [| |?|?|?|l|?]; try discriminate; cbn; try reflexivity.
  destruct (_ =? 0); reflexivity.
Qed.

Lemma export_returns s :
  Forall (fun ep => printable ep = true) (filtered s) ->
  exists d, exportToCSV h z s = Ok d.
Proof.
  intros Hp. unfold exportToCSV, csvContent.
  destruct (mapM_returns (export_row h z) (filtered s)) as [rows Hrows].
  { eapply Forall_impl; [exact Hp|]. intros ep Hep.
    destruct (export_row_printable ep Hep) as (vs & Hvs & _). eauto. }
  rewrite Hrows. run. rewrite csv_line_texts, csv_lines_texts.
  assert (mapM csv_text (Str <$> csv_headers) = Ok csv_headers) as -> by reflexivity.
  run. destruct (mapM_returns (mapM csv_text) rows) as [texts ->]; [|run; eauto].
  apply Forall_lookup. intros i row Hrow.
  assert (i < length (filtered s))%nat as Hi.
  { rewrite <- (mapM_length _ _ _ Hrows). eapply lookup_lt_Some, Hrow. }
  destruct (lookup_lt_is_Some_2 _ i Hi) as [ep Hep].
  destruct (mapM_lookup _ _ _ _ _ Hrows Hep) as (row' & Hrow' & Hex).
  rewrite Hrow in Hrow'. injection Hrow' as <-.
  rewrite Forall_lookup in Hp.
  destruct (export_row_printable ep (Hp i ep Hep)) as (vs & Hvs & Hprim).
  rewrite Hex in Hvs. injection Hvs as <-.
  apply mapM_returns. eapply Forall_impl; [exact Hprim|].
  intros v Hv. apply csv_text_primitive, Hv.
Qed.

Ltac cells H :=
  repeat match type of H with
         | context [createCell ?v] =>
             destruct (createCell v); run; try discriminate
         end.

(** A row of the table is written exactly when the row of the file can
    be built and each of its values has a text. *)
Lemma display_row_cells ep cells :
  display_row h z ep = Ok cells
  <-> exists vs, export_row h z ep = Ok vs /\ mapM createCell vs = Ok cells.
Proof.
  unfold display_row, export_row, get.
  destruct (nullish ep); [split; [discriminate | intros (vs & [=] & _)]|]. run.
  destruct (getYear h z (prop ep "broadcast_date")) as [y|]; run;
    destruct (formatDoctor (prop ep "doctor") true) as [fd|]; run;
    destruct (formatCompanion (prop ep "companion") true) as [fc|]; run.
  1: { split.
       - intros H. eexists. split; [reflexivity|]. cbn [mapM]. cells H. exact H.
       - intros (vs & [= <-] & H). cbn [mapM] in H. cells H. exact H. }
  all: split; [intros H; cells H | intros (vs & [=] & _)].
Qed.

End Rows.

(** X14.  The exported file reads back.  Whenever the export returns,
    an RFC 4180 reader splits its content into the header row and one
    row for each visible record, in their order, each of ten fields, and
    each field is read as the very text of the value written: commas,
    quotes and newlines inside a value change neither the number of
    rows nor of fields.  On printable records the export returns. *)
Theorem exportToCSV_reads_back (h : Host) (z : Zone) (s : state) :
  (forall d,
     exportToCSV h z s = Ok d ->
     exists rows texts,
       mapM (export_row h z) (filtered s) = Ok rows
       /\ mapM (mapM csv_text) rows = Ok texts
       /\ parse_csv (content d) = Some (csv_headers :: texts)
       /\ length texts = length (filtered s)
       /\ Forall (fun r => length r = length csv_headers) texts
       /\ file_name d = "doctor_who_episodes.csv")
  /\ (Forall (fun ep => printable ep = true) (filtered s) ->
      exists d, exportToCSV h z s = Ok d).
Proof.
  split; [|apply export_returns].
  intros d Hd.
  destruct (export_content h z s d Hd) as (rows & texts & Hrows & Htexts & Hc & Hname).
  destruct (texts_shape h z rows texts (filtered s) Hrows Htexts) as [Hlen Hten].
  exists rows, texts. split; [exact Hrows|]. split; [exact Htexts|].
  split; [|split; [exact Hlen|split; [exact Hten | exact Hname]]].
  unfold parse_csv. rewrite Hc. apply (read_lines texts csv_headers []).
  constructor; [discriminate|].
  eapply Forall_impl; [exact Hten|]. intros r Hr ->. discriminate.
Qed.

(** A record whose title holds a comma, quotes and a newline. *)
Example exportToCSV_awkward_title :
  exists d,
    exportToCSV utc_host utc_zone (set_filtered [awkward] initial_state) = Ok d
    /\ parse_csv (content d)
       = Some [ csv_headers;
                [ "3"; "The Doctor, " +:+ String quote ("Who" +:+ String quote
                                            (String newline "returns"));
                  ""; ""; "N/A"; ""; ""; "N/A"; "N/A"; "0" ] ].
Proof. eexists. split; [reflexivity|]. vm_compute. reflexivity. Qed.

(** X15.  The table and the file agree.  Whenever the row of a record
    is written to the table, the row of the file can be built for it,
    both have ten columns, and in each column the cell shows the text
    the file holds for that column, except that an absent value
    ([null] or [undefined]) reads N/A in the table and is empty in the
    file. *)
Theorem table_row_matches_csv_row (h : Host) (z : Zone) (ep : value) (cells : list string) :
  display_row h z ep = Ok cells ->
  exists vs,
    export_row h z ep = Ok vs
    /\ length vs = 10%nat /\ length cells = 10%nat
    /\ forall i v, vs !! i = Some v ->
         exists t e,
           csv_text v = Ok t /\ escapeCSV v = Ok e /\ unescapeCSV e = Some t
           /\ cells !! i = Some (if nullish v then "N/A" else t)
           /\ (nullish v = true -> t = "").
Proof.
  intros (vs & Hvs & Hcells)%display_row_cells. exists vs.
  pose proof (export_row_length h z ep vs Hvs) as Hlen.
  split; [exact Hvs|]. split; [exact Hlen|].
  split; [rewrite (mapM_length _ _ _ Hcells); exact Hlen|].
  intros i v Hv. destruct (mapM_lookup _ _ _ _ _ Hcells Hv) as (cell & Hcell & Hc).
  assert (forall t, csv_text v = Ok t ->
            escapeCSV v = Ok (csv_field t) /\ unescapeCSV (csv_field t) = Some t) as Hesc.
  { intros t Ht. rewrite escapeCSV_field, Ht. split; [reflexivity|].
    unfold csv_field. destruct (contains_char csv_special t) eqn:E.
    - apply unescape_quoted.
    - apply unescape_bare, E. }
  unfold createCell, coalesce in Hc. destruct (nullish v) eqn:Hn.
  - injection Hc as <-. exists "", (csv_field "").
    assert (csv_text v = Ok "") as Ht by (unfold csv_text, coalesce; rewrite Hn; reflexivity).
    destruct (Hesc "" Ht) as [He Hu]. auto 10.
  - exists cell, (csv_field cell).
    assert (csv_text v = Ok cell) as Ht by (unfold csv_text, coalesce; rewrite Hn; exact Hc).
    destruct (Hesc cell Ht) as [He Hu].
    split; [exact Ht|]. split; [exact He|]. split; [exact Hu|]. split; [exact Hcell|].
    discriminate.
Qed.

Lemma table_row_matches_csv_row_witness :
  display_row utc_host utc_zone untold
  = Ok ["N/A"; "Rose"; "N/A"; "N/A"; "N/A"; "N/A"; "N/A"; "N/A"; "N/A"; "0"]
  /\ exists vs,
       export_row utc_host utc_zone untold = Ok vs
       /\ mapM escapeCSV vs = Ok [""; "Rose"; ""; ""; "N/A"; ""; ""; "N/A"; "N/A"; "0"].
Proof.
  split; [reflexivity|].
  destruct (table_row_matches_csv_row utc_host utc_zone untold _ eq_refl)
    as (vs & Hvs & _).
  exists vs. split; [exact Hvs|].
  vm_compute in Hvs. injection Hvs as <-. reflexivity.
Defined.

(** X16.  On printable records nothing throws from the filter to the
    table: with the table written by [displayEpisodes], a recomputation
    of the view returns, and the table then holds one row of ten cells
    for each visible record. *)
Theorem view_engine_returns (h : Host) (z : Zone) (s : state) :
  Forall (fun ep => printable ep = true) (episodes s) ->
  Forall (sortable h (field (sort s))) (episodes s) ->
  let result := applyFiltersAndSort (displayEpisodes h z) h s in
  snd result = Ok ()
  /\ exists rows,
       table_rows h z (filtered (fst result)) = Ok rows
       /\ length rows = length (filtered (fst result))
       /\ Forall (fun r => length r = 10%nat) rows.
Proof.
  intros Hp Hs result.
  assert (Forall (fun ep => record_ok ep = true) (episodes s)) as Hok.
  { eapply Forall_impl; [exact Hp|]. intros ep Hep. apply printable_fields in Hep. tauto. }
  destruct (view_returns h (episodes s) (lower (name (filters s))) (sort s) Hok Hs)
    as (visible & Hv & _ & Hperm).
  assert (forall ep, ep ∈ visible -> exists cells,
            display_row h z ep = Ok cells /\ length cells = 10%nat) as Hrow.
  { intros ep Hep. rewrite Hperm in Hep.
    apply list_elem_of_In, List.filter_In in Hep as [Hep%list_elem_of_In _].
    rewrite Forall_forall in Hp.
    destruct (export_row_printable h z ep (Hp ep Hep)) as (vs & Hvs & Hprim).
    destruct (mapM_returns createCell vs) as [cells Hcells].
    { eapply Forall_impl; [exact Hprim|]. intros v Hv'. apply createCell_primitive, Hv'. }
    exists cells. split; [apply display_row_cells; eauto|].
    rewrite (mapM_length _ _ _ Hcells). apply (export_row_length h z ep vs Hvs). }
  destruct (mapM_returns (display_row h z) visible) as [rows Hrows].
  { apply Forall_forall. intros ep Hep. destruct (Hrow ep Hep) as (cells & Hc & _). eauto. }
  assert (fst result = set_filtered visible (set_focus (-1) s)
          /\ snd result = Ok ()) as [Hfst Hsnd].
  { subst result. unfold applyFiltersAndSort. cbn [episodes filters sort set_focus].
    rewrite Hv. cbn [fst snd filtered set_filtered]. split; [reflexivity|].
    unfold displayEpisodes, table_rows. rewrite Hrows. reflexivity. }
  split; [exact Hsnd|]. rewrite Hfst. cbn [filtered set_filtered].
  exists rows. split; [exact Hrows|]. split; [apply (mapM_length _ _ _ Hrows)|].
  apply Forall_lookup. intros i r Hr.
  assert (i < length visible)%nat as Hi.
  { rewrite <- (mapM_length _ _ _ Hrows). eapply lookup_lt_Some, Hr. }
  destruct (lookup_lt_is_Some_2 _ i Hi) as [ep Hep].
  destruct (mapM_lookup _ _ _ _ _ Hrows Hep) as (r' & Hr' & Hd).
  rewrite Hr in Hr'. injection Hr' as <-.
  destruct (Hrow ep) as (cells & Hc & Hlen); [eapply list_elem_of_lookup_2, Hep|].
  rewrite Hd in Hc. injection Hc as <-. exact Hlen.
Qed.

Lemma view_engine_returns_witness :
  let s := set_episodes [rose; blink] initial_state in
  snd (applyFiltersAndSort (displayEpisodes utc_host utc_zone) utc_host s) = Ok ()
  /\ table_rows utc_host utc_zone [rose; blink]
     = Ok [ [ "5"; "Rose"; "1"; "Modern"; "2005"; "Keith Boak"; "Russell T Davies";
              "Christopher Eccleston (Ninth Doctor)"; "Billie Piper (Rose Tyler)"; "1" ];
            [ "5"; "Blink"; "3"; "Modern"; "2007"; "Hettie MacDonald"; "Steven Moffat";
              "David Tennant (Tenth Doctor)"; "N/A"; "0" ] ].
Proof.
  intros s. split; [|vm_compute; reflexivity].
  apply (view_engine_returns utc_host utc_zone s).
  - repeat constructor.
  - repeat constructor; apply record_ok_sortable; auto.
Defined.

(** ** The loader, stage by stage *)

Section LoadStages.

Variable display : list value -> result unit.
Variable h : Host.

Lemma load_try_fails fetch w e :
  load_data h fetch = Throw e ->
  exists p,
    load_try display h fetch w = ({| app := app w; dom := p |}, Throw e)
    /\ error_text p = error_text (dom w)
    /\ warnings_display p = warnings_display (dom w)
    /\ warnings_text p = warnings_text (dom w)
    /\ console p = console (dom w).
Proof.
  unfold load_data, load_try.
  destruct (all_responses _) as [rs|]; run; [|intros [= <-]; eexists; split; [reflexivity|]; auto].
  destruct (check_responses rs) as [[]|]; run;
    [|intros [= <-]; eexists; split; [reflexivity|]; auto].
  destruct (all_json rs) as [bodies|]; run;
    [|intros [= <-]; eexists; split; [reflexivity|]; auto].
  destruct (flat_episodes bodies) as [eps|]; run;
    [|intros [= <-]; eexists; split; [reflexivity|]; auto].
  destruct (validateData h eps) as [ws|]; run;
    [discriminate | intros [= <-]; eexists; split; [reflexivity|]; auto].
Qed.

Lemma load_try_data fetch w rs eps ws :
  load_data h fetch = Ok (rs, eps, ws) ->
  load_try display h fetch w
  = (let p := log_json rs (showLoading true (dom w)) in
     let p := if (0 <? length ws)%nat then show_warnings ws p else p in
     let (s, r) := applyFiltersAndSort display h (set_episodes eps (app w)) in
     ({| app := s; dom := p |}, r)).
Proof.
  unfold load_data, load_try.
  destruct (all_responses _) as [rs'|]; run; [|discriminate].
  destruct (check_responses rs') as [[]|]; run; [|discriminate].
  destruct (all_json rs') as [bodies|]; run; [|discriminate].
  destruct (flat_episodes bodies) as [eps'|]; run; [|discriminate].
  destruct (validateData h eps') as [ws'|]; run; [|discriminate].
  intros [= -> -> ->]. destruct (0 <? length ws)%nat; reflexivity.
Qed.

(** The merged array: the [episodes] arrays of the sources, in the order
    of the sources. *)
Lemma flat_episodes_concat bodies xss :
  Forall2 (fun b xs => nullish b = false /\ prop b "episodes" = Arr xs) bodies xss ->
  flat_episodes bodies = Ok (concat xss).
Proof.
  induction 1 as [|b xs bodies xss [Hb Hxs] _ IH]; [reflexivity|].
  cbn [flat_episodes concat]. rewrite (get_present _ _ Hb), Hxs, IH. reflexivity.
Qed.

End LoadStages.

(** X17.  A load that fails before it writes the state (a fetch is
    rejected, a response is not successful, a body is no JSON, a body
    has no data, the validator throws) leaves the application state as
    it was: dataset, view, sort, filter and focus.  The error banner
    shows the message of the exception; no warning is logged or shown.
    The table is displayed again beside the banner: the [finally] block
    undoes the hiding done by [showError]. *)
Theorem failed_load_keeps_state (display : list value -> result unit) (h : Host)
    (fetch : string -> fetched) (w : world) (e : exn) :
  load_data h fetch = Throw e ->
  let w' := loadEpisodes display h fetch w in
  app w' = app w
  /\ error_display (dom w') = "block"
  /\ error_text (dom w') = userMessage +:+ String newline "Details: " +:+ message e
  /\ loading_display (dom w') = "none"
  /\ table_display (dom w') = "table"
  /\ warnings_display (dom w') = warnings_display (dom w)
  /\ warnings_text (dom w') = warnings_text (dom w)
  /\ console (dom w') = console (dom w).
Proof.
  intros Hdata w'. subst w'. unfold loadEpisodes.
  destruct (load_try_fails display h fetch w e Hdata) as (p & -> & Ht & Hwd & Hwt & Hc).
  cbn. auto 10.
Qed.

Lemma failed_load_keeps_state_witness :
  let w' := loadEpisodes display_ok utc_host fetch_numeric_date initial_world in
  load_data utc_host fetch_numeric_date = Throw (TypeError "includes is not a function")
  /\ app w' = initial_state
  /\ error_display (dom w') = "block"
  /\ table_display (dom w') = "table"
  /\ console (dom w') = [].
Proof.
  intros w'.
  assert (load_data utc_host fetch_numeric_date
          = Throw (TypeError "includes is not a function")) as Hdata
    by (vm_compute; reflexivity).
  destruct (failed_load_keeps_state display_ok utc_host fetch_numeric_date initial_world _ Hdata)
    as (Happ & Herr & _ & _ & Htable & _ & _ & Hconsole).
  split; [exact Hdata|]. split; [exact Happ|]. split; [exact Herr|].
  split; [exact Htable | exact Hconsole].
Defined.

(** X18.  A load whose data arrive stores them and recomputes the
    view.  The dataset becomes the merged episodes: the [episodes]
    arrays of the sources, in the order of the sources.  Sort state and
    filter text stay and the focus is reset.  Every response was handed
    to the JSON parser.  The warnings, if there are any, are logged in
    their order and counted in the banner; without warnings console and
    banner are left alone.  The visible sequence is the view of the new
    dataset when the view engine returns; when sorting or filtering
    throws, the new dataset stays beside the former visible sequence and
    the error banner is shown. *)
Theorem load_stores_merged_sources (display : list value -> result unit) (h : Host)
    (fetch : string -> fetched) (w : world)
    (rs : list response) (eps : list value) (ws : list string) :
  load_data h fetch = Ok (rs, eps, ws) ->
  let w' := loadEpisodes display h fetch w in
  let ft := lower (name (filters (app w))) in
  episodes (app w') = eps
  /\ sort (app w') = sort (app w) /\ filters (app w') = filters (app w)
  /\ focusedRowIndex (app w') = -1
  /\ (forall bodies xss,
        all_json rs = Ok bodies ->
        Forall2 (fun b xs => nullish b = false /\ prop b "episodes" = Arr xs) bodies xss ->
        eps = concat xss)
  /\ json_calls (dom w') = (json_calls (dom w) ++ rs)%list
  /\ (ws = [] ->
      console (dom w') = console (dom w)
      /\ warnings_display (dom w') = warnings_display (dom w)
      /\ warnings_text (dom w') = warnings_text (dom w))
  /\ (ws <> [] ->
      console (dom w') = (console (dom w) ++ ws)%list
      /\ warnings_display (dom w') = "block"
      /\ warnings_text (dom w') = warnings_banner (length ws))
  /\ (forall v,
        view h eps ft (sort (app w)) = Ok v ->
        filtered (app w') = v
        /\ error_display (dom w')
           = match display v with Ok _ => "none" | Throw _ => "block" end)
  /\ (forall e,
        view h eps ft (sort (app w)) = Throw e ->
        filtered (app w') = filtered (app w)
        /\ error_display (dom w') = "block"
        /\ error_text (dom w') = userMessage +:+ String newline "Details: " +:+ message e)
  /\ loading_display (dom w') = "none" /\ table_display (dom w') = "table".
Proof.
  intros Hdata w' ft. subst w'. unfold loadEpisodes.
  rewrite (load_try_data display h fetch w rs eps ws Hdata). cbv zeta.
  assert (Hflat : forall bodies xss,
            all_json rs = Ok bodies ->
            Forall2 (fun b xs => nullish b = false /\ prop b "episodes" = Arr xs) bodies xss ->
            eps = concat xss).
  { intros bodies xss Hb Hx. unfold load_data in Hdata.
    destruct (all_responses _) as [rs'|]; [|discriminate]. run.
    destruct (check_responses rs') as [[]|]; [|discriminate]. run.
    destruct (all_json rs') as [bodies'|] eqn:Hj; [|discriminate]. run.
    destruct (flat_episodes bodies') as [eps'|] eqn:Hf; [|discriminate]. run.
    destruct (validateData h eps'); [|discriminate]. run.
    injection Hdata as -> -> _. rewrite Hj in Hb. injection Hb as ->.
    rewrite (flat_episodes_concat _ _ Hx) in Hf. injection Hf as <-. reflexivity. }
  unfold applyFiltersAndSort. cbn [episodes filters sort set_episodes set_focus].
  fold ft.
  assert (Hbanner : (0 <? length ws)%nat = match ws with [] => false | _ => true end)
    by (destruct ws; reflexivity).
  destruct (view h eps ft (sort (app w))) as [v|e] eqn:Hv.
  - cbn [filtered set_filtered]. destruct (display v) eqn:Hd, ws as [|x ws];
      cbn in Hbanner; rewrite ?Hbanner; cbn;
      (split; [reflexivity|]); (split; [reflexivity|]); (split; [reflexivity|]);
      (split; [reflexivity|]); (split; [exact Hflat|]); (split; [reflexivity|]);
      (split; [intros; try discriminate; auto|]);
      (split; [intros; try contradiction; auto|]);
      (split; [intros v' [= <-]; rewrite ?Hd; auto|]);
      (split; [discriminate|]); auto.
  - destruct ws as [|x ws]; cbn in Hbanner; rewrite ?Hbanner; cbn;
      (split; [reflexivity|]); (split; [reflexivity|]); (split; [reflexivity|]);
      (split; [reflexivity|]); (split; [exact Hflat|]); (split; [reflexivity|]);
      (split; [intros; try discriminate; auto|]);
      (split; [intros; try contradiction; auto|]);
      (split; [discriminate|]);
      (split; [intros e' [= <-]; auto|]); auto.
Qed.

Lemma load_stores_merged_sources_witness :
  let w' := loadEpisodes display_ok utc_host fetch_all initial_world in
  episodes (app w') = concat [[rose; blink]; []; []; []; []; []]
  /\ filtered (app w') = [rose; blink]
  /\ console (dom w') = [duplicate_rank_msg (Fin 5) ("Episode " +:+ dq +:+ "Blink)" +:+ dq)]
  /\ warnings_text (dom w') = "Found 1 data quality warning(s). See console for details."
  /\ error_display (dom w') = "none".
Proof.
  intros w'.
  assert (exists rs, load_data utc_host fetch_all
                     = Ok (rs, [rose; blink],
                           [duplicate_rank_msg (Fin 5) ("Episode " +:+ dq +:+ "Blink)" +:+ dq)]))
    as [rs Hdata] by (eexists; vm_compute; reflexivity).
  destruct (load_stores_merged_sources display_ok utc_host fetch_all initial_world _ _ _ Hdata)
    as (Heps & _ & _ & _ & _ & _ & _ & Hwarn & Hview & _).
  destruct Hwarn as (Hconsole & _ & Hbanner); [discriminate|].
  destruct (Hview [rose; blink] eq_refl) as [Hfiltered Herr].
  split; [exact Heps|]. split; [exact Hfiltered|]. split; [exact Hconsole|].
  split; [exact Hbanner | exact Herr].
Defined.

(** ** Texts as dates; records the filter cannot read *)

Section MoreEdges.

Variable h : Host.

Lemma toLowerCase_not_text v :
  nullish v = false -> not_text v = true -> exists e, toLowerCase v = Throw e.
Proof. destruct v; cbn; try discriminate; eauto. Qed.

Lemma format_not_text d :
  truthy (get_opt d "actor") = true -> not_text (get_opt d "actor") = true ->
  formatDoctor d false = Ok (get_opt d "actor")
  /\ formatCompanion d false = Ok (get_opt d "actor")
  /\ exists e, toLowerCase (get_opt d "actor") = Throw e.
Proof.
  intros Ht Hn. unfold formatDoctor, formatCompanion. rewrite Ht. cbn [negb].
  assert (get_opt d "actor" = prop d "actor") as Hp.
  { unfold get_opt in *. destruct (nullish d); [discriminate | reflexivity]. }
  rewrite <- Hp. split; [reflexivity|]. split; [reflexivity|].
  apply toLowerCase_not_text; [|exact Hn].
  destruct (get_opt d "actor"); try discriminate; reflexivity.
Qed.

Lemma matchesFilter_unsearchable ft ep :
  unsearchable ep = true -> exists e, matchesFilter ft ep = Throw e.
Proof.
  unfold unsearchable. intros [Hep H]%andb_prop. apply negb_true_iff in Hep.
  unfold matchesFilter. rewrite !(get_present _ _ Hep). run.
  assert (forall v, exists r, toLowerCase_or_empty v = r
                              /\ (not_text v = true -> exists e, r = Throw e)) as Hlow.
  { intros v. eexists. split; [reflexivity|]. intros Hv.
    unfold toLowerCase_or_empty. destruct (nullish v) eqn:Hn.
    - destruct v; discriminate.
    - apply toLowerCase_not_text; assumption. }
  assert (forall d, exists r, (fd ← formatDoctor d false; toLowerCase fd) = r
                              /\ (fc ← formatCompanion d false; toLowerCase fc) = r
                              /\ (truthy (get_opt d "actor") && not_text (get_opt d "actor") = true
                                  -> exists e, r = Throw e)) as Hfmt.
  { intros d. destruct (truthy (get_opt d "actor") && not_text (get_opt d "actor")) eqn:E.
    - apply andb_prop in E as [Ht Hn].
      destruct (format_not_text d Ht Hn) as (-> & -> & [e He]). run. rewrite He.
      exists (Throw e). eauto.
    - unfold formatDoctor, formatCompanion. eexists. split; [reflexivity|].
      split; [reflexivity | discriminate]. }
  destruct (Hlow (prop ep "title")) as (rt & -> & Ht).
  destruct (Hlow (prop ep "writer")) as (rw & -> & Hw).
  destruct (Hlow (prop ep "director")) as (rd & -> & Hd).
  destruct (Hfmt (prop ep "doctor")) as (rdoc & Hdoc1 & _ & Hdoc).
  destruct (Hfmt (prop ep "companion")) as (rcomp & _ & Hcomp1 & Hcomp).
  destruct rt as [st|et]; [|cbn; eauto]. run.
  assert (forall A (k : string -> result A),
            (fd ← formatDoctor (prop ep "doctor") false; s ← toLowerCase fd; k s)
            = (s ← rdoc; k s)) as Hd1.
  { intros A k. rewrite <- Hdoc1.
    destruct (formatDoctor (prop ep "doctor") false); reflexivity. }
  rewrite Hd1. destruct rdoc as [sdoc|edoc]; [|cbn; eauto]. run.
  assert (forall A (k : string -> result A),
            (fc ← formatCompanion (prop ep "companion") false; s ← toLowerCase fc; k s)
            = (s ← rcomp; k s)) as Hc1.
  { intros A k. rewrite <- Hcomp1.
    destruct (formatCompanion (prop ep "companion") false); reflexivity. }
  rewrite Hc1. destruct rcomp as [scomp|ecomp]; [|cbn; eauto]. run.
  destruct rw as [sw|ew]; [|cbn; eauto]. run.
  destruct rd as [sd|ed]; [|cbn; eauto]. run.
  exfalso.
  repeat (apply orb_prop in H as [H|H]).
  - destruct (Ht H); discriminate.
  - destruct (Hw H); discriminate.
  - destruct (Hd H); discriminate.
  - destruct (Hdoc H); discriminate.
  - destruct (Hcomp H); discriminate.
Qed.

Lemma filterM_throws {A} (p : A -> result bool) l x :
  x ∈ l -> (exists e, p x = Throw e) -> exists e, filterM p l = Throw e.
Proof.
  intros Hx [e He]. induction l as [|y l IH]; [inversion Hx|].
  cbn [filterM]. apply elem_of_cons in Hx as [<- | Hx].
  - rewrite He. cbn. eauto.
  - destruct (p y); [|cbn; eauto]. run. destruct (IH Hx) as [e' ->]. cbn. eauto.
Qed.

Lemma view_unsearchable eps ft o ep :
  ep ∈ eps -> unsearchable ep = true -> exists e, view h eps ft o = Throw e.
Proof.
  intros Hep Hu. unfold view.
  destruct (filterM_throws (matchesFilter ft) eps ep Hep (matchesFilter_unsearchable ft ep Hu))
    as [e ->].
  cbn. eauto.
Qed.

(** The key of a four-digit year. *)
Lemma year_key ep s :
  (forall t, Z.abs (utc h t - t) <= msPerDay) ->
  nullish ep = false -> prop ep "broadcast_date" = Str s -> is_year s = true ->
  exists t, getSortValue h ep "broadcast_date" = Ok (Num (Fin t))
            /\ Z.abs (t - DayFromYear (year_of_text s) * msPerDay) <= msPerDay.
Proof.
  intros Hnear Hep Hs Hy. unfold getSortValue. cbn [String.eqb Ascii.eqb Bool.eqb].
  rewrite (get_present _ _ Hep), Hs. run. rewrite (normalizeDate_year h s Hy). run.
  cbv zeta. fold (year_of_text s). rewrite day_of_year_start.
  pose proof (year_range s Hy) as Hr.
  assert (0 <= year_of_text s <= 9999) as Hyr.
  { unfold year_of_text. destruct (Z.ltb_spec (digits_value 0 s) 100); lia. }
  pose proof (DayFromYear_range (year_of_text s) ltac:(lia)) as Hd.
  pose proof (Hnear (DayFromYear (year_of_text s) * msPerDay)) as Hn.
  set (t := utc h (DayFromYear (year_of_text s) * msPerDay)) in *.
  exists t. split; [|exact Hn].
  unfold TimeClip. destruct (Z.leb_spec (Z.abs t) 8640000000000000) as [_|Hbig].
  - cbn [getTime]. unfold or_else. cbn [truthy].
    destruct (Z.eqb_spec t 0) as [->|_]; reflexivity.
  - unfold msPerDay in *. lia.
Qed.

End MoreEdges.

(** X19.  On a text [normalizeDate] never throws.  It returns [null]
    only for the empty text and for a text without a slash that is no
    four-digit year and that the parser of the host rejects (or places
    out of the range of dates); and when it returns an invalid date, the
    text is a four-digit year or holds a slash: the generic branch never
    hands out an invalid date. *)
Theorem normalizeDate_on_text (h : Host) (s : string) :
  exists d,
    normalizeDate h (Str s) = Ok d
    /\ (d = None
        <-> s = ""
            \/ (is_year s = false /\ includes s (String slash EmptyString) = false
                /\ isNaN (TimeClip (parse h s)) = true))
    /\ (forall dt, d = Some dt -> getTime dt = NaN ->
          is_year s = true \/ includes s (String slash EmptyString) = true).
Proof.
  destruct (String.eqb_spec s "") as [->|Hne].
  { exists None. split; [reflexivity|]. split; [tauto | discriminate]. }
  destruct (is_year s) eqn:Hy.
  { eexists. split; [apply (normalizeDate_year h s Hy)|]. split; [|auto].
    split; [discriminate|]. intros [?|(? & _)]; [contradiction | discriminate]. }
  destruct (includes s (String slash EmptyString)) eqn:Hi.
  { rewrite (normalizeDate_slash h s Hi).
    destruct (slash_part_number 0 s) as (dn & ->).
    destruct (slash_part_number 1 s) as (mn & ->).
    destruct (slash_part_number 2 s) as (yn & ->). run.
    eexists. split; [reflexivity|]. split; [|auto].
    split; [discriminate|]. intros [?|(_ & ? & _)]; [contradiction | discriminate]. }
  rewrite (normalizeDate_generic h s Hne Hy Hi).
  destruct (isNaN (TimeClip (parse h s))) eqn:Hnan.
  - exists None. split; [reflexivity|]. split; [|discriminate]. tauto.
  - eexists. split; [reflexivity|]. split.
    + split; [discriminate|]. intros [?|(_ & _ & ?)]; [contradiction | discriminate].
    + intros dt [= <-]. cbn [getTime]. intros Hd. rewrite Hd in Hnan. discriminate.
Qed.

(** X20.  One record with a searched field that is there but is no
    text (a numeric title, say) stops the view engine: the filter
    callback throws on it, whatever the filter text.  While such a
    record is in the dataset, typing in the filter box or activating a
    header leaves the visible sequence as it was, although the filter
    text or the sort state changes and the focus is reset. *)
Theorem unsearchable_record_freezes_view (display : list value -> result unit) (h : Host)
    (s : state) (ep : value) :
  ep ∈ episodes s -> unsearchable ep = true ->
  (forall ft, exists e, matchesFilter ft ep = Throw e)
  /\ (forall t,
        let s' := on_filter_input display h t s in
        filtered s' = filtered s /\ name (filters s') = t /\ focusedRowIndex s' = -1)
  /\ (forall fld,
        let s' := on_header_click display h fld s in
        filtered s' = filtered s /\ sort s' = toggle_sort fld (sort s)
        /\ focusedRowIndex s' = -1).
Proof.
  intros Hep Hu. split; [intros ft; apply matchesFilter_unsearchable, Hu|]. split.
  - intros t s'. subst s'. unfold on_filter_input, applyFiltersAndSort.
    cbn [episodes filters sort name set_focus set_filter_name].
    destruct (view_unsearchable h (episodes s) (lower t) (sort s) ep Hep Hu) as [e ->].
    cbn. auto.
  - intros fld s'. subst s'. unfold on_header_click, applyFiltersAndSort.
    cbn [episodes filters sort name set_focus set_sort].
    destruct (view_unsearchable h (episodes s) (lower (name (filters s)))
                (toggle_sort fld (sort s)) ep Hep Hu) as [e ->].
    cbn. auto.
Qed.

Lemma unsearchable_record_freezes_view_witness :
  let s := set_filtered [rose; numbered] (set_episodes [rose; numbered] initial_state) in
  (exists e, matchesFilter "rose" numbered = Throw e)
  /\ filtered (on_filter_input display_ok utc_host "rose" s) = [rose; numbered]
  /\ sort (on_header_click display_ok utc_host "title" s)
     = {| field := "title"; ascending := true |}
  /\ filtered (on_header_click display_ok utc_host "title" s) = [rose; numbered].
Proof.
  intros s.
  destruct (unsearchable_record_freezes_view display_ok utc_host s numbered)
    as (Hthrow & Hfilter & Hclick).
  { apply list_elem_of_In. right. left. reflexivity. }
  { reflexivity. }
  destruct (Hfilter "rose") as (Hf & _). destruct (Hclick "title") as (Hc & Hs & _).
  split; [apply Hthrow|]. split; [exact Hf|]. split; [exact Hs | exact Hc].
Defined.

(** X21.  Sorting by date puts four-digit years in the order of the
    years they stand for, whatever the time zone (within a day of UTC):
    of two records with such dates the one with the earlier year
    compares as smaller, ascending, and as greater, descending.  A
    text below 0100 takes part with the year it is read as, so 0050
    sorts as 1950. *)
Theorem years_sort_in_order (h : Host) (a b : value) (sa sb : string) :
  (forall t, Z.abs (utc h t - t) <= msPerDay) ->
  nullish a = false -> nullish b = false ->
  prop a "broadcast_date" = Str sa -> prop b "broadcast_date" = Str sb ->
  is_year sa = true -> is_year sb = true ->
  year_of_text sa < year_of_text sb ->
  compareEpisodes h "broadcast_date" 1 a b = Ok (-1)
  /\ compareEpisodes h "broadcast_date" (-1) a b = Ok 1
  /\ compareEpisodes h "broadcast_date" 1 b a = Ok 1.
Proof.
  intros Hnear Ha Hb Hsa Hsb Hya Hyb Hlt.
  destruct (year_key h a sa Hnear Ha Hsa Hya) as (ta & Hka & Hta).
  destruct (year_key h b sb Hnear Hb Hsb Hyb) as (tb & Hkb & Htb).
  assert (DayFromYear (year_of_text sa) + 365 <= DayFromYear (year_of_text sb)) as Hdays.
  { pose proof (DayFromYear_step (year_of_text sa)).
    pose proof (DayFromYear_mono (year_of_text sa + 1) (year_of_text sb) ltac:(lia)). lia. }
  assert (ta < tb) as Ht by (unfold msPerDay in *; lia).
  rewrite !(compareEpisodes_keys h _ _ _ _ _ _ Hka Hkb).
  rewrite (compareEpisodes_keys h _ _ _ _ _ _ Hkb Hka).
  unfold three_way, gt, lt. cbn.
  destruct (Z.ltb_spec ta tb); [|lia]. destruct (Z.ltb_spec tb ta); [lia|].
  cbn. auto.
Qed.

Lemma years_sort_in_order_witness :
  compareEpisodes cet_host "broadcast_date" 1 unearthly rose = Ok (-1)
  /\ view cet_host [rose; unearthly] "" {| field := "broadcast_date"; ascending := true |}
     = Ok [unearthly; rose].
Proof.
  split; [|vm_compute; reflexivity].
  apply (years_sort_in_order cet_host unearthly rose "1963" "2005");
    try reflexivity.
  intros t. cbn. unfold msPerDay. lia.
Defined.
